(** * wr: the [add] command and the jobqueue utility functions

    A shallow embedding of [cmd/add.go] (the [add] sub-command: flag checks,
    per-line column parsing, [colsToDeps]) and of the jobqueue utility file
    ([byteKey], [copyFile], [compress]/[decompress], [prefixSuffixSaver],
    [stdFilter], [envOverride], [mkHashedDir], [rmEmptyDirs],
    [removeAllExcept]), with the properties the specification states about
    them and further properties that the code shows.

    Conventions.
    - a Go [string] is a Rocq [string]; a [[]byte] is a [list byte];
    - a Go [int] is a [Z]; conversions to [uint8] are written out as
      [_ mod 256]; lengths and byte counters stay far below [2 ^ 63], so
      the arithmetic on them is that of [Z];
    - [die] (which prints and exits the process) is the [Die] result;
    - Go's own library functions ([strings.Split], [strconv.Atoi],
      [strconv.FormatInt], [fmt.Sprintf "%016x"], [os.Remove],
      [filepath.Clean], [filepath.Dir]) are modelled from their documented
      behaviour;
      third-party ones ([bytefmt.ToMegabytes], [farm.Hash128], zlib's
      encoder and decoder) are parameters;
    - the file system of [rmEmptyDirs] and [removeAllExcept] is the map of
      the clean rooted paths that exist, without symbolic links;
      [removeAllExcept] cleans its path and joins names to it, and works
      on such paths; [rmEmptyDirs] works on the strings it is given, which
      [os.Remove] reads from the root or from the working directory, and
      what the system refuses for a reason of its own (permissions, say)
      is a parameter; [mkHashedDir] and [copyFile] call an operating
      system that is a parameter: any function from what went on so far
      and the call to an answer. *)

From Stdlib Require Import ZArith Lia List Strings.Ascii Strings.String Strings.Byte DecimalString.
From stdpp Require Import base tactics option list gmap strings sorting.

Local Open Scope string_scope.
Local Open Scope list_scope.
Local Open Scope Z_scope.

#[global] Instance byte_eq_dec : EqDecision byte := Byte.byte_eq_dec.

(** ** Go library functions *)

Section GenSplit.
Context {A : Type} `{EqDecision A}.

(** [strings.HasPrefix] / [bytes.HasPrefix]. *)
Fixpoint HasPrefix (s prefix : list A) : bool :=
  match prefix, s with
  | [], _ => true
  | _ :: _, [] => false
  | p :: prefix', c :: s' => bool_decide (p = c) && HasPrefix s' prefix'
  end.

(** [strings.Index]: the position of the first instance of [sep] in [s],
    [None] for Go's -1. *)
Fixpoint Index (s sep : list A) : option nat :=
  if HasPrefix s sep then Some 0%nat
  else match s with
       | [] => None
       | _ :: s' => S <$> Index s' sep
       end.

(** The loop of [genSplit]: cut at the first instance of [sep], continue
    behind it.  Go bounds the loop by [Count(s, sep)]; [fuel] plays that
    part. *)
Fixpoint genSplit_loop (fuel : nat) (s sep : list A) : list (list A) :=
  match fuel with
  | O => [s]
  | S fuel' =>
      match Index s sep with
      | None => [s]
      | Some m => take m s :: genSplit_loop fuel' (drop (m + length sep) s) sep
      end
  end.

(** [genSplit(s, sep, 0, -1)].  With an empty separator Go explodes [s]
    into its UTF-8 sequences; here into its elements (no caller in the
    modelled code passes an empty separator).  [length s] bounds the
    number of non-overlapping instances of a non-empty separator. *)
Definition genSplit (s sep : list A) : list (list A) :=
  match sep with
  | [] => (fun c => [c]) <$> s
  | _ :: _ => genSplit_loop (length s) s sep
  end.
End GenSplit.

(** [strings.Split]. *)
Definition strings_Split (s sep : string) : list string :=
  string_of_list_ascii <$>
    genSplit (list_ascii_of_string s) (list_ascii_of_string sep).

(** [bytes.Split]. *)
Definition bytes_Split (s sep : list byte) : list (list byte) := genSplit s sep.

(** The tab character, and the two-character text backslash-t. *)
Definition TAB : string := String (ascii_of_nat 9) EmptyString.
Definition BACKSLASH_T : string := String (ascii_of_nat 92) (String "t" EmptyString).

(** [strconv.FormatInt(i, 10)]. *)
Definition FormatInt10 (i : Z) : string := NilZero.string_of_int (Z.to_int i).

(** Value of a decimal digit. *)
Definition digit_val (c : ascii) : option Z :=
  let n := Z.of_nat (nat_of_ascii c) in
  if (48 <=? n) && (n <=? 57) then Some (n - 48) else None.

(** Value of a run of decimal digits, most significant first. *)
Fixpoint digits_val (acc : Z) (s : string) : option Z :=
  match s with
  | EmptyString => Some acc
  | String c s' =>
      match digit_val c with
      | Some d => digits_val (10 * acc + d) s'
      | None => None
      end
  end.

Definition MaxInt64 : Z := 2 ^ 63 - 1.
Definition MinInt64 : Z := - 2 ^ 63.

(** [strconv.Atoi] on a 64-bit platform: an optional sign, then at least one
    decimal digit and only decimal digits; a syntax error or a value outside
    the range of [int] is an error ([None]). *)
Definition Atoi (s : string) : option Z :=
  let '(neg, body) :=
    match s with
    | String "+" r => (false, r)
    | String "-" r => (true, r)
    | _ => (false, s)
    end in
  match body with
  | EmptyString => None
  | _ =>
      match digits_val 0 body with
      | None => None
      | Some v =>
          let v := if neg then - v else v in
          if (MinInt64 <=? v) && (v <=? MaxInt64) then Some v else None
      end
  end.

(** ** cmd/add.go *)

(** [die] prints its message and exits the process: a run is either [Ok] or
    [Die] with the format string of the message. *)
Inductive result (A : Type) : Type :=
  | Ok (a : A)
  | Die (msg : string).
Arguments Ok {A} a.
Arguments Die {A} msg.

#[global] Instance result_bind : MBind result := fun A B k r =>
  match r with
  | Ok a => k a
  | Die msg => Die msg
  end.

(** Modelled from the spec: the constructors [NewCmdDependency],
    [NewDepGroupDependency], [NewDependencies] and [NewJob] of package
    jobqueue, which is not among the sources; they are taken as plain
    constructors that store their arguments (the spec's tagged variant and
    the attributes of a Job that [add] supplies). *)
Inductive Dependency : Type :=
  | NewCmdDependency (cmd cwd : string)
  | NewDepGroupDependency (depgroup : string).

Record Job : Type := NewJob {
  Cmd : string;
  Cwd : string;
  ReqGroup : string;
  Memory : Z;
  Walltime : Z;
  CPUs : Z;
  Override : Z;
  Priority : Z;
  Retries : Z;
  RepGroup : string;
  DepGroups : list string;
  Dependencies : list Dependency
}.

(** The conversion [uint8(x)] of an [int]. *)
Definition uint8 (x : Z) : Z := x mod 256.

(** The options of the command (the package-level flag variables). *)
Record Flags : Type := {
  reqGroup : string;
  cmdTime : string;
  cmdMem : string;
  cmdCPUs : Z;
  cmdOvr : Z;
  cmdPri : Z;
  cmdRet : Z;
  cmdFile : string;
  cmdRepGroup : string;
  cmdDepGroups : string;
  cmdDeps : string;
  cmdCwd : string
}.

(** The defaults registered in [init]. *)
Definition defaultFlags : Flags := {|
  reqGroup := ""; cmdTime := "1h"; cmdMem := "1G"; cmdCPUs := 1;
  cmdOvr := 0; cmdPri := 0; cmdRet := 3; cmdFile := "-";
  cmdRepGroup := "manually_added"; cmdDepGroups := ""; cmdDeps := "";
  cmdCwd := "" |}.

(** What [Run] gets from outside the program: the lines the scanner yields
    from the opened file or standard input ([None]: the file could not be
    opened), what the manager answered before and after the lines are read,
    and the current directory. *)
Record World : Type := {
  input : option (list string);
  connect1 : bool;
  serverStats : option bool;   (* [Some true]: the manager runs on this host *)
  getwd : option string;
  connect2 : bool;
  addOk : bool
}.

(** The loop of [colsToDeps], on the index [i]; [None] is the run-time
    panic of [cols[i+1]] out of range (or no fuel left, which
    [colsToDeps] never lets happen). *)
Fixpoint colsToDeps_loop (fuel : nat) (cols : list string) (i : nat)
    (deps : list Dependency) : option (list Dependency) :=
  if (i <? length cols)%nat then
    match fuel with
    | O => None
    | S fuel' =>
        match cols !! i, cols !! (i + 1)%nat with
        | Some ci, Some ci1 =>
            if decide (ci1 = "groups") then
              colsToDeps_loop fuel' cols (i + 2)%nat
                (deps ++ (NewDepGroupDependency <$> strings_Split ci ","))
            else
              colsToDeps_loop fuel' cols (i + 2)%nat
                (deps ++ [NewCmdDependency ci ci1])
        | _, _ => None
        end
    end
  else Some deps.

Definition colsToDeps (cols : list string) : option (list Dependency) :=
  colsToDeps_loop (length cols) cols 0 [].

(** The dependency columns, after the check on their number that both
    callers of [colsToDeps] make. *)
Definition depsOfCols (msg : string) (cols : list string)
    : result (list Dependency) :=
  if negb (Z.of_nat (length cols) mod 2 =? 0) then Die msg
  else match colsToDeps cols with
       | Some deps => Ok deps
       | None => Die "panic: index out of range"
       end.

(** [colsn < i+1 || cols[i] == ""]: the column is unset ([None]). *)
Definition column (cols : list string) (i : nat) : option string :=
  match cols !! i with
  | Some c => if decide (c = "") then None else Some c
  | None => None
  end.

(** The dependencies the flag [--deps] gives: [defaultDeps]. *)
Definition flagDeps (cmdDeps : string) : result (list Dependency) :=
  if decide (cmdDeps = "") then Ok []
  else depsOfCols "--deps must have an even number of tab-separated columns"
         (strings_Split cmdDeps BACKSLASH_T).

(** The dependencies of a line: the defaults when column 12 is unset, else
    what all remaining columns [cols[11:]] give. *)
Definition lineDeps (defaultDeps : list Dependency) (cols : list string)
    : result (list Dependency) :=
  match column cols 11 with
  | None => Ok defaultDeps
  | Some _ =>
      depsOfCols "there must be an even number of dependency columns"
        (drop 11 cols)
  end.

(** The state of the scanning loop. *)
Record LoopState : Type := {
  jobs : list Job;
  pwdWarning : Z;
  defaultedRepG : bool;
  warnings : list string
}.

Section Add.
(** [bytefmt.ToMegabytes] (converted to [int]), [time.ParseDuration] and
    [filepath.Base]. *)
Variable ToMegabytes : string -> option Z.
Variable ParseDuration : string -> option Z.
Variable filepath_Base : string -> string.

(** What the checks of the command-line options leave for the lines: the
    defaults of the columns that are not flags as they are. *)
Record Defaults : Type := {
  cmdMB : Z;
  cmdDuration : Z;
  cpusDefault : Z;
  defaultDepGroups : list string;
  defaultDeps : list Dependency
}.

(** The checks of the command-line options, up to the defaults of the
    dependency columns. *)
Definition checkOptions (fl : Flags) : result Defaults :=
  if decide (cmdFile fl = "") then Die "--file is required" else
  mb ← (if decide (cmdMem fl = "") then Ok 0
         else match ToMegabytes (cmdMem fl) with
              | None => Die "--memory was not specified correctly: %s"
              | Some mb => Ok mb
              end);
  dur ← (if decide (cmdTime fl = "") then Ok 0
          else match ParseDuration (cmdTime fl) with
               | None => Die "--time was not specified correctly: %s"
               | Some d => Ok d
               end);
  let cpus := if cmdCPUs fl <? 1 then 1 else cmdCPUs fl in
  if (cmdOvr fl <? 0) || (cmdOvr fl >? 2)
  then Die "--override must be in the range 0..2" else
  if (cmdPri fl <? 0) || (cmdPri fl >? 255)
  then Die "--priority must be in the range 0..255" else
  if (cmdRet fl <? 0) || (cmdRet fl >? 255)
  then Die "--retries must be in the range 0..255" else
  let depGroups :=
    if decide (cmdDepGroups fl = "") then []
    else strings_Split (cmdDepGroups fl) "," in
  deps ← flagDeps (cmdDeps fl);
  Ok {| cmdMB := mb; cmdDuration := dur; cpusDefault := cpus;
        defaultDepGroups := depGroups; defaultDeps := deps |}.

(** One column holding a number: the default when the column is unset,
    else [strconv.Atoi] of it. *)
Definition intColumn (cols : list string) (i : nat) (default : Z)
    (msg : string) : result (bool * Z) :=
  match column cols i with
  | None => Ok (false, default)
  | Some c =>
      match Atoi c with
      | None => Die msg
      | Some v => Ok (true, v)
      end
  end.

(** The body of the scanning loop for one line of input. *)
Definition processLine (fl : Flags) (df : Defaults) (pwd : string)
    (st : LoopState) (line : string) : result LoopState :=
  let cols := strings_Split line TAB in
  let colsn := Z.of_nat (length cols) in
  match cols with
  | [] => Ok st
  | cmd :: _ =>
  if (colsn <? 1) || bool_decide (cmd = "") then Ok st else
  let '(cwd, pwdWarning', warnings') :=
    match column cols 1 with
    | None =>
        if decide (cmdCwd fl = "") then
          if pwdWarning st =? 1 then
            (pwd, 0,
             warnings st ++
             ["command working directories defaulting to /tmp since the manager is running remotely"])
          else (pwd, pwdWarning st, warnings st)
        else (cmdCwd fl, pwdWarning st, warnings st)
    | Some c => (c, pwdWarning st, warnings st)
    end in
  let rg :=
    match column cols 2 with
    | None =>
        if decide (reqGroup fl = "") then
          filepath_Base (hd "" (strings_Split cmd " "))
        else reqGroup fl
    | Some c => c
    end in
  mb ← (match column cols 3 with
        | None => Ok (cmdMB df)
        | Some c =>
            match ToMegabytes c with
            | None => Die "a value in the memory column (%s) was not specified correctly: %s"
            | Some thismb => Ok thismb
            end
        end);
  dur ← (match column cols 4 with
         | None => Ok (cmdDuration df)
         | Some c =>
             match ParseDuration c with
             | None => Die "a value in the time column (%s) was not specified correctly: %s"
             | Some d => Ok d
             end
         end);
  cpus ← intColumn cols 5 (cpusDefault df)
           "a value in the cpus column (%s) was not specified correctly: %s";
  override ← intColumn cols 6 (cmdOvr fl)
           "a value in the override column (%s) was not specified correctly: %s";
  if override.1 && ((override.2 <? 0) || (override.2 >? 2))
  then Die "override column must contain values in the range 0..2 (not %d)" else
  priority ← intColumn cols 7 (cmdPri fl)
           "a value in the priority column (%s) was not specified correctly: %s";
  if priority.1 && ((priority.2 <? 0) || (priority.2 >? 255))
  then Die "priority column must contain values in the range 0..255 (not %d)" else
  retries ← intColumn cols 8 (cmdRet fl)
           "a value in the retries column (%s) was not specified correctly: %s";
  if retries.1 && ((priority.2 <? 0) || (priority.2 >? 255))
  then Die "retries column must contain values in the range 0..255 (not %d)" else
  let '(repg, defaultedRepG') :=
    match column cols 9 with
    | None => (cmdRepGroup fl, true)
    | Some c => (c, defaultedRepG st)
    end in
  let depGroups :=
    match column cols 10 with
    | None => defaultDepGroups df
    | Some c => strings_Split c ","
    end in
  deps ← lineDeps (defaultDeps df) cols;
  Ok {| jobs := jobs st ++
                [NewJob cmd cwd rg mb dur cpus.2 (uint8 override.2)
                   (uint8 priority.2) (uint8 retries.2) repg depGroups deps];
        pwdWarning := pwdWarning';
        defaultedRepG := defaultedRepG';
        warnings := warnings' |}
  end.

(** [for scanner.Scan() { ... }]. *)
Fixpoint scanLoop (fl : Flags) (df : Defaults) (pwd : string)
    (st : LoopState) (lines : list string) : result LoopState :=
  match lines with
  | [] => Ok st
  | line :: lines' =>
      st' ← processLine fl df pwd st line;
      scanLoop fl df pwd st' lines'
  end.

(** What a run of the command that does not die has done: the jobs handed
    to [jq.Add] (the submission), whether the report group was defaulted,
    and the warnings printed. *)
Record Outcome : Type := {
  submitted : list Job;
  usedDefaultRepGroup : bool;
  warned : list string
}.

(** [addCmd.Run]. *)
Definition Run (fl : Flags) (w : World) : result Outcome :=
  let fl :=
    if decide (cmdRepGroup fl = "") then
      {| reqGroup := reqGroup fl; cmdTime := cmdTime fl; cmdMem := cmdMem fl;
         cmdCPUs := cmdCPUs fl; cmdOvr := cmdOvr fl; cmdPri := cmdPri fl;
         cmdRet := cmdRet fl; cmdFile := cmdFile fl;
         cmdRepGroup := "manually_added"; cmdDepGroups := cmdDepGroups fl;
         cmdDeps := cmdDeps fl; cmdCwd := cmdCwd fl |}
    else fl in
  df ← checkOptions fl;
  lines ← (match input w with
           | None => Die "could not open file '%s': %s"
           | Some lines => Ok lines
           end);
  if negb (connect1 w) then Die "%s" else
  loc ← (match serverStats w with
         | None => Die "even though I was able to connect to the manager, it failed to tell me its location"
         | Some local =>
             if local then
               match getwd w with
               | None => Die "%s"
               | Some d => Ok (d, 0)
               end
             else Ok ("/tmp", 1)
         end);
  st ← scanLoop fl df loc.1
         {| jobs := []; pwdWarning := loc.2; defaultedRepG := false;
            warnings := [] |} lines;
  if negb (connect2 w) then Die "%s" else
  if negb (addOk w) then Die "%s" else
  Ok {| submitted := jobs st; usedDefaultRepGroup := defaultedRepG st;
        warned := warnings st |}.
End Add.

(** ** jobqueue utilities *)

Definition len {A : Type} (l : list A) : Z := Z.of_nat (length l).

(** *** byteKey *)

(** The digits of [fmt]'s integer formatting. *)
Definition ldigits : list ascii := list_ascii_of_string "0123456789abcdef".

Definition hexDigit (d : Z) : ascii := nth (Z.to_nat d) ldigits "0"%char.

(** The verb [%x] on an unsigned integer: digits from the least significant
    one, [for u >= 16 { ...; u >>= 4 }], then the last digit. *)
Fixpoint fmt_x_loop (fuel : nat) (u : Z) (buf : list ascii) : list ascii :=
  match fuel with
  | O => hexDigit u :: buf
  | S fuel' =>
      if u >=? 16 then fmt_x_loop fuel' (Z.shiftr u 4) (hexDigit (Z.land u 15) :: buf)
      else hexDigit u :: buf
  end.

Definition fmt_x (u : Z) : list ascii := fmt_x_loop (Z.to_nat (Z.log2 u)) u [].

(** The verb [%016x]: [%x] padded with zeros on the left to 16 characters. *)
Definition fmt_016x (u : Z) : list ascii :=
  let ds := fmt_x u in
  replicate (16 - length ds) "0"%char ++ ds.

Section ByteKey.
(** [farm.Hash128]: the two [uint64] halves of the hash. *)
Variable Hash128 : list byte -> Z * Z.

Definition byteKey (b : list byte) : string :=
  let '(l, h) := Hash128 b in
  string_of_list_ascii (fmt_016x l ++ fmt_016x h).
End ByteKey.

(** *** compress and decompress *)

Definition HuffmanOnly : Z := -2.
Definition BestCompression : Z := 9.

Section Zlib.
(** Package compress/zlib: [zlib_stream level data] is what a [Writer] of
    that level has written to its underlying buffer once [data] was
    written to it and it was closed; [zlib_header] tells whether
    [NewReader] accepts the start of a stream; [zlib_inflate] is what
    reading it to the end yields ([None]: an error other than [io.EOF]). *)
Variable zlib_stream : Z -> list byte -> list byte.
Variable zlib_header : list byte -> bool.
Variable zlib_inflate : list byte -> option (list byte).

Record Writer : Type := {
  level : Z;
  pending : list byte
}.

Definition NewWriterLevel (lvl : Z) : result Writer :=
  if (lvl <? HuffmanOnly) || (lvl >? BestCompression)
  then Die "zlib: invalid compression level"
  else Ok {| level := lvl; pending := [] |}.

Definition Writer_Write (w : Writer) (data : list byte) : Writer :=
  {| level := level w; pending := pending w ++ data |}.

(** [Close] flushes the stream to the underlying buffer. *)
Definition Writer_Close (w : Writer) (compressed : list byte) : list byte :=
  compressed ++ zlib_stream (level w) (pending w).

Definition compress (data : list byte) : result (list byte) :=
  w ← NewWriterLevel BestCompression;
  let w := Writer_Write w data in
  let compressed := Writer_Close w [] in
  Ok compressed.

Definition decompress (compressed : list byte) : result (list byte) :=
  if negb (zlib_header compressed) then Die "zlib: invalid header" else
  match zlib_inflate compressed with
  | None => Die "zlib: read error"
  | Some buf => Ok buf
  end.
End Zlib.

(** *** prefixSuffixSaver *)

(** A slice that was never appended to is [nil]; [fill] appends at least one
    byte when it appends, so [suffix == nil] is [suffix = []]. *)
Record prefixSuffixSaver : Type := {
  N : Z;
  prefix : list byte;
  suffix : list byte;
  suffixOff : Z;
  skipped : Z
}.

Definition minInt (a b : Z) : Z := if a <? b then a else b.

(** [fill] on the destination [dst] (the prefix or the suffix): the new
    destination and what is left of [p]. *)
Definition fill (n : Z) (dst p : list byte) : list byte * list byte :=
  let remain := n - len dst in
  if remain >? 0 then
    let add := Z.to_nat (minInt (len p) remain) in
    (dst ++ take add p, drop add p)
  else (dst, p).

(** [for len(p) > 0 { n := copy(w.suffix[w.suffixOff:], p); ... }].  [None]
    is a run-time panic (slice bounds out of range) or a loop that makes no
    progress. *)
Fixpoint copyLoop (fuel : nat) (w : prefixSuffixSaver) (p : list byte)
    : option prefixSuffixSaver :=
  match p with
  | [] => Some w
  | _ :: _ =>
      match fuel with
      | O => None
      | S fuel' =>
          if (suffixOff w <? 0) || (suffixOff w >? len (suffix w)) then None
          else
            let off := Z.to_nat (suffixOff w) in
            let n := Nat.min (length (suffix w) - off) (length p) in
            let suffix' :=
              take off (suffix w) ++ take n p ++ drop (off + n) (suffix w) in
            let suffixOff' := suffixOff w + Z.of_nat n in
            copyLoop fuel'
              {| N := N w; prefix := prefix w; suffix := suffix';
                 suffixOff := if suffixOff' =? N w then 0 else suffixOff';
                 skipped := skipped w + Z.of_nat n |}
              (drop n p)
      end
  end.

Definition Write (w : prefixSuffixSaver) (p : list byte)
    : option prefixSuffixSaver :=
  let '(prefix', p) := fill (N w) (prefix w) p in
  let overage := len p - N w in
  if (overage >? 0) && (overage >? len p) then None else
  let '(p, skipped') :=
    if overage >? 0 then (drop (Z.to_nat overage) p, skipped w + overage)
    else (p, skipped w) in
  let '(suffix', p) := fill (N w) (suffix w) p in
  copyLoop (length p)
    {| N := N w; prefix := prefix'; suffix := suffix';
       suffixOff := suffixOff w; skipped := skipped' |} p.

Definition LF : string := String (ascii_of_nat 10) EmptyString.

(** [Bytes]; [None] is the panic of slicing the suffix out of range. *)
Definition Bytes (w : prefixSuffixSaver) : option (list byte) :=
  match suffix w with
  | [] => Some (prefix w)
  | _ :: _ =>
      if skipped w =? 0 then Some (prefix w ++ suffix w)
      else if (suffixOff w <? 0) || (suffixOff w >? len (suffix w)) then None
      else
        let off := Z.to_nat (suffixOff w) in
        Some (prefix w
              ++ list_byte_of_string (LF +:+ "... omitting ")
              ++ list_byte_of_string (FormatInt10 (skipped w))
              ++ list_byte_of_string (" bytes ..." +:+ LF)
              ++ drop off (suffix w)
              ++ take off (suffix w))
  end.

(** A saver as the callers make it: [&prefixSuffixSaver{N: n}]. *)
Definition newSaver (n : Z) : prefixSuffixSaver :=
  {| N := n; prefix := []; suffix := []; suffixOff := 0; skipped := 0 |}.

(** A sequence of calls of [Write]. *)
Fixpoint Writes (w : prefixSuffixSaver) (ps : list (list byte))
    : option prefixSuffixSaver :=
  match ps with
  | [] => Some w
  | p :: ps' =>
      match Write w p with
      | Some w' => Writes w' ps'
      | None => None
      end
  end.

(** *** stdFilter *)

Definition cr : list byte := [x0d].
Definition lf : list byte := [x0a].
Definition ellipses : list byte := list_byte_of_string "[...]" ++ lf.

(** The interface [io.Writer]: the writer after the call, and the error. *)
Class IoWriter (W : Type) : Type :=
  io_Write : W -> list byte -> W * option string.

(** A [bytes.Buffer] takes everything. *)
#[global] Instance buffer_writer : IoWriter (list byte) :=
  fun buf p => (buf ++ p, None).

(** [bufio.Reader.ReadBytes(delim)] on what is left of the input: the bytes
    up to and including the first [delim], and the rest of the input; with
    no [delim] left, all of it and the error [io.EOF] ([None]). *)
Fixpoint ReadBytes (delim : byte) (s : list byte)
    : list byte * option (list byte) :=
  match s with
  | [] => ([], None)
  | c :: s' =>
      if decide (c = delim) then ([c], Some s')
      else let '(p, rest) := ReadBytes delim s' in (c :: p, rest)
  end.

Section StdFilter.
Context {W : Type} `{IoWriter W}.

(** [_, errw = out.Write(b); if errw != nil { merr = Append(merr, errw) }] *)
Definition writeTo (st : W * list string) (b : list byte) : W * list string :=
  let '(out', errw) := io_Write st.1 b in
  (out', match errw with Some e => st.2 ++ [e] | None => st.2 end).

(** The body of the loop, on the chunk [p] that was read. *)
Definition filterChunk (st : W * list string) (p : list byte)
    : W * list string :=
  let lines := bytes_Split p cr in
  let st := writeTo st (nth 0 lines []) in
  if len lines >? 2 then
    let st := writeTo st lf in
    let st := if len lines >? 3 then writeTo st ellipses else st in
    let st := writeTo st (nth (length lines - 2) lines []) in
    writeTo st lf
  else st.

(** The loop of the goroutine; [None] when the fuel does not reach the
    end of the input. *)
Fixpoint stdFilter_loop (fuel : nat) (reader : list byte)
    (st : W * list string) : option (W * list string) :=
  match fuel with
  | O => None
  | S fuel' =>
      let '(p, rest) := ReadBytes x0a reader in
      let st := filterChunk st p in
      match rest with
      | None => Some st
      | Some reader' => stdFilter_loop fuel' reader' st
      end
  end.

(** [stdFilter]: the writer at the end and the errors sent on [done]. *)
Definition stdFilter (std : list byte) (out : W) : option (W * list string) :=
  stdFilter_loop (S (length std)) std (out, []).
End StdFilter.

(** *** envOverride *)

(** [pair[0]] of [pair := strings.Split(envvar, "=")]. *)
Definition envName (envvar : string) : string :=
  nth 0 (strings_Split envvar "=") "".

(** The first loop: the map from names to the variables of [over]. *)
Definition overrideMap (over : list string) : gmap string string :=
  foldl (fun override envvar => <[envName envvar := envvar]> override) ∅ over.

(** The second loop, on the index [i]: [n] elements are still to visit. *)
Fixpoint replaceLoop (n i : nat) (env : list string)
    (override : gmap string string) : list string * gmap string string :=
  match n with
  | O => (env, override)
  | S n' =>
      match env !! i with
      | None => (env, override)
      | Some envvar =>
          match override !! envName envvar with
          | Some replace =>
              replaceLoop n' (S i) (<[i := replace]> env)
                (delete (envName envvar) override)
          | None => replaceLoop n' (S i) env override
          end
      end
  end.

Section EnvOverride.
(** The order in which [range] visits the values of a map, which Go
    leaves unspecified. *)
Variable range : gmap string string -> list string.

Definition envOverride (orig over : list string) : list string :=
  let override := overrideMap over in
  let '(env, override) := replaceLoop (length orig) 0 orig override in
  env ++ range override.
End EnvOverride.

(** One possible order. *)
Definition rangeSorted (m : gmap string string) : list string :=
  (map_to_list m).*2.

(** *** The file system *)

(** A clean absolute path is the list of its elements, [[]] being the root;
    [filepath.Dir] of such a path drops the last element and leaves the
    root as it is. *)
Abbreviation path := (list string).

Definition Dir (p : path) : path := removelast p.

Inductive kind : Type := RegularFile | Directory.

(** The file system: which paths exist. *)
Abbreviation FS := (gmap path kind).

Inductive errno : Type := ENOENT | ENOTEMPTY | EBUSY.

#[global] Instance errno_eq_dec : EqDecision errno.
Proof. solve_decision. Defined.

(** [q] is an entry of the directory [p]. *)
Definition entryOf (p q : path) : Prop := q ≠ [] ∧ Dir q = p.

#[global] Instance entryOf_dec p q : Decision (entryOf p q).
Proof. unfold entryOf. apply _. Defined.

Definition isEmpty (fs : FS) (p : path) : bool :=
  bool_decide (map_Forall (fun q _ => ¬ entryOf p q) fs).

(** [os.Remove]: removes the named file or empty directory. *)
Definition os_Remove (fs : FS) (p : path) : FS * option errno :=
  match fs !! p with
  | None => (fs, Some ENOENT)
  | Some _ =>
      if decide (p = []) then (fs, Some EBUSY)
      else if isEmpty fs p then (delete p fs, None)
      else (fs, Some ENOTEMPTY)
  end.

Definition mkfs (dirs : list path) : FS :=
  list_to_map ((fun p => (p, Directory)) <$> dirs).

(** ** Definitions that follow the words of the specification *)

(** The dependencies that pairs of columns stand for: a pair whose second
    element is the word [groups] gives one dependency-group dependency per
    comma-separated name of its first element, any other pair one command
    dependency. *)
Fixpoint pairDeps (cols : list string) : list Dependency :=
  match cols with
  | c :: d :: rest =>
      (if decide (d = "groups")
       then NewDepGroupDependency <$> strings_Split c ","
       else [NewCmdDependency c d]) ++ pairDeps rest
  | _ => []
  end.

(** The first column of a line: its text up to the first tab. *)
Fixpoint firstColumn (line : string) : string :=
  match line with
  | EmptyString => EmptyString
  | String c line' =>
      if decide (c = ascii_of_nat 9) then EmptyString
      else String c (firstColumn line')
  end.

(** A line that is empty or whose first column is the empty string. *)
Definition skippedLine (line : string) : bool :=
  bool_decide (line = "") || bool_decide (firstColumn line = "").

(** The same world, with other lines in the input. *)
Definition withInput (w : World) (lines : list string) : World :=
  {| input := Some lines; connect1 := connect1 w;
     serverStats := serverStats w; getwd := getwd w;
     connect2 := connect2 w; addOk := addOk w |}.

(** The pieces of [s] between the occurrences of [c]. *)
Fixpoint pieces {A : Type} `{EqDecision A} (c : A) (s : list A)
    : list (list A) :=
  match s with
  | [] => [[]]
  | x :: s' =>
      if decide (x = c) then [] :: pieces c s'
      else match pieces c s' with
           | piece :: rest => (x :: piece) :: rest
           | [] => [[x]]
           end
  end.

(** The chunks [stdFilter] reads: each ends with its newline, but for the
    last one, which is what is left at the end of the input. *)
Fixpoint chunks (s : list byte) : list (list byte) :=
  match s with
  | [] => [[]]
  | c :: s' =>
      if decide (c = x0a) then [c] :: chunks s'
      else match chunks s' with
           | chunk :: rest => (c :: chunk) :: rest
           | [] => [[c]]
           end
  end.

(** What [stdFilter] appends to a buffer for one chunk. *)
Definition chunkOutput (p : list byte) : list byte :=
  (filterChunk (([] : list byte), []) p).1.

(** The output keeps the first and the last of the lines that carriage
    returns separate in the chunk. *)
Definition keepsFirstAndLast (p out : list byte) : Prop :=
  ∃ between : list byte,
    out = nth 0 (pieces x0d p) [] ++ between ++ List.last (pieces x0d p) [].

(** The value [over] gives to the name [name]: its last variable of that
    name. *)
Definition overValue (over : list string) (name : string) : option string :=
  last (filter (fun envvar => envName envvar = name) over).

(** The marker of the omitted bytes. *)
Definition omitted (n : Z) : list byte :=
  list_byte_of_string
    (LF +:+ "... omitting " +:+ FormatInt10 n +:+ " bytes ..." +:+ LF).

(** A character of a hexadecimal string. *)
Definition isHex (c : ascii) : bool :=
  bool_decide (c ∈ ldigits).

(** A codec to run [compress] and [decompress] on: the data behind the
    two bytes of a zlib header, not compressed. *)
Definition storedStream (lvl : Z) (data : list byte) : list byte :=
  x78 :: xda :: data.

Definition storedHeader (s : list byte) : bool :=
  bool_decide (take 2 s = [x78; xda]).

Definition storedInflate (s : list byte) : option (list byte) :=
  Some (drop 2 s).

(** A manager on another host that answers every call. *)
Definition remoteManager (lines : list string) : World :=
  {| input := Some lines; connect1 := true; serverStats := Some false;
     getwd := None; connect2 := true; addOk := true |}.

(** The flags left at their defaults, but for no memory and no time. *)
Definition plainFlags : Flags := {|
  reqGroup := ""; cmdTime := ""; cmdMem := ""; cmdCPUs := 1;
  cmdOvr := 0; cmdPri := 0; cmdRet := 3; cmdFile := "-";
  cmdRepGroup := "manually_added"; cmdDepGroups := ""; cmdDeps := "";
  cmdCwd := "/work" |}.

(** A line of columns. *)
Definition tabbed (cols : list string) : string :=
  match cols with
  | [] => ""
  | c :: cols' => foldl (fun line col => line +:+ TAB +:+ col) c cols'
  end.

(** A hash of the right type, to run [byteKey] on. *)
Definition lengthHash (b : list byte) : Z * Z :=
  (len b mod 2 ^ 64, 2 ^ 64 - 1).

(** The suffix of a saver in the order of writing: from [suffixOff] to the
    end, then from the start to [suffixOff]. *)
Definition rot (w : prefixSuffixSaver) : list byte :=
  drop (Z.to_nat (suffixOff w)) (suffix w)
  ++ take (Z.to_nat (suffixOff w)) (suffix w).

(** The saver [w] of bound [k] holds the bytes [data] written so far. *)
Definition saved (k : nat) (w : prefixSuffixSaver) (data : list byte) : Prop :=
  N w = Z.of_nat k /\
  prefix w = take k data /\
  0 <= suffixOff w < Z.of_nat k /\
  ((length data <= 2 * k)%nat -> suffixOff w = 0) /\
  skipped w = Z.of_nat (length data - 2 * k) /\
  rot w = drop (k + (length data - 2 * k)) data.

(** What [Bytes] gives after the writes [ps] to a saver of bound [n]: all
    bytes written when they are at most [2 * n], else the first [n], the
    marker of the number omitted, and the last [n]. *)
Definition saverKeeps (n : Z) (ps : list (list byte)) : Prop :=
  Writes (newSaver n) ps ≫= Bytes
  = Some (if len (concat ps) <=? 2 * n then concat ps
          else take (Z.to_nat n) (concat ps)
               ++ omitted (len (concat ps) - 2 * n)
               ++ drop (Z.to_nat (len (concat ps) - n)) (concat ps)).

(** The second loop of [envOverride] read along the list: the variables
    after the replacements, and what is left of the map. *)
Fixpoint replaceAll (env : list string) (override : gmap string string)
    : list string * gmap string string :=
  match env with
  | [] => ([], override)
  | envvar :: env' =>
      match override !! envName envvar with
      | Some replace =>
          let '(env'', override') :=
            replaceAll env' (delete (envName envvar) override) in
          (replace :: env'', override')
      | None =>
          let '(env'', override') := replaceAll env' override in
          (envvar :: env'', override')
      end
  end.

(** How often the name occurs among the variables. *)
Definition occurrences (name : string) (env : list string) : nat :=
  length (filter (fun envvar => envName envvar = name) env).


(** The override and the priority of a job are in their ranges. *)
Definition checkedJob (job : Job) : Prop :=
  0 <= Override job <= 2 /\ 0 <= Priority job <= 255.

(** ** jobqueue utilities: further functions *)

(** *** removeAllExcept *)

(** [filepath.Clean] on a rooted path, one element at a time: empty
    elements and [.] are dropped, [..] goes to the parent (the root is its
    own parent). *)
Definition cleanStep (p : path) (elem : string) : path :=
  if decide (elem = "") then p
  else if decide (elem = ".") then p
  else if decide (elem = "..") then Dir p
  else p ++ [elem].

(** [filepath.Join(path, dir)] for a clean absolute [path]. *)
Definition filepath_Join (p : path) (dir : string) : path :=
  foldl cleanStep p (strings_Split dir "/").

(** [for { if parent == path { break }; checkDirs[parent] = true;
    parent = filepath.Dir(parent) }]; [None] when the fuel runs out. *)
Fixpoint checkLoop (fuel : nat) (p parent : path) (checkDirs : gset path)
    : option (gset path) :=
  if decide (parent = p) then Some checkDirs
  else match fuel with
       | O => None
       | S fuel' => checkLoop fuel' p (Dir parent) ({[parent]} ∪ checkDirs)
       end.

(** [for _, dir := range exceptions { ... }]: the maps [keepDirs] and
    [checkDirs] as the sets of their keys. *)
Fixpoint exceptionsLoop (fuel : nat) (p : path) (exceptions : list string)
    (keepDirs checkDirs : gset path) : option (gset path * gset path) :=
  match exceptions with
  | [] => Some (keepDirs, checkDirs)
  | dir :: rest =>
      let abs := filepath_Join p dir in
      match checkLoop fuel p (Dir abs) checkDirs with
      | None => None
      | Some checkDirs' =>
          exceptionsLoop fuel p rest ({[abs]} ∪ keepDirs) checkDirs'
      end
  end.

#[global] Instance kind_eq_dec : EqDecision kind.
Proof. solve_decision. Defined.

Inductive rmError : Type :=
  | ReadDirError (p : path)
  | RemoveError (p : path) (e : errno).

(** The name of an entry: the last element of its path. *)
Definition entryName (q : path) : string := List.last q "".

(** The order of the entries that [ioutil.ReadDir] returns. *)
Definition byName (a b : path * kind) : Prop :=
  String.leb (entryName a.1) (entryName b.1) = true.

#[global] Instance byName_dec a b : Decision (byName a b).
Proof. unfold byName. apply _. Defined.

(** [ioutil.ReadDir]: the entries of a directory, sorted by name; each
    entry is given by its path, which is what [filepath.Join(path,
    entry.Name())] makes of its name. *)
Definition ReadDir (fs : FS) (p : path) : option (list (path * kind)) :=
  match fs !! p with
  | Some Directory =>
      Some (merge_sort byName
              (filter (fun e => entryOf p e.1) (map_to_list fs)))
  | _ => None
  end.

(** [os.RemoveAll]: removes the path and everything below it. *)
Definition os_RemoveAll (fs : FS) (p : path) : FS :=
  filter (fun e => ¬ p `prefix_of` e.1) fs.

(** The loop of [removeWithExceptions] over the entries that were read;
    [rec] is the recursive call. *)
Fixpoint entriesLoop (rec : FS -> path -> option (FS * option rmError))
    (keepDirs checkDirs : gset path) (entries : list (path * kind))
    (fs : FS) : option (FS * option rmError) :=
  match entries with
  | [] => Some (fs, None)
  | (abs, k) :: rest =>
      match k with
      | RegularFile =>
          match os_Remove fs abs with
          | (fs', None) => entriesLoop rec keepDirs checkDirs rest fs'
          | (fs', Some e) => Some (fs', Some (RemoveError abs e))
          end
      | Directory =>
          if decide (abs ∈ keepDirs) then
            entriesLoop rec keepDirs checkDirs rest fs
          else if decide (abs ∈ checkDirs) then
            match rec fs abs with
            | None => None
            | Some (fs', Some err) => Some (fs', Some err)
            | Some (fs', None) => entriesLoop rec keepDirs checkDirs rest fs'
            end
          else entriesLoop rec keepDirs checkDirs rest (os_RemoveAll fs abs)
      end
  end.

Fixpoint removeWithExceptions (fuel : nat) (fs : FS) (p : path)
    (keepDirs checkDirs : gset path) : option (FS * option rmError) :=
  match fuel with
  | O => None
  | S fuel' =>
      match ReadDir fs p with
      | None => Some (fs, Some (ReadDirError p))
      | Some entries =>
          entriesLoop
            (fun fs' abs => removeWithExceptions fuel' fs' abs keepDirs checkDirs)
            keepDirs checkDirs entries fs
      end
  end.

(** [removeAllExcept]: the file system afterwards and the error returned;
    [None] when the fuel runs out. *)
Definition removeAllExcept (fuel : nat) (fs : FS) (p : path)
    (exceptions : list string) : option (FS * option rmError) :=
  match exceptionsLoop fuel p exceptions ∅ ∅ with
  | None => None
  | Some (keepDirs, checkDirs) =>
      removeWithExceptions fuel fs p keepDirs checkDirs
  end.

(** *** rmEmptyDirs *)

(** [strings.Join]. *)
Fixpoint strings_Join (a : list string) (sep : string) : string :=
  match a with
  | [] => ""
  | [e] => e
  | e :: rest => e +:+ sep +:+ strings_Join rest sep
  end.

(** [strings.Contains]. *)
Definition strings_Contains (s substr : string) : bool :=
  bool_decide
    (is_Some (Index (list_ascii_of_string s) (list_ascii_of_string substr))).

(** A path that begins with the separator. *)
Definition rooted (s : string) : bool :=
  match s with
  | String c _ => bool_decide (c = "/"%char)
  | EmptyString => false
  end.

(** [filepath.Clean] on a path that is not rooted, one element at a time:
    as [cleanStep], but a [..] that no name precedes stays. *)
Definition cleanRelStep (st : list string) (elem : string) : list string :=
  if decide (elem = "") then st
  else if decide (elem = ".") then st
  else if decide (elem = "..") then
    match last st with
    | None => [".."]
    | Some top => if decide (top = "..") then st ++ [".."] else removelast st
    end
  else st ++ [elem].

(** A rooted path of the given elements, as a string. *)
Definition render (p : path) : string := "/" +:+ strings_Join p "/".

(** [filepath.Clean]: the shortest path name equivalent to [s] by purely
    lexical processing; the root is [/], the empty path is [.]. *)
Definition filepath_Clean (s : string) : string :=
  let elems := strings_Split s "/" in
  if rooted s then render (foldl cleanStep [] elems)
  else match foldl cleanRelStep [] elems with
       | [] => "."
       | st => strings_Join st "/"
       end.

(** The part of a path up to and including its last separator:
    [i := len(path) - 1; for i >= 0 && path[i] != '/' { i-- }] and then
    [path[:i+1]]. *)
Fixpoint dirPart (s : list ascii) : list ascii :=
  match s with
  | [] => []
  | c :: s' =>
      match dirPart s' with
      | [] => if decide (c = "/"%char) then [c] else []
      | d => c :: d
      end
  end.

(** [filepath.Dir]: all but the last element of the path, cleaned. *)
Definition filepath_Dir (s : string) : string :=
  filepath_Clean (string_of_list_ascii (dirPart (list_ascii_of_string s))).

(** The errors of [os.Remove]: those of the file system above, a regular
    file where a directory is needed, a name whose last element is a dot,
    and what else the system may answer (its text is given). *)
Inductive syserror : Type :=
  | Errno (e : errno)
  | ENOTDIR
  | EINVAL
  | Refused (text : string).

#[global] Instance syserror_eq_dec : EqDecision syserror.
Proof. solve_decision. Defined.

Definition syserror_text (e : syserror) : string :=
  match e with
  | Errno ENOENT => "no such file or directory"
  | Errno ENOTEMPTY => "directory not empty"
  | Errno EBUSY => "device or resource busy"
  | ENOTDIR => "not a directory"
  | EINVAL => "invalid argument"
  | Refused text => text
  end.

(** [os.IsNotExist]. *)
Definition IsNotExist (e : syserror) : bool := bool_decide (e = Errno ENOENT).

(** The text of the [os.PathError] that [os.Remove(name)] returns. *)
Definition PathError_Error (name : string) (e : syserror) : string :=
  "remove " +:+ name +:+ ": " +:+ syserror_text e.

(** The last element of a name that is not empty. *)
Definition lastComponent (elems : list string) : string :=
  default "" (last (filter (fun e => e <> "") elems)).

Section RemoveByName.
(** The working directory of the process, from which a name that is not
    rooted is read. *)
Variable wd : path.
(** What the system refuses for reasons outside the model (permissions,
    say), with the text of its error. *)
Variable refuses : FS -> string -> option string.

(** The file a name stands for: the system goes from directory to
    directory, and each one on the way has to be there.  (There are no
    symbolic links.) *)
Fixpoint lookupName (fs : FS) (cur : path) (elems : list string)
    : path + syserror :=
  match elems with
  | [] => inl cur
  | e :: rest =>
      match fs !! cur with
      | Some Directory => lookupName fs (cleanStep cur e) rest
      | Some RegularFile => inr ENOTDIR
      | None => inr (Errno ENOENT)
      end
  end.

(** [os.Remove(name)]. *)
Definition os_RemoveName (fs : FS) (name : string) : FS * option syserror :=
  if decide (name = "") then (fs, Some (Errno ENOENT))
  else
    match refuses fs name with
    | Some text => (fs, Some (Refused text))
    | None =>
        let elems := strings_Split name "/" in
        match lookupName fs (if rooted name then [] else wd) elems with
        | inr e => (fs, Some e)
        | inl p =>
            if decide (lastComponent elems = ".") then (fs, Some EINVAL)
            else if decide (lastComponent elems = "..")
                 then (fs, Some (Errno ENOTEMPTY))
            else let '(fs', e) := os_Remove fs p in (fs', Errno <$> e)
        end
    end.

(** [for ; parent != baseDir; parent = filepath.Dir(current) { ... }]:
    [parent] is a cleaned path, [baseDir] the string that was passed. *)
Fixpoint parentsLoop (fuel : nat) (fs : FS) (current baseDir : string)
    : option FS :=
  let parent := filepath_Dir current in
  if decide (parent = baseDir) then Some fs
  else match fuel with
       | O => None
       | S fuel' =>
           match os_RemoveName fs parent with
           | (_, Some _) => Some fs
           | (fs', None) => parentsLoop fuel' fs' parent baseDir
           end
       end.

(** [rmEmptyDirs]: the file system afterwards and the error returned
    ([None] for [nil]), which is that of [os.Remove(leafDir)].  The rounds
    of the loop are bounded by the length of [leafDir]. *)
Definition rmEmptyDirs (fs : FS) (leafDir baseDir : string)
    : option (FS * option (string * syserror)) :=
  let '(fs', err) := os_RemoveName fs leafDir in
  let parents :=
    fs'' ← parentsLoop (S (S (String.length leafDir))) fs' leafDir baseDir;
    Some (fs'', None) in
  match err with
  | None => parents
  | Some e =>
      if IsNotExist e then parents
      else if strings_Contains (PathError_Error leafDir e) "directory not empty"
           then Some (fs, None)
      else Some (fs, Some (leafDir, e))
  end.
End RemoveByName.

(** *** mkHashedDir *)

Definition AppName : string := "jobqueue".
Definition mkHashedLevels : nat := 4.

(** [explode(s, n)], which is [strings.SplitN(s, "", n)] for [n > 0], on
    ASCII text, where every byte is a UTF-8 sequence of its own: the first
    [n - 1] characters one by one, then the rest; all of them one by one
    when there are no more than [n]. *)
Fixpoint explode_loop (k : nat) (s : list ascii) : list string * list ascii :=
  match k, s with
  | S k', c :: s' =>
      let '(a, rest) := explode_loop k' s' in (String c EmptyString :: a, rest)
  | _, _ => ([], s)
  end.

Definition explode (s : string) (n : nat) : list string :=
  let l := String.length s in
  let n := if (l <? n)%nat then l else n in
  match n with
  | O => []
  | S k =>
      let '(a, rest) := explode_loop k (list_ascii_of_string s) in
      a ++ [string_of_list_ascii rest]
  end.

(** [filepath.Join(elem...)] with a clean absolute first element. *)
Definition filepath_JoinAll (p : path) (elems : list string) : path :=
  foldl filepath_Join p elems.

(** The directory and the prefix of the leaf that [mkHashedDir] computes
    from [tohash]; [None] is the panic of [dirs[0:mkHashedLevels-1]] or
    [dirs[mkHashedLevels-1]] on fewer than four pieces. *)
Definition hashedDir (baseDir : path) (tohash : string)
    : option (path * string) :=
  let dirs := explode tohash mkHashedLevels in
  if (length dirs <? mkHashedLevels)%nat then None
  else
    let leaf := nth (mkHashedLevels - 1) dirs "" in
    let dirs := take (mkHashedLevels - 1) dirs in
    Some (filepath_JoinAll baseDir ([AppName +:+ "_cwd"] ++ dirs), leaf).

(** The calls to the operating system, and its answers: an error has a
    message, and is or is not one that [os.IsNotExist] accepts. *)
Inductive syscall : Type :=
  | MkdirAll (dir : path)
  | OpenFile (name : path)
  | CloseFile (name : path)
  | TempDir (dir : path) (pfx : string)
  | Mkdir (dir : path)
  | Remove (name : path)
  | Open (name : path)
  | Create (name : path)
  | Copy (dst src : path).

Inductive reply : Type :=
  | Fine (name : path)
  | Failed (notExist : bool) (msg : string).

(** What went on so far, the latest call first. *)
Abbreviation history := (list (syscall * reply)).

(** How a run ends: with a result, in a panic, or not within the fuel. *)
Inductive run (A : Type) : Type :=
  | Done (a : A)
  | Panic
  | OutOfFuel.
Arguments Done {A} a.
Arguments Panic {A}.
Arguments OutOfFuel {A}.

Section MkHashedDir.
(** The operating system: its answer to a call, given what went on. *)
Variable os : history -> syscall -> reply.

Definition call (h : history) (c : syscall) : history * reply :=
  let r := os h c in ((c, r) :: h, r).

(** The loop that makes the directory and drops the hold file in it: the
    history and [err] when it is left. *)
Fixpoint holdLoop (fuel : nat) (dir holdFile : path) (tries : Z)
    (h : history) : run (history * option string) :=
  match fuel with
  | O => OutOfFuel
  | S fuel' =>
      let '(h, r) := call h (MkdirAll dir) in
      match r with
      | Failed _ err =>
          let tries := tries + 1 in
          if tries <=? 3 then holdLoop fuel' dir holdFile tries h
          else Done (h, Some err)
      | Fine _ =>
          let tries := 0 in
          let '(h, r) := call h (OpenFile holdFile) in
          match r with
          | Failed _ err =>
              let tries := tries + 1 in
              if tries <=? 3 then holdLoop fuel' dir holdFile tries h
              else Done (h, Some err)
          | Fine _ =>
              let '(h, r) := call h (CloseFile holdFile) in
              match r with
              | Failed _ err => Done (h, Some err)
              | Fine _ => Done (h, None)
              end
          end
      end
  end.

(** The results [cwd], [tmpDir] and [err]; an empty string is [None]. *)
Record Results : Type := {
  cwd : option path;
  tmpDir : option path;
  err : option string
}.

(** The body of [mkHashedDir] behind the [defer] statement. *)
Definition mkHashedDir_body (fuel : nat) (dir holdFile : path) (leaf : string)
    (h : history) : run (history * Results) :=
  match holdLoop fuel dir holdFile 0 h with
  | OutOfFuel => OutOfFuel
  | Panic => Panic
  | Done (h, Some e) =>
      Done (h, {| cwd := None; tmpDir := None; err := Some e |})
  | Done (h, None) =>
      let '(h, r) := call h (TempDir dir leaf) in
      match r with
      | Failed _ e => Done (h, {| cwd := None; tmpDir := None; err := Some e |})
      | Fine dir =>
          let cwd := dir ++ ["cwd"] in
          let '(h, r) := call h (Mkdir cwd) in
          match r with
          | Failed _ e =>
              Done (h, {| cwd := Some cwd; tmpDir := None; err := Some e |})
          | Fine _ =>
              let tmpDir := dir ++ ["tmp"] in
              let '(h, r) := call h (Mkdir tmpDir) in
              Done (h, {| cwd := Some cwd; tmpDir := Some tmpDir;
                          err := match r with
                                 | Failed _ e => Some e
                                 | Fine _ => None
                                 end |})
          end
      end
  end.

(** The deferred function: it removes the hold file and reports a failure
    to do so, but for the file not being there, in the result [err]. *)
Definition removeHold (holdFile : path) (st : history * Results)
    : history * Results :=
  let '(h, res) := st in
  let '(h, r) := call h (Remove holdFile) in
  match r with
  | Failed false errr =>
      (h, {| cwd := cwd res; tmpDir := tmpDir res;
             err := match err res with
                    | None => Some errr
                    | Some e =>
                        Some (e +:+ " (and removing the hold file failed: "
                                +:+ errr +:+ ")")
                    end |})
  | _ => (h, res)
  end.

(** [mkHashedDir], started after the history [h]. *)
Definition mkHashedDir (fuel : nat) (baseDir : path) (tohash : string)
    (h : history) : run (history * Results) :=
  match hashedDir baseDir tohash with
  | None => Panic
  | Some (dir, leaf) =>
      let holdFile := filepath_Join dir ".hold" in
      match mkHashedDir_body fuel dir holdFile leaf h with
      | Done st => Done (removeHold holdFile st)
      | Panic => Panic
      | OutOfFuel => OutOfFuel
      end
  end.
End MkHashedDir.

(** *** copyFile *)

Section CopyFile.
Variable os : history -> syscall -> reply.

(** One of the two deferred functions: it closes the file and, when that
    fails, puts the error into the variable [err]. *)
Definition closeDeferred (what : string) (name : path)
    (st : history * option string) : history * option string :=
  let '(h, err) := st in
  let '(h, r) := call os h (CloseFile name) in
  match r with
  | Failed _ errc =>
      (h, match err with
          | None => Some errc
          | Some e =>
              Some (e +:+ " (and closing " +:+ what +:+ " failed: "
                      +:+ errc +:+ ")")
          end)
  | Fine _ => (h, err)
  end.

(** [copyFile]: the history and the error returned.  The result of
    [copyFile] has no name: a return statement copies [err] into it before
    the deferred functions run, so what these assign to the variable [err]
    afterwards does not reach the caller. *)
Definition copyFile (source dest : path) (h : history)
    : history * option string :=
  let '(h, r) := call os h (Open source) in
  match r with
  | Failed _ e => (h, Some e)
  | Fine _ =>
      let '(h, r) := call os h (Create dest) in
      match r with
      | Failed _ e =>
          let result := Some e in
          let '(h, _) := closeDeferred "source" source (h, Some e) in
          (h, result)
      | Fine _ =>
          let '(h, r) := call os h (Copy dest source) in
          let err := match r with Failed _ e => Some e | Fine _ => None end in
          let result := err in
          let '(h, err) := closeDeferred "dest" dest (h, err) in
          let '(h, _) := closeDeferred "source" source (h, err) in
          (h, result)
      end
  end.
End CopyFile.

(** ** Definitions for the further properties *)

(** The warning of [Run] when the manager runs on another host. *)
Definition pwdWarningText : string :=
  "command working directories defaulting to /tmp since the manager is running remotely".

(** The flags as [Run] uses them: the report group defaulted. *)
Definition withRepGroup (fl : Flags) : Flags :=
  if decide (cmdRepGroup fl = "") then
    {| reqGroup := reqGroup fl; cmdTime := cmdTime fl; cmdMem := cmdMem fl;
       cmdCPUs := cmdCPUs fl; cmdOvr := cmdOvr fl; cmdPri := cmdPri fl;
       cmdRet := cmdRet fl; cmdFile := cmdFile fl;
       cmdRepGroup := "manually_added"; cmdDepGroups := cmdDepGroups fl;
       cmdDeps := cmdDeps fl; cmdCwd := cmdCwd fl |}
  else fl.

Definition startState (pw : Z) : LoopState :=
  {| jobs := []; pwdWarning := pw; defaultedRepG := false; warnings := [] |}.

(** The value of a numeric column that is set and not a number in the range. *)
Definition badNumber (cols : list string) (i : nat) (lo hi : Z) : Prop :=
  exists c, column cols i = Some c /\
            match Atoi c with
            | None => True
            | Some v => v < lo \/ hi < v
            end.

(** A line that takes the default working directory. *)
Definition needsPwd (line : string) : bool :=
  negb (skippedLine line)
  && bool_decide (column (strings_Split line TAB) 1 = None).

(** The job the loop makes of a line with a command, as far as its
    command, CPUs and retries go. *)
Definition jobOfLine (fl : Flags) (df : Defaults) (line : string) (job : Job)
    : Prop :=
  let cols := strings_Split line TAB in
  Cmd job = firstColumn line /\
  CPUs job = match column cols 5 with
             | None => cpusDefault df
             | Some c => default 0 (Atoi c)
             end /\
  Retries job = uint8 (match column cols 8 with
                       | None => cmdRet fl
                       | Some c => default 0 (Atoi c)
                       end).


(** The arguments of the calls of [Write] that [stdFilter] makes for one
    chunk. *)
Definition chunkWrites (p : list byte) : list (list byte) :=
  let lines := pieces x0d p in
  [nth 0 lines []]
  ++ (if (2 <? length lines)%nat then
        [lf] ++ (if (3 <? length lines)%nat then [ellipses] else [])
        ++ [nth (length lines - 2) lines []; lf]
      else []).

(** The value of a hexadecimal digit: its place among the digits. *)
Fixpoint indexOf (c : ascii) (l : list ascii) : Z :=
  match l with
  | [] => 0
  | x :: l' => if decide (x = c) then 0 else 1 + indexOf c l'
  end.

Definition hexVal (c : ascii) : Z := indexOf c ldigits.

(** The number a string of hexadecimal digits stands for. *)
Fixpoint hexValue (l : list ascii) : Z :=
  match l with
  | [] => 0
  | c :: l' => hexVal c * 16 ^ len l' + hexValue l'
  end.

(** What a run of removals may do to a path [q]: leave it as it is, or
    remove it, and then [q] was there, is not the root, lies on the way from
    [leafDir] up, and has no entry left. *)
Definition removedOrKept (fs fs' : FS) (leafDir : path) (q : path) : Prop :=
  fs' !! q = fs !! q \/
  (fs' !! q = None /\ is_Some (fs !! q) /\ q <> [] /\
   (exists k, leafDir = q ++ k) /\ isEmpty fs' q = true).

(** Every path that exists lies in a directory that exists. *)
Definition closed (fs : FS) : Prop :=
  forall q, is_Some (fs !! q) -> is_Some (fs !! Dir q).

(** [q] lies strictly below [p]. *)
Definition strictlyBelow (p q : path) : Prop := p `prefix_of` q /\ p <> q.

(** Every path that exists, but the root, lies in a directory. *)
Definition wellFormed (fs : FS) : Prop :=
  forall q, q <> [] -> is_Some (fs !! q) -> fs !! Dir q = Some Directory.

(** The exception [dir] names a place strictly below [p]. *)
Definition leadsBelow (p : path) (dir : string) : Prop :=
  strictlyBelow p (filepath_Join p dir).

Section Kept.
Variable p0 : path.
Variables keepDirs checkDirs : gset path.

(** [q] lies in a directory that is kept. *)
Definition protected (fs : FS) (q : path) : Prop :=
  exists k, k ∈ keepDirs /\ strictlyBelow p0 k /\ k `prefix_of` q /\
            fs !! k = Some Directory.

(** What a walk from [p] may do: remove what lies strictly below [p] and
    is not in a directory that is kept. *)
Definition touches (fs fs' : FS) (p : path) : Prop :=
  forall q, fs' !! q = fs !! q \/
            (fs' !! q = None /\ strictlyBelow p q /\ ~ protected fs q).

(** [p] does not lie in a directory to keep. *)
Definition unprotected (p : path) : Prop :=
  forall k, k ∈ keepDirs -> strictlyBelow p0 k -> ~ k `prefix_of` p.

(** What is kept: what lies in a directory to keep, and the directories
    on the way to one. *)
Definition kept (fs : FS) (q : path) : Prop :=
  protected fs q \/ (q ∈ checkDirs /\ fs !! q = Some Directory).

(** [fs'] is [fs] with the region cleared of what is not kept. *)
Definition cleared (fs fs' : FS) (region : path -> Prop) : Prop :=
  forall q,
    (~ region q -> fs' !! q = fs !! q) /\
    (fs' !! q = fs !! q \/ fs' !! q = None) /\
    (kept fs q -> fs' !! q = fs !! q) /\
    (region q -> is_Some (fs' !! q) -> kept fs q).
End Kept.

(** What [removeAllExcept] is to leave below [p]: what lies in a directory
    named by an exception, and the directories on the way to the place an
    exception names. *)
Definition spared (fs : FS) (p : path) (exceptions : list string) (q : path)
    : Prop :=
  (exists dir, dir ∈ exceptions /\ filepath_Join p dir `prefix_of` q /\
               fs !! filepath_Join p dir = Some Directory) \/
  (fs !! q = Some Directory /\
   exists dir, dir ∈ exceptions /\ strictlyBelow p q /\
               strictlyBelow q (filepath_Join p dir)).

(** A small file system to run [removeAllExcept] on. *)
Definition workTree : FS :=
  list_to_map [([], Directory); (["w"], Directory); (["w"; "f"], RegularFile);
               (["w"; "a"], Directory); (["w"; "a"; "x"], RegularFile);
               (["w"; "a"; "b"], Directory); (["w"; "a"; "b"; "y"], RegularFile);
               (["w"; "c"], Directory); (["w"; "c"; "z"], RegularFile);
               (["o"], Directory); (["o"; "p"], RegularFile)].

(** A call that is no [os.Remove]. *)
Definition noRemove (c : syscall * reply) : Prop :=
  match c.1 with Remove _ => False | _ => True end.

(** A failed attempt to open a file. *)
Definition failedOpen (c : syscall * reply) : Prop :=
  match c with (OpenFile _, Failed _ _) => True | _ => False end.

(** Operating systems to run [mkHashedDir] on: one that does all it is
    asked, one in which no file can be created, one in which nothing can. *)
Definition willingOS (h : history) (c : syscall) : reply :=
  match c with
  | TempDir d pfx => Fine (d ++ [pfx +:+ "123456789"])
  | _ => Fine []
  end.

Definition readOnlyOS (h : history) (c : syscall) : reply :=
  match c with
  | OpenFile _ => Failed false "permission denied"
  | _ => Fine []
  end.

Definition fullOS (h : history) (c : syscall) : reply :=
  Failed false "no space left on device".

(** A name of a file: not empty, neither [.] nor [..], without separator. *)
Definition properName (e : string) : Prop :=
  e <> "" /\ e <> "." /\ e <> ".." /\ "/"%char ∉ list_ascii_of_string e.

#[global] Instance properName_dec e : Decision (properName e).
Proof. unfold properName. apply _. Defined.

(** A system that refuses nothing. *)
Definition refusesNothing (fs : FS) (name : string) : option string := None.



(** ** Checks of the model on concrete inputs *)

Example split_tabs :
  strings_Split ("a" +:+ TAB +:+ TAB +:+ "b") TAB = ["a"; ""; "b"].
Proof. reflexivity. Qed.

Example split_empty : strings_Split "" "," = [""].
Proof. reflexivity. Qed.

Example split_two_char_sep :
  strings_Split ("x" +:+ BACKSLASH_T +:+ "y" +:+ TAB +:+ "z") BACKSLASH_T
  = ["x"; "y" +:+ TAB +:+ "z"].
Proof. reflexivity. Qed.

Example atoi_examples :
  Atoi "300" = Some 300 /\ Atoi "-1" = Some (-1) /\ Atoi "+07" = Some 7 /\
  Atoi "" = None /\ Atoi "-" = None /\ Atoi "1x" = None /\
  Atoi "9223372036854775808" = None /\ FormatInt10 42 = "42".
Proof. repeat split; reflexivity. Qed.

Example fmt_016x_examples :
  string_of_list_ascii (fmt_016x 0) = "0000000000000000" /\
  string_of_list_ascii (fmt_016x 255) = "00000000000000ff" /\
  string_of_list_ascii (fmt_016x (2 ^ 64 - 1)) = "ffffffffffffffff" /\
  string_of_list_ascii (fmt_016x 81985529216486895) = "0123456789abcdef".
Proof. repeat split; reflexivity. Qed.

Example saver_small :
  (Writes (newSaver 2) (list_byte_of_string <$> ["ab"; "c"; "d"])) ≫= Bytes
  = Some (list_byte_of_string "abcd").
Proof. reflexivity. Qed.

Example saver_truncates :
  (Writes (newSaver 2) (list_byte_of_string <$> ["abc"; "defgh"; "i"])) ≫= Bytes
  = Some (list_byte_of_string ("ab" +:+ LF +:+ "... omitting 5 bytes ..." +:+ LF +:+ "hi")).
Proof. reflexivity. Qed.

Example envOverride_example :
  envOverride rangeSorted ["A=1"; "B=2"; "C=3"] ["B=x"; "D=4"; "B=y"]
  = ["A=1"; "B=y"; "C=3"; "D=4"].
Proof. vm_compute. reflexivity. Qed.

Example filepath_Clean_examples :
  filepath_Clean "" = "." /\ filepath_Clean "/" = "/" /\
  filepath_Clean "a//b/./c/.." = "a/b" /\ filepath_Clean "/../a/" = "/a" /\
  filepath_Clean "../a/../.." = "../.." /\ filepath_Clean "a/.." = ".".
Proof. repeat split; reflexivity. Qed.

Example filepath_Dir_examples :
  filepath_Dir "/tmp/base/a" = "/tmp/base" /\
  filepath_Dir "/tmp/base/" = "/tmp/base" /\
  filepath_Dir "/tmp" = "/" /\ filepath_Dir "/" = "/" /\
  filepath_Dir "a/b" = "a" /\ filepath_Dir "a" = "." /\ filepath_Dir "" = ".".
Proof. repeat split; reflexivity. Qed.

Example rmEmptyDirs_example :
  rmEmptyDirs [] refusesNothing
    (mkfs [[]; ["base"]; ["base"; "a"]; ["base"; "a"; "b"]; ["base"; "c"]])
    "/base/a/b" "/base"
  = Some (mkfs [[]; ["base"]; ["base"; "c"]], None).
Proof. vm_compute. reflexivity. Qed.

Example rmEmptyDirs_relative :
  rmEmptyDirs ["base"] refusesNothing
    (mkfs [[]; ["base"]; ["base"; "a"]; ["base"; "a"; "b"]; ["base"; "c"]])
    "a/b" "/base"
  = Some (mkfs [[]; ["base"]; ["base"; "c"]], None).
Proof. vm_compute. reflexivity. Qed.

(** ** The dependency columns *)

Lemma pair_ind {A : Type} (P : list A -> Prop) :
  P [] -> (forall x, P [x]) -> (forall x y l, P l -> P (x :: y :: l)) ->
  forall l, P l.
Proof.
  intros Hnil Hone Hcons l.
  assert (Hboth : P l /\ forall x, P (x :: l)).
  { induction l as [|y l [IH1 IH2]]; split; auto. }
  apply Hboth.
Qed.

(** The loop of [colsToDeps] from the index [length done] on: the pairs
    of the columns left, or the panic when their number is odd. *)
Lemma colsToDeps_loop_pairs (rest : list string) :
  forall (done : list string) (fuel : nat) (deps : list Dependency),
    (length rest <= 2 * fuel)%nat ->
    colsToDeps_loop fuel (done ++ rest) (length done) deps
    = if Nat.even (length rest) then Some (deps ++ pairDeps rest) else None.
Proof.
  induction rest as [|x|x y rest IH] using pair_ind; intros done fuel deps Hfuel.
  - destruct fuel; simpl; rewrite !app_nil_r, Nat.ltb_irrefl; reflexivity.
  - destruct fuel as [|fuel]; [simpl in Hfuel; lia|].
    simpl colsToDeps_loop.
    replace (length done <? length (done ++ [x]))%nat with true
      by (symmetry; apply Nat.ltb_lt; rewrite length_app; simpl; lia).
    rewrite list_lookup_middle by reflexivity.
    rewrite lookup_ge_None_2 by (rewrite length_app; simpl; lia).
    reflexivity.
  - destruct fuel as [|fuel]; [simpl in Hfuel; lia|].
    simpl colsToDeps_loop.
    replace (length done <? length (done ++ x :: y :: rest))%nat with true
      by (symmetry; apply Nat.ltb_lt; rewrite length_app; simpl; lia).
    rewrite list_lookup_middle by reflexivity.
    replace (done ++ x :: y :: rest) with ((done ++ [x]) ++ y :: rest)
      by (rewrite <- app_assoc; reflexivity).
    rewrite (list_lookup_middle (done ++ [x]) rest y (length done + 1))
      by (rewrite length_app; simpl; lia).
    replace ((done ++ [x]) ++ y :: rest) with ((done ++ [x; y]) ++ rest)
      by (rewrite <- !app_assoc; reflexivity).
    replace (length done + 2)%nat with (length (done ++ [x; y]))
      by (rewrite length_app; simpl; lia).
    simpl in Hfuel.
    change (Nat.even (length (x :: y :: rest))) with (Nat.even (length rest)).
    destruct (decide (y = "groups")) as [Hy|Hy].
    + rewrite IH by lia. simpl pairDeps. rewrite decide_True by exact Hy.
      destruct (Nat.even (length rest)); [rewrite app_assoc|]; reflexivity.
    + rewrite IH by lia. simpl pairDeps. rewrite decide_False by exact Hy.
      destruct (Nat.even (length rest)); [rewrite app_assoc|]; reflexivity.
Qed.

Lemma colsToDeps_pairs (cols : list string) :
  colsToDeps cols
  = if Nat.even (length cols) then Some (pairDeps cols) else None.
Proof.
  unfold colsToDeps.
  pose proof (colsToDeps_loop_pairs cols [] (length cols) []) as Hloop.
  simpl in Hloop. rewrite Hloop by lia. reflexivity.
Qed.

Lemma even_mod2 (n : nat) : (Z.of_nat n mod 2 =? 0) = Nat.even n.
Proof.
  destruct (Nat.even n) eqn:E.
  - apply Z.eqb_eq. apply Nat.even_spec in E. destruct E as [k ->].
    rewrite Nat2Z.inj_mul. rewrite Z.mul_comm. apply Z_mod_mult.
  - apply Z.eqb_neq. intros Hm.
    assert (Ho : Nat.odd n = true) by (rewrite <- Nat.negb_even, E; reflexivity).
    apply Nat.odd_spec in Ho. destruct Ho as [k ->].
    rewrite Nat2Z.inj_add, Nat2Z.inj_mul in Hm.
    rewrite Z.add_comm, Z.mul_comm, Z_mod_plus_full in Hm. discriminate.
Qed.

Lemma depsOfCols_pairs (msg : string) (cols : list string) :
  depsOfCols msg cols
  = if Nat.even (length cols) then Ok (pairDeps cols) else Die msg.
Proof.
  unfold depsOfCols. rewrite even_mod2, colsToDeps_pairs.
  destruct (Nat.even (length cols)); reflexivity.
Qed.

(** C4: the dependency columns of the flag [--deps] and of columns 12
    onward of a line are rejected when their number is odd; otherwise every
    pair of columns whose second element is the word [groups] gives one
    dependency-group dependency per comma-separated name of the first, and
    every other pair gives the command dependency on that command and
    working directory ([pairDeps]). *)
Theorem dependency_columns :
  (forall cmdDeps : string,
     cmdDeps <> "" ->
     let cols := strings_Split cmdDeps BACKSLASH_T in
     flagDeps cmdDeps
     = if Nat.even (length cols) then Ok (pairDeps cols)
       else Die "--deps must have an even number of tab-separated columns") /\
  (forall (defaults : list Dependency) (cols : list string),
     column cols 11 <> None ->
     let depCols := drop 11 cols in
     lineDeps defaults cols
     = if Nat.even (length depCols) then Ok (pairDeps depCols)
       else Die "there must be an even number of dependency columns").
Proof.
  split.
  - intros cmdDeps Hne cols. unfold flagDeps.
    rewrite decide_False by exact Hne. apply depsOfCols_pairs.
  - intros defaults cols Hcol depCols. unfold lineDeps.
    destruct (column cols 11); [|congruence]. apply depsOfCols_pairs.
Qed.

Lemma dependency_columns_witness :
  flagDeps ("a,b" +:+ BACKSLASH_T +:+ "groups")
  = Ok [NewDepGroupDependency "a"; NewDepGroupDependency "b"] /\
  lineDeps [] ["c"; ""; ""; ""; ""; ""; ""; ""; ""; ""; ""; "make"; "/src"]
  = Ok [NewCmdDependency "make" "/src"].
Proof.
  destruct dependency_columns as [Hflag Hline]. split.
  - apply (Hflag ("a,b" +:+ BACKSLASH_T +:+ "groups")). discriminate.
  - apply (Hline [] ["c"; ""; ""; ""; ""; ""; ""; ""; ""; ""; ""; "make"; "/src"]).
    discriminate.
Defined.

(** ** Splitting at a separator of one element *)

Section Pieces.
Context {A : Type} `{EqDecision A}.
Implicit Types (c : A) (s : list A).

Lemma pieces_cons c x s :
  pieces c (x :: s)
  = if decide (x = c) then [] :: pieces c s
    else (x :: hd [] (pieces c s)) :: tl (pieces c s).
Proof.
  simpl. destruct (decide (x = c)); [reflexivity|].
  assert (Hne : pieces c s <> []).
  { destruct s as [|y s]; simpl; [discriminate|].
    destruct (decide (y = c)); [discriminate|].
    destruct (pieces c s); discriminate. }
  destruct (pieces c s); [contradiction|reflexivity].
Qed.

Lemma pieces_notin c s : c ∉ s -> pieces c s = [s].
Proof.
  induction s as [|x s IH]; intros Hc; [reflexivity|].
  apply not_elem_of_cons in Hc as [Hx Hs].
  rewrite pieces_cons, decide_False by congruence.
  rewrite IH by exact Hs. reflexivity.
Qed.

Lemma pieces_app c (a b : list A) :
  c ∉ a -> pieces c (a ++ c :: b) = a :: pieces c b.
Proof.
  induction a as [|x a IH]; intros Hc.
  - simpl. rewrite decide_True by reflexivity. reflexivity.
  - apply not_elem_of_cons in Hc as [Hx Ha].
    change ((x :: a) ++ c :: b) with (x :: (a ++ c :: b)).
    rewrite pieces_cons, decide_False by congruence.
    rewrite IH by exact Ha. reflexivity.
Qed.

(** The pieces of two texts joined by a separator: those of the first,
    then those of the second. *)
Lemma pieces_join c (a b : list A) :
  pieces c (a ++ c :: b) = pieces c a ++ pieces c b.
Proof.
  induction a as [|x a IH].
  - simpl. rewrite decide_True by reflexivity. reflexivity.
  - change ((x :: a) ++ c :: b) with (x :: (a ++ c :: b)).
    rewrite !pieces_cons, IH.
    destruct (decide (x = c)); [reflexivity|].
    assert (Hne : pieces c a <> []).
    { destruct a as [|y a']; [discriminate|]. rewrite pieces_cons.
      destruct (decide (y = c)); discriminate. }
    destruct (pieces c a); [contradiction|reflexivity].
Qed.

Lemma Index_single c s :
  Index s [c]
  = match s with
    | [] => None
    | x :: s' => if decide (c = x) then Some 0%nat else S <$> Index s' [c]
    end.
Proof.
  destruct s as [|x s']; [reflexivity|].
  assert (Hnil : HasPrefix s' [] = true) by (destruct s'; reflexivity).
  simpl. rewrite Hnil. destruct (decide (c = x)) as [->|Hx].
  - rewrite bool_decide_true by reflexivity. reflexivity.
  - rewrite bool_decide_false by exact Hx. reflexivity.
Qed.

Lemma Index_single_None c s : Index s [c] = None -> c ∉ s.
Proof.
  induction s as [|x s IH]; intros Hi; [apply not_elem_of_nil|].
  rewrite Index_single in Hi. destruct (decide (c = x)); [discriminate|].
  destruct (Index s [c]) eqn:E; [discriminate|].
  apply not_elem_of_cons. split; [assumption|]. apply IH. reflexivity.
Qed.

Lemma Index_single_Some c s m :
  Index s [c] = Some m ->
  exists a b, s = a ++ c :: b /\ (c ∉ a) /\ length a = m.
Proof.
  revert m. induction s as [|x s IH]; intros m Hi; [discriminate|].
  rewrite Index_single in Hi. destruct (decide (c = x)) as [->|Hx].
  - injection Hi as <-. exists [], s. split; [reflexivity|].
    split; [apply not_elem_of_nil|reflexivity].
  - destruct (Index s [c]) as [m'|] eqn:E; [|discriminate].
    injection Hi as <-. destruct (IH m' eq_refl) as (a & b & -> & Ha & Hl).
    exists (x :: a), b. split; [reflexivity|].
    split; [apply not_elem_of_cons; auto|simpl; congruence].
Qed.

(** With a separator of one element, the loop of [genSplit] cuts at every
    occurrence of it, given the fuel. *)
Lemma genSplit_loop_pieces c (fuel : nat) :
  forall s, (length s <= fuel)%nat -> genSplit_loop fuel s [c] = pieces c s.
Proof.
  induction fuel as [|fuel IH]; intros s Hlen.
  - destruct s; [reflexivity|simpl in Hlen; lia].
  - simpl. destruct (Index s [c]) as [m|] eqn:E.
    + apply Index_single_Some in E as (a & b & -> & Ha & <-).
      rewrite pieces_app by exact Ha.
      rewrite take_app_length.
      assert (Hdrop : drop (length a + 1) (a ++ c :: b) = b).
      { rewrite drop_app_add. reflexivity. }
      rewrite Hdrop. f_equal. apply IH.
      rewrite !length_app in Hlen. simpl in Hlen. lia.
    + apply Index_single_None in E. rewrite pieces_notin by exact E.
      reflexivity.
Qed.

Lemma genSplit_pieces c s : genSplit s [c] = pieces c s.
Proof. apply genSplit_loop_pieces. reflexivity. Qed.
End Pieces.

(** ** Lines without a command *)

Lemma strings_Split_TAB (line : string) :
  strings_Split line TAB
  = string_of_list_ascii <$> pieces (ascii_of_nat 9) (list_ascii_of_string line).
Proof.
  unfold strings_Split.
  change (list_ascii_of_string TAB) with [ascii_of_nat 9].
  rewrite genSplit_pieces. reflexivity.
Qed.

Lemma pieces_firstColumn (line : string) :
  hd [] (pieces (ascii_of_nat 9) (list_ascii_of_string line))
  = list_ascii_of_string (firstColumn line).
Proof.
  induction line as [|c line IH]; [reflexivity|].
  change (list_ascii_of_string (String c line))
    with (c :: list_ascii_of_string line).
  rewrite pieces_cons. simpl firstColumn.
  destruct (decide (c = ascii_of_nat 9)); [reflexivity|].
  simpl. rewrite IH. reflexivity.
Qed.

(** [cols[0]] is the first column of the line. *)
Lemma first_column_of_split (line : string) :
  exists rest, strings_Split line TAB = firstColumn line :: rest.
Proof.
  rewrite strings_Split_TAB.
  pose proof (pieces_firstColumn line) as Hhd.
  destruct (pieces (ascii_of_nat 9) (list_ascii_of_string line)) as [|p rest] eqn:E.
  - destruct line as [|c line]; [discriminate|].
    change (list_ascii_of_string (String c line))
      with (c :: list_ascii_of_string line) in E.
    rewrite pieces_cons in E. destruct (decide (c = ascii_of_nat 9)); discriminate.
  - simpl in Hhd. subst p. exists (string_of_list_ascii <$> rest).
    simpl. rewrite string_of_list_ascii_of_string. reflexivity.
Qed.

Lemma skippedLine_firstColumn (line : string) :
  skippedLine line = bool_decide (firstColumn line = "").
Proof.
  unfold skippedLine. destruct line as [|c line]; [reflexivity|].
  rewrite bool_decide_false by discriminate. reflexivity.
Qed.

Section AddFacts.
Variable ToMegabytes : string -> option Z.
Variable ParseDuration : string -> option Z.
Variable filepath_Base : string -> string.

Lemma processLine_skipped fl df pwd st (line : string) :
  skippedLine line = true ->
  processLine ToMegabytes ParseDuration filepath_Base fl df pwd st line = Ok st.
Proof.
  rewrite skippedLine_firstColumn. intros Hskip.
  apply bool_decide_eq_true in Hskip.
  unfold processLine.
  destruct (first_column_of_split line) as [rest ->].
  rewrite Hskip. rewrite bool_decide_true by reflexivity.
  rewrite orb_true_r. reflexivity.
Qed.

Lemma scanLoop_skipped fl df pwd (lines : list string) :
  forall st,
    scanLoop ToMegabytes ParseDuration filepath_Base fl df pwd st lines
    = scanLoop ToMegabytes ParseDuration filepath_Base fl df pwd st
        (filter (fun l => skippedLine l = false) lines).
Proof.
  induction lines as [|line lines IH]; intros st; [reflexivity|].
  rewrite filter_cons. destruct (skippedLine line) eqn:E.
  - rewrite decide_False by discriminate.
    simpl. rewrite processLine_skipped by exact E. simpl. apply IH.
  - rewrite decide_True by reflexivity. simpl.
    destruct (processLine _ _ _ fl df pwd st line); simpl;
      [apply IH|reflexivity].
Qed.

(** C10: a line that is empty or whose first column is the empty string
    leaves the state of the loop as it is (no job, no warning, no error),
    and a run on an input gives what the run on the input without such
    lines gives: the same jobs submitted, or the same error. *)
Theorem skipped_lines_contribute_nothing (fl : Flags) (w : World)
    (lines : list string) :
  (forall df pwd st line,
     skippedLine line = true ->
     processLine ToMegabytes ParseDuration filepath_Base fl df pwd st line
     = Ok st) /\
  Run ToMegabytes ParseDuration filepath_Base fl (withInput w lines)
  = Run ToMegabytes ParseDuration filepath_Base fl
      (withInput w (filter (fun l => skippedLine l = false) lines)).
Proof.
  split.
  - intros df pwd st line. apply processLine_skipped.
  - unfold Run. simpl.
    destruct (checkOptions _ _ _) as [df|msg]; [|reflexivity]. simpl.
    destruct (connect1 w); [|reflexivity]. simpl.
    destruct (serverStats w) as [[|]|]; simpl; [| |reflexivity].
    + destruct (getwd w); simpl; [|reflexivity].
      rewrite scanLoop_skipped. reflexivity.
    + rewrite scanLoop_skipped. reflexivity.
Qed.
End AddFacts.

Lemma skipped_lines_contribute_nothing_witness :
  skippedLine (TAB +:+ "/tmp") = true /\
  processLine (fun _ => None) (fun _ => None) (fun s => s) plainFlags
    {| cmdMB := 0; cmdDuration := 0; cpusDefault := 1;
       defaultDepGroups := []; defaultDeps := [] |}
    "/tmp"
    {| jobs := []; pwdWarning := 1; defaultedRepG := false; warnings := [] |}
    (TAB +:+ "/tmp")
  = Ok {| jobs := []; pwdWarning := 1; defaultedRepG := false; warnings := [] |}.
Proof.
  assert (Hskip : skippedLine (TAB +:+ "/tmp") = true) by reflexivity.
  split; [exact Hskip|].
  apply (proj1 (skipped_lines_contribute_nothing
                  (fun _ => None) (fun _ => None) (fun s => s)
                  plainFlags (remoteManager []) [])).
  exact Hskip.
Defined.

(** ** Values of the columns that are not checked *)

Lemma bind_Ok {A B : Type} (r : result A) (k : A -> result B) (b : B) :
  r ≫= k = Ok b -> exists a, r = Ok a /\ k a = Ok b.
Proof. destruct r as [a|msg]; [eauto|discriminate]. Qed.

Lemma uint8_small (v : Z) : 0 <= v <= 255 -> uint8 v = v.
Proof. intros Hv. unfold uint8. apply Z.mod_small. lia. Qed.

Lemma intColumn_default cols i d msg set v :
  intColumn cols i d msg = Ok (set, v) -> set = false -> v = d.
Proof.
  unfold intColumn. destruct (column cols i); [|congruence].
  destruct (Atoi s); [|discriminate]. intros [= <- <-]. discriminate.
Qed.

Section AddChecks.
Variable ToMegabytes : string -> option Z.
Variable ParseDuration : string -> option Z.
Variable filepath_Base : string -> string.

Lemma checkOptions_range fl df :
  checkOptions ToMegabytes ParseDuration fl = Ok df ->
  0 <= cmdOvr fl <= 2 /\ 0 <= cmdPri fl <= 255 /\ 0 <= cmdRet fl <= 255 /\
  1 <= cpusDefault df.
Proof.
  unfold checkOptions. destruct (decide (cmdFile fl = "")); [discriminate|].
  intros Hrun.
  apply bind_Ok in Hrun as (mb & _ & Hrun).
  apply bind_Ok in Hrun as (dur & _ & Hrun).
  cbv zeta in Hrun.
  destruct ((cmdOvr fl <? 0) || (cmdOvr fl >? 2)) eqn:Ho; [discriminate|].
  destruct ((cmdPri fl <? 0) || (cmdPri fl >? 255)) eqn:Hp; [discriminate|].
  destruct ((cmdRet fl <? 0) || (cmdRet fl >? 255)) eqn:Hr; [discriminate|].
  apply bind_Ok in Hrun as (deps & _ & [= <-]). simpl.
  apply orb_false_iff in Ho as [Ho1 Ho2], Hp as [Hp1 Hp2], Hr as [Hr1 Hr2].
  rewrite Z.gtb_ltb in Ho2, Hp2, Hr2.
  apply Z.ltb_ge in Ho1, Ho2, Hp1, Hp2, Hr1, Hr2.
  destruct (Z.ltb_spec (cmdCPUs fl) 1); lia.
Qed.

Lemma processLine_checked fl df pwd st st' line :
  0 <= cmdOvr fl <= 2 -> 0 <= cmdPri fl <= 255 ->
  processLine ToMegabytes ParseDuration filepath_Base fl df pwd st line = Ok st' ->
  Forall checkedJob (jobs st) -> Forall checkedJob (jobs st').
Proof.
  intros Hovr Hpri. unfold processLine.
  destruct (strings_Split line TAB) as [|cmd cols'] eqn:Hcols; [congruence|].
  set (cols := cmd :: cols') in *.
  destruct ((Z.of_nat (length cols) <? 1) || bool_decide (cmd = "")); [congruence|].
  destruct (match column cols 1 with Some c => _ | None => _ end) as [[cwd pw] ws].
  intros Hrun.
  apply bind_Ok in Hrun as (mb & _ & Hrun).
  apply bind_Ok in Hrun as (dur & _ & Hrun).
  apply bind_Ok in Hrun as (cpus & _ & Hrun).
  apply bind_Ok in Hrun as ([oset ov] & Hov & Hrun). simpl in Hrun.
  destruct (oset && ((ov <? 0) || (ov >? 2))) eqn:Ho; [discriminate|].
  apply bind_Ok in Hrun as ([pset pv] & Hpv & Hrun). simpl in Hrun.
  destruct (pset && ((pv <? 0) || (pv >? 255))) eqn:Hp; [discriminate|].
  apply bind_Ok in Hrun as ([rset rv] & _ & Hrun). simpl in Hrun.
  destruct (rset && ((pv <? 0) || (pv >? 255))); [discriminate|].
  destruct (match column cols 9 with Some c => _ | None => _ end) as [repg drg].
  apply bind_Ok in Hrun as (deps & _ & [= <-]). simpl.
  intros Hjobs. apply Forall_app. split; [exact Hjobs|].
  constructor; [|constructor]. unfold checkedJob. simpl.
  assert (Hov' : 0 <= ov <= 2).
  { destruct oset.
    - simpl in Ho. apply orb_false_iff in Ho as [Ho1 Ho2].
      rewrite Z.gtb_ltb in Ho2. apply Z.ltb_ge in Ho1, Ho2. lia.
    - rewrite (intColumn_default _ _ _ _ _ _ Hov eq_refl). exact Hovr. }
  assert (Hpv' : 0 <= pv <= 255).
  { destruct pset.
    - simpl in Hp. apply orb_false_iff in Hp as [Hp1 Hp2].
      rewrite Z.gtb_ltb in Hp2. apply Z.ltb_ge in Hp1, Hp2. lia.
    - rewrite (intColumn_default _ _ _ _ _ _ Hpv eq_refl). exact Hpri. }
  rewrite !uint8_small by lia. lia.
Qed.

Lemma scanLoop_checked fl df pwd lines :
  0 <= cmdOvr fl <= 2 -> 0 <= cmdPri fl <= 255 ->
  forall st st',
    scanLoop ToMegabytes ParseDuration filepath_Base fl df pwd st lines = Ok st' ->
    Forall checkedJob (jobs st) -> Forall checkedJob (jobs st').
Proof.
  intros Hovr Hpri. induction lines as [|line lines IH]; intros st st' Hrun Hjobs.
  - injection Hrun as <-. exact Hjobs.
  - simpl in Hrun. apply bind_Ok in Hrun as (st1 & Hline & Hrun).
    apply (IH st1 st' Hrun).
    exact (processLine_checked fl df pwd st st1 line Hovr Hpri Hline Hjobs).
Qed.

(** What the checks do reject: a run that submits jobs had its flags in
    their ranges, and every job it submits has an override in 0..2 and a
    priority in 0..255. *)
Lemma Run_override_priority_checked fl w out :
  Run ToMegabytes ParseDuration filepath_Base fl w = Ok out ->
  Forall checkedJob (submitted out).
Proof.
  unfold Run. intros Hrun.
  apply bind_Ok in Hrun as (df & Hdf & Hrun).
  apply checkOptions_range in Hdf as (Hovr & Hpri & _).
  apply bind_Ok in Hrun as (lines & _ & Hrun).
  destruct (negb (connect1 w)); [discriminate|].
  apply bind_Ok in Hrun as (loc & _ & Hrun).
  apply bind_Ok in Hrun as (st & Hscan & Hrun).
  destruct (negb (connect2 w)); [discriminate|].
  destruct (negb (addOk w)); [discriminate|].
  injection Hrun as <-. simpl.
  destruct (decide (cmdRepGroup fl = "")); simpl in *;
    eapply scanLoop_checked; try exact Hscan; try assumption; constructor.
Qed.
End AddChecks.

(** C1: a line whose retries column holds 300 is not rejected: the test
    after [strconv.Atoi] of the retries column looks at [priority], and the
    job is made with [uint8(300)], that is 44 retries. *)
Theorem retries_column_out_of_range_accepted
    (ToMegabytes ParseDuration : string -> option Z)
    (filepath_Base : string -> string) :
  Run ToMegabytes ParseDuration filepath_Base plainFlags
    (remoteManager [tabbed ["echo hi"; ""; "grp"; ""; ""; ""; ""; ""; "300"]])
  = Ok {| submitted :=
            [NewJob "echo hi" "/work" "grp" 0 0 1 0 0 44 "manually_added" [] []];
          usedDefaultRepGroup := true;
          warned := [] |}.
Proof. vm_compute. reflexivity. Qed.

(** C3: a line whose cpus column holds 0 gives a job of 0 CPUs: only the
    flag is raised to 1, not the column. *)
Theorem cpus_column_below_one_accepted
    (ToMegabytes ParseDuration : string -> option Z)
    (filepath_Base : string -> string) :
  Run ToMegabytes ParseDuration filepath_Base plainFlags
    (remoteManager [tabbed ["echo hi"; ""; "grp"; ""; ""; "0"]])
  = Ok {| submitted :=
            [NewJob "echo hi" "/work" "grp" 0 0 0 0 0 3 "manually_added" [] []];
          usedDefaultRepGroup := true;
          warned := [] |}.
Proof. vm_compute. reflexivity. Qed.

(** ** The content key *)

Lemma hexDigit_isHex (d : Z) : isHex (hexDigit d) = true.
Proof.
  unfold isHex, hexDigit. apply bool_decide_eq_true.
  apply list_elem_of_In.
  destruct (nth_in_or_default (Z.to_nat d) ldigits "0"%char) as [Hin| ->];
    [exact Hin|].
  left. reflexivity.
Qed.

Lemma fmt_x_loop_isHex (fuel : nat) :
  forall u buf,
    Forall (fun c => isHex c = true) buf ->
    Forall (fun c => isHex c = true) (fmt_x_loop fuel u buf).
Proof.
  induction fuel as [|fuel IH]; intros u buf Hbuf; simpl.
  - constructor; [apply hexDigit_isHex|exact Hbuf].
  - destruct (u >=? 16).
    + apply IH. constructor; [apply hexDigit_isHex|exact Hbuf].
    + constructor; [apply hexDigit_isHex|exact Hbuf].
Qed.

Lemma fmt_x_loop_length (fuel : nat) :
  forall (k : nat) u buf,
    0 <= u < 16 ^ Z.of_nat (S k) ->
    (length (fmt_x_loop fuel u buf) <= length buf + S k)%nat.
Proof.
  induction fuel as [|fuel IH]; intros k u buf Hu; simpl fmt_x_loop.
  - simpl. lia.
  - destruct (u >=? 16) eqn:E; [|simpl; lia].
    destruct k as [|k].
    + change (16 ^ Z.of_nat 1) with 16 in Hu. lia.
    + specialize (IH k (Z.shiftr u 4) (hexDigit (Z.land u 15) :: buf)).
      simpl length in IH.
      assert (Hshift : 0 <= Z.shiftr u 4 < 16 ^ Z.of_nat (S k)).
      { rewrite Z.shiftr_div_pow2 by lia. change (2 ^ 4) with 16.
        split; [apply Z.div_pos; lia|].
        apply Z.div_lt_upper_bound; [lia|].
        replace (Z.of_nat (S (S k))) with (Z.of_nat (S k) + 1) in Hu by lia.
        rewrite Z.pow_add_r in Hu by lia. lia. }
      specialize (IH Hshift). lia.
Qed.

Lemma fmt_016x_length (u : Z) :
  0 <= u < 2 ^ 64 -> length (fmt_016x u) = 16%nat.
Proof.
  intros Hu. unfold fmt_016x, fmt_x.
  pose proof (fmt_x_loop_length (Z.to_nat (Z.log2 u)) 15 u [] Hu) as Hlen.
  simpl length in Hlen.
  rewrite length_app, length_replicate. lia.
Qed.

Lemma fmt_016x_isHex (u : Z) :
  Forall (fun c => isHex c = true) (fmt_016x u).
Proof.
  unfold fmt_016x. apply Forall_app. split.
  - apply Forall_replicate. reflexivity.
  - apply fmt_x_loop_isHex. constructor.
Qed.

Lemma string_of_list_ascii_length (l : list ascii) :
  String.length (string_of_list_ascii l) = length l.
Proof. induction l as [|c l IH]; simpl; congruence. Qed.

(** C6: the content key depends on the bytes alone, so equal bytes have
    the same key, and it is a string of 32 hexadecimal characters. *)
Theorem byteKey_deterministic_hex32 (Hash128 : list byte -> Z * Z)
    (Hash128_uint64 : forall b,
       0 <= (Hash128 b).1 < 2 ^ 64 /\ 0 <= (Hash128 b).2 < 2 ^ 64)
    (b b' : list byte) :
  (b = b' -> byteKey Hash128 b = byteKey Hash128 b') /\
  String.length (byteKey Hash128 b) = 32%nat /\
  Forall (fun c => isHex c = true) (list_ascii_of_string (byteKey Hash128 b)).
Proof.
  split; [intros ->; reflexivity|].
  unfold byteKey. destruct (Hash128_uint64 b) as [Hl Hh].
  destruct (Hash128 b) as [l h]. simpl in Hl, Hh.
  split.
  - rewrite string_of_list_ascii_length, length_app, !fmt_016x_length by assumption.
    reflexivity.
  - rewrite list_ascii_of_string_of_list_ascii.
    apply Forall_app. split; apply fmt_016x_isHex.
Qed.

Lemma byteKey_deterministic_hex32_witness :
  (forall b,
     0 <= (lengthHash b).1 < 2 ^ 64 /\ 0 <= (lengthHash b).2 < 2 ^ 64) /\
  ((([x61; x62] : list byte) = [x61; x62] ->
    byteKey lengthHash [x61; x62] = byteKey lengthHash [x61; x62]) /\
   String.length (byteKey lengthHash [x61; x62]) = 32%nat /\
   Forall (fun c => isHex c = true)
     (list_ascii_of_string (byteKey lengthHash [x61; x62]))).
Proof.
  assert (Hrange : forall b,
     0 <= (lengthHash b).1 < 2 ^ 64 /\ 0 <= (lengthHash b).2 < 2 ^ 64).
  { intros b. unfold lengthHash. simpl.
    split; [apply Z.mod_pos_bound; lia|lia]. }
  split; [exact Hrange|].
  exact (byteKey_deterministic_hex32 lengthHash Hrange [x61; x62] [x61; x62]).
Defined.

(** ** Compression *)

(** C8: whatever zlib stream the library writes for the data, provided the
    library's reader reads back what its writer wrote at every level it
    accepts, [decompress] of [compress] gives the data back, with no
    error: [compress] asks for a level the library accepts, and takes the
    bytes of the buffer after closing the writer. *)
Theorem compress_decompress_roundtrip
    (zlib_stream : Z -> list byte -> list byte)
    (zlib_header : list byte -> bool)
    (zlib_inflate : list byte -> option (list byte))
    (zlib_codec : forall lvl data,
       HuffmanOnly <= lvl <= BestCompression ->
       zlib_header (zlib_stream lvl data) = true /\
       zlib_inflate (zlib_stream lvl data) = Some data)
    (b : list byte) :
  compress zlib_stream b ≫= decompress zlib_header zlib_inflate = Ok b.
Proof.
  unfold compress, NewWriterLevel.
  change ((BestCompression <? HuffmanOnly) || (BestCompression >? BestCompression))
    with false.
  destruct (zlib_codec BestCompression b) as [Hheader Hinflate];
    [unfold HuffmanOnly, BestCompression; lia|].
  cbn [mbind result_bind Writer_Write Writer_Close level pending app].
  unfold decompress. rewrite Hheader, Hinflate. reflexivity.
Qed.

Lemma compress_decompress_roundtrip_witness :
  (forall lvl data,
     HuffmanOnly <= lvl <= BestCompression ->
     storedHeader (storedStream lvl data) = true /\
     storedInflate (storedStream lvl data) = Some data) /\
  compress storedStream [x68; x69] ≫= decompress storedHeader storedInflate
  = Ok [x68; x69].
Proof.
  assert (Hcodec : forall lvl data,
     HuffmanOnly <= lvl <= BestCompression ->
     storedHeader (storedStream lvl data) = true /\
     storedInflate (storedStream lvl data) = Some data).
  { intros lvl data _. split; reflexivity. }
  split; [exact Hcodec|].
  exact (compress_decompress_roundtrip storedStream storedHeader storedInflate
           Hcodec [x68; x69]).
Defined.

(** ** The saver of a prefix and a suffix *)

(** [fill] tops the destination up to the bound. *)
Lemma fill_nat (k : nat) (dst p : list byte) :
  fill (Z.of_nat k) dst p
  = (dst ++ take (k - length dst) p, drop (k - length dst) p).
Proof.
  unfold fill, len, minInt.
  destruct (Z.of_nat k - Z.of_nat (length dst) >? 0) eqn:Hrem.
  - apply Z.gtb_lt in Hrem.
    destruct (Z.of_nat (length p) <? Z.of_nat k - Z.of_nat (length dst)) eqn:Hmin.
    + apply Z.ltb_lt in Hmin. rewrite Nat2Z.id.
      rewrite !take_ge, !drop_ge by lia. reflexivity.
    + replace (Z.to_nat (Z.of_nat k - Z.of_nat (length dst)))
        with (k - length dst)%nat by lia.
      reflexivity.
  - assert (Hz : (k - length dst = 0)%nat).
    { destruct (Z.gtb_spec (Z.of_nat k - Z.of_nat (length dst)) 0); [discriminate|lia]. }
    rewrite Hz. simpl. rewrite app_nil_r. reflexivity.
Qed.

(** The loop on a full suffix: it writes [p] round the buffer, so that the
    suffix read from the new offset is the old one followed by [p], less
    the [length p] oldest bytes. *)
Lemma copyLoop_spec (k : nat) (fuel : nat) :
  forall (w : prefixSuffixSaver) (p : list byte),
    N w = Z.of_nat k ->
    length (suffix w) = k ->
    0 <= suffixOff w < Z.of_nat k ->
    (length p <= fuel)%nat ->
    exists w',
      copyLoop fuel w p = Some w' /\
      N w' = N w /\ prefix w' = prefix w /\
      length (suffix w') = k /\
      0 <= suffixOff w' < Z.of_nat k /\
      skipped w' = skipped w + Z.of_nat (length p) /\
      rot w' = drop (length p) (rot w ++ p).
Proof.
  induction fuel as [|fuel IH]; intros w p HN Hlen Hoff Hfuel.
  - destruct p; [|simpl in Hfuel; lia].
    exists w. simpl. rewrite app_nil_r. repeat split; try lia.
  - destruct p as [|c p0]; [exists w; simpl; rewrite app_nil_r; repeat split; lia|].
    set (p := c :: p0) in *.
    assert (Hp : (1 <= length p)%nat) by (simpl; lia).
    unfold copyLoop; fold copyLoop. subst p. cbv beta iota. set (p := c :: p0) in *.
    unfold len.
    replace ((suffixOff w <? 0) || (suffixOff w >? Z.of_nat (length (suffix w))))
      with false
      by (symmetry; apply orb_false_iff; split;
          [apply Z.ltb_ge; lia | rewrite Z.gtb_ltb; apply Z.ltb_ge; lia]).
    set (o := Z.to_nat (suffixOff w)).
    set (n := Nat.min (length (suffix w) - o) (length p)).
    assert (Ho : (o < k)%nat) by lia.
    assert (Hn : (1 <= n /\ n <= length p /\ o + n <= k)%nat) by lia.
    set (w1 := {| N := N w; prefix := prefix w;
                  suffix := take o (suffix w) ++ take n p ++ drop (o + n) (suffix w);
                  suffixOff := if suffixOff w + Z.of_nat n =? N w then 0
                               else suffixOff w + Z.of_nat n;
                  skipped := skipped w + Z.of_nat n |}).
    assert (Hlen1 : length (suffix w1) = k).
    { simpl. rewrite !length_app, !length_take, length_drop. lia. }
    assert (Hoff1 : 0 <= suffixOff w1 < Z.of_nat k).
    { simpl. destruct (Z.eqb_spec (suffixOff w + Z.of_nat n) (N w)); lia. }
    assert (Hrot1 : rot w1 = drop n (rot w ++ take n p)).
    { unfold rot. fold o. rewrite <- app_assoc.
      rewrite drop_app_le by (rewrite length_drop; lia).
      rewrite drop_drop. simpl suffix. simpl suffixOff.
      destruct (Z.eqb_spec (suffixOff w + Z.of_nat n) (N w)) as [Heq|Hne].
      - assert (Hk : (o + n = k)%nat) by lia.
        rewrite Hk. change (Z.to_nat 0) with 0%nat. rewrite drop_0, take_0.
        rewrite (drop_ge (suffix w) k) by lia.
        rewrite !app_nil_r. reflexivity.
      - replace (Z.to_nat (suffixOff w + Z.of_nat n)) with (o + n)%nat by lia.
        rewrite app_assoc.
        assert (Hl : length (take o (suffix w) ++ take n p) = (o + n)%nat).
        { rewrite length_app, !length_take. lia. }
        rewrite <- Hl at 1 3. rewrite drop_app_length, take_app_length.
        reflexivity. }
    destruct (IH w1 (drop n p)) as (w' & Hrun & HN' & Hpre' & Hlen' & Hoff' & Hskip' & Hrot');
      [exact HN|exact Hlen1|exact Hoff1|rewrite length_drop; clear IH; lia|].
    exists w'. split; [exact Hrun|].
    split; [exact HN'|]. split; [exact Hpre'|]. split; [exact Hlen'|].
    split; [exact Hoff'|].
    split.
    + rewrite Hskip'. change (skipped w1) with (skipped w + Z.of_nat n).
      rewrite length_drop. lia.
    + rewrite Hrot', Hrot1. rewrite length_drop.
      rewrite <- (drop_app_le _ (drop n p))
        by (rewrite length_app, length_take; unfold rot; rewrite length_app, length_drop, length_take; lia).
      rewrite drop_drop. rewrite <- app_assoc, take_drop.
      f_equal. lia.
Qed.

Lemma saved_suffix_length k w data :
  saved k w data -> length (suffix w) = (length data - (k + (length data - 2 * k)))%nat.
Proof.
  intros (_ & _ & Hoff & _ & _ & Hrot).
  rewrite <- length_drop, <- Hrot. unfold rot.
  rewrite length_app, length_drop, length_take. lia.
Qed.

Lemma drop_glue (data p : list byte) (a b c d : nat) :
  ((length data - a <= c /\ length data <= d /\
    c - (length data - a) + b = d - length data) \/
   (b = 0 /\ a <= length data /\ d = a + c))%nat ->
  drop c (drop a data ++ drop b p) = drop d (data ++ p).
Proof.
  intros [(Hc & Hd & Heq)|(-> & Ha & ->)].
  - rewrite drop_app_ge by (rewrite length_drop; lia).
    rewrite length_drop, drop_drop.
    rewrite (drop_app_ge data) by lia.
    f_equal. lia.
  - rewrite drop_0. rewrite <- drop_app_le by lia. rewrite drop_drop. reflexivity.
Qed.

(** The same, and nothing happens when nothing is left to write. *)
Lemma copyLoop_rot (k : nat) (w : prefixSuffixSaver) (p : list byte) :
  N w = Z.of_nat k ->
  0 <= suffixOff w < Z.of_nat k ->
  (p <> [] -> length (suffix w) = k) ->
  exists w',
    copyLoop (length p) w p = Some w' /\
    N w' = N w /\ prefix w' = prefix w /\
    0 <= suffixOff w' < Z.of_nat k /\
    (p = [] -> suffixOff w' = suffixOff w) /\
    skipped w' = skipped w + Z.of_nat (length p) /\
    rot w' = drop (length p) (rot w ++ p).
Proof.
  intros HN Hoff Hfull. destruct p as [|c p].
  - exists w. simpl. rewrite app_nil_r. repeat split; lia.
  - destruct (copyLoop_spec k (length (c :: p)) w (c :: p))
      as (w' & Hrun & HN' & Hpre & _ & Hoff' & Hskip & Hrot);
      [exact HN|apply Hfull; discriminate|exact Hoff|reflexivity|].
    exists w'. repeat split; try assumption; try lia. discriminate.
Qed.

(** [Write] keeps the invariant, and never panics for a bound above 0. *)
Lemma Write_saved (k : nat) (w : prefixSuffixSaver) (data p : list byte) :
  (0 < k)%nat -> saved k w data ->
  exists w', Write w p = Some w' /\ saved k w' (data ++ p).
Proof.
  intros Hk Hsaved.
  pose proof (saved_suffix_length k w data Hsaved) as Hslen.
  destruct Hsaved as (HN & Hpre & Hoff & Hzero & Hskip & Hrot).
  unfold Write. rewrite HN, !fill_nat.
  set (p1 := drop (k - length (prefix w)) p).
  assert (Hp1 : length p1 = (length p - (k - length data))%nat).
  { unfold p1. rewrite length_drop, Hpre, length_take. lia. }
  unfold len.
  replace ((Z.of_nat (length p1) - Z.of_nat k >? 0)
           && (Z.of_nat (length p1) - Z.of_nat k >? Z.of_nat (length p1)))
    with false
    by (symmetry; apply andb_false_iff; right; rewrite Z.gtb_ltb; apply Z.ltb_ge; lia).
  set (p2 := drop (length p1 - k) p1).
  assert (Hcut :
    (if Z.of_nat (length p1) - Z.of_nat k >? 0
     then (drop (Z.to_nat (Z.of_nat (length p1) - Z.of_nat k)) p1,
           skipped w + (Z.of_nat (length p1) - Z.of_nat k))
     else (p1, skipped w))
    = (p2, skipped w + Z.of_nat (length p1 - k))).
  { unfold p2. destruct (Z.gtb_spec (Z.of_nat (length p1) - Z.of_nat k) 0).
    - replace (Z.to_nat (Z.of_nat (length p1) - Z.of_nat k))
        with (length p1 - k)%nat by lia.
      f_equal. lia.
    - replace (length p1 - k)%nat with 0%nat by lia.
      rewrite drop_0. f_equal. lia. }
  rewrite Hcut. clear Hcut. rewrite fill_nat.
  assert (Hp2 : length p2 = Nat.min (length p1) k).
  { unfold p2. rewrite length_drop. lia. }
  set (p3 := drop (k - length (suffix w)) p2).
  assert (Hp3 : length p3 = (length p2 - (k - length (suffix w)))%nat).
  { unfold p3. rewrite length_drop. reflexivity. }
  set (w3 := {| N := Z.of_nat k;
                prefix := prefix w ++ take (k - length (prefix w)) p;
                suffix := suffix w ++ take (k - length (suffix w)) p2;
                suffixOff := suffixOff w;
                skipped := skipped w + Z.of_nat (length p1 - k) |}).
  assert (Hrot3 : rot w3 ++ p3 = rot w ++ p2).
  { unfold rot. simpl suffix. simpl suffixOff.
    destruct (decide (length (suffix w) < k)%nat) as [Hlt|Hge].
    - rewrite Hzero by lia. change (Z.to_nat 0) with 0%nat.
      rewrite !drop_0, !take_0, !app_nil_r. rewrite <- app_assoc.
      unfold p3. rewrite take_drop. reflexivity.
    - unfold p3. replace (k - length (suffix w))%nat with 0%nat by lia.
      rewrite take_0, drop_0, app_nil_r. reflexivity. }
  destruct (copyLoop_rot k w3 p3)
    as (w' & Hrun & HN' & Hpre' & Hoff' & Hsame & Hskip' & Hrot');
    [reflexivity|exact Hoff| |].
  { intros Hne. simpl. rewrite length_app, length_take.
    destruct p3 eqn:E; [contradiction|]. simpl in Hp3. lia. }
  exists w'. split; [exact Hrun|].
  assert (Hlen : length (data ++ p) = (length data + length p)%nat)
    by apply length_app.
  unfold saved. rewrite Hlen.
  split; [rewrite HN'; reflexivity|].
  split.
  { rewrite Hpre'. simpl. rewrite Hpre, take_app, length_take.
    f_equal. f_equal. lia. }
  split; [exact Hoff'|].
  split.
  { intros Hsmall. rewrite Hsame; [simpl; apply Hzero; lia|].
    apply length_zero_iff_nil. lia. }
  split.
  { rewrite Hskip'. simpl. rewrite Hskip. lia. }
  assert (Hp2eq : p2 = drop ((k - length data) + (length p1 - k)) p).
  { unfold p2. unfold p1 at 2. rewrite drop_drop, Hpre, length_take.
    f_equal. lia. }
  rewrite Hrot', Hrot3, Hrot, Hp2eq. apply drop_glue.
  clearbody p1 p2 p3 w3. clear - Hp1 Hp2 Hp3 Hslen Hk.
  destruct (le_lt_dec (length data) k);
    destruct (le_lt_dec (length data) (2 * k));
    destruct (le_lt_dec (length p1) k);
    destruct (le_lt_dec (length data + length p) (2 * k)); lia.
Qed.

Lemma Writes_saved (k : nat) (ps : list (list byte)) :
  (0 < k)%nat ->
  forall w data,
    saved k w data ->
    exists w', Writes w ps = Some w' /\ saved k w' (data ++ concat ps).
Proof.
  intros Hk. induction ps as [|p ps IH]; intros w data Hsaved.
  - exists w. simpl. rewrite app_nil_r. split; [reflexivity|exact Hsaved].
  - destruct (Write_saved k w data p Hk Hsaved) as (w1 & Hw1 & Hsaved1).
    destruct (IH w1 (data ++ p) Hsaved1) as (w' & Hw' & Hsaved').
    exists w'. simpl. rewrite Hw1. split; [exact Hw'|].
    rewrite app_assoc. exact Hsaved'.
Qed.

Lemma newSaver_saved (k : nat) : (0 < k)%nat -> saved k (newSaver (Z.of_nat k)) [].
Proof.
  intros Hk. unfold saved, rot. simpl.
  rewrite take_nil, drop_nil. repeat split; try reflexivity; lia.
Qed.

Lemma list_byte_of_string_app (a b : string) :
  list_byte_of_string (a +:+ b) = list_byte_of_string a ++ list_byte_of_string b.
Proof.
  induction a as [|c a IH]; [reflexivity|].
  simpl. unfold list_byte_of_string in *. simpl. rewrite IH. reflexivity.
Qed.

(** What [Bytes] makes of a saver that holds [data]. *)
Lemma Bytes_saved (k : nat) (w : prefixSuffixSaver) (data : list byte) :
  (0 < k)%nat -> saved k w data ->
  Bytes w
  = Some (if (length data <=? 2 * k)%nat then data
          else take k data
               ++ omitted (Z.of_nat (length data - 2 * k))
               ++ drop (length data - k) data).
Proof.
  intros Hk Hsaved.
  pose proof (saved_suffix_length k w data Hsaved) as Hslen.
  destruct Hsaved as (HN & Hpre & Hoff & Hzero & Hskip & Hrot).
  unfold Bytes. destruct (suffix w) as [|c s] eqn:Hs.
  - simpl in Hslen. rewrite Hpre.
    replace (length data <=? 2 * k)%nat with true
      by (symmetry; apply Nat.leb_le; lia).
    rewrite take_ge by lia. reflexivity.
  - rewrite <- Hs in Hslen.
    rewrite Hskip. destruct (Nat.leb_spec (length data) (2 * k)) as [Hle|Hgt].
    + replace (Z.of_nat (length data - 2 * k) =? 0) with true
        by (symmetry; apply Z.eqb_eq; lia).
      rewrite Hpre. rewrite <- Hs.
      assert (Hsuffix : suffix w = drop k data).
      { unfold rot in Hrot. rewrite (Hzero Hle) in Hrot.
        change (Z.to_nat 0) with 0%nat in Hrot.
        rewrite drop_0, take_0, app_nil_r in Hrot. rewrite Hrot.
        f_equal. lia. }
      rewrite Hsuffix, take_drop. reflexivity.
    + replace (Z.of_nat (length data - 2 * k) =? 0) with false
        by (symmetry; apply Z.eqb_neq; lia).
      rewrite <- Hs. unfold len.
      replace ((suffixOff w <? 0) || (suffixOff w >? Z.of_nat (length (suffix w))))
        with false
        by (symmetry; apply orb_false_iff; split;
            [apply Z.ltb_ge; lia | rewrite Z.gtb_ltb; apply Z.ltb_ge; lia]).
      f_equal. rewrite Hpre. f_equal.
      unfold omitted. rewrite !list_byte_of_string_app, <- !app_assoc.
      f_equal. f_equal. f_equal.
      fold (rot w). rewrite Hrot. do 3 f_equal. lia.
Qed.

(** C5 (amended): for a saver of bound [n >= 1] and every sequence of
    writes, [Bytes] returns all bytes written when they are at most
    [2 * n], and else the first [n] bytes written, the marker with the
    number of omitted bytes, and the last [n] bytes written. *)
Theorem saver_bytes (n : Z) (ps : list (list byte)) :
  0 < n -> saverKeeps n ps.
Proof.
  unfold saverKeeps.
  intros Hn.
  assert (exists k, n = Z.of_nat k /\ (0 < k)%nat) as (k & -> & Hk)
    by (exists (Z.to_nat n); lia).
  destruct (Writes_saved k ps Hk (newSaver (Z.of_nat k)) [] (newSaver_saved k Hk))
    as (w & Hw & Hsaved).
  rewrite Hw. simpl in Hsaved. simpl.
  rewrite (Bytes_saved k w (concat ps) Hk Hsaved). unfold len.
  f_equal.
  destruct (Nat.leb_spec (length (concat ps)) (2 * k)) as [Hle|Hgt].
  - replace (Z.of_nat (length (concat ps)) <=? 2 * Z.of_nat k) with true
      by (symmetry; apply Z.leb_le; lia).
    reflexivity.
  - replace (Z.of_nat (length (concat ps)) <=? 2 * Z.of_nat k) with false
      by (symmetry; apply Z.leb_gt; lia).
    rewrite Nat2Z.id.
    replace (Z.of_nat (length (concat ps)) - 2 * Z.of_nat k)
      with (Z.of_nat (length (concat ps) - 2 * k)) by lia.
    replace (Z.to_nat (Z.of_nat (length (concat ps)) - Z.of_nat k))
      with (length (concat ps) - k)%nat by lia.
    reflexivity.
Qed.

Lemma saver_bytes_witness :
  0 < 2 /\ saverKeeps 2 [[x61; x62; x63]; [x64; x65; x66; x67]; [x68]].
Proof. split; [lia|apply saver_bytes; lia]. Defined.

(** C5 as stated fails for the bound 0: one byte written is more than
    twice the bound, and [Bytes] returns nothing, not the marker. *)
Lemma saver_zero_bound_no_marker :
  Writes (newSaver 0) [[x61]] ≫= Bytes = Some [] /\ ~ saverKeeps 0 [[x61]].
Proof. split; [reflexivity|]. unfold saverKeeps. simpl. discriminate. Qed.

(** ** Overriding environment variables *)

(** The loop on the index, which updates the slice in place, is the
    reading along the list. *)
Lemma replaceLoop_replaceAll (todo : list string) :
  forall (done : list string) (override : gmap string string),
    replaceLoop (length todo) (length done) (done ++ todo) override
    = (done ++ (replaceAll todo override).1, (replaceAll todo override).2).
Proof.
  induction todo as [|e todo IH]; intros done override; [reflexivity|].
  simpl. rewrite list_lookup_middle by reflexivity.
  destruct (override !! envName e) as [r|] eqn:E.
  - replace (<[length done := r]> (done ++ e :: todo)) with ((done ++ [r]) ++ todo).
    2:{ rewrite insert_app_r_alt by lia. rewrite Nat.sub_diag. simpl.
        rewrite <- app_assoc. reflexivity. }
    replace (S (length done)) with (length (done ++ [r]))
      by (rewrite length_app; simpl; lia).
    rewrite IH. destruct (replaceAll todo (delete (envName e) override)).
    simpl. rewrite <- app_assoc. reflexivity.
  - replace (done ++ e :: todo) with ((done ++ [e]) ++ todo)
      by (rewrite <- app_assoc; reflexivity).
    replace (S (length done)) with (length (done ++ [e]))
      by (rewrite length_app; simpl; lia).
    rewrite IH. destruct (replaceAll todo override).
    simpl. rewrite <- app_assoc. reflexivity.
Qed.

Lemma overrideMap_snoc (over : list string) (e : string) :
  overrideMap (over ++ [e]) = <[envName e := e]> (overrideMap over).
Proof. unfold overrideMap. rewrite foldl_app. reflexivity. Qed.

(** The map holds for every name the last variable of [over] with it. *)
Lemma overrideMap_lookup (over : list string) (name : string) :
  overrideMap over !! name = overValue over name.
Proof.
  unfold overValue. induction over as [|e over IH] using rev_ind; [reflexivity|].
  rewrite overrideMap_snoc, filter_app.
  destruct (decide (envName e = name)) as [Heq|Hne].
  - subst name. rewrite lookup_insert_eq.
    rewrite filter_cons, decide_True by reflexivity.
    rewrite filter_nil, last_snoc. reflexivity.
  - rewrite lookup_insert_ne by exact Hne.
    rewrite filter_cons, decide_False by exact Hne.
    rewrite filter_nil, app_nil_r. exact IH.
Qed.

Lemma overValue_name (over : list string) (name e : string) :
  overValue over name = Some e -> envName e = name.
Proof.
  unfold overValue. intros Hlast.
  apply last_Some_elem_of in Hlast.
  apply list_elem_of_filter in Hlast. tauto.
Qed.

Lemma overValue_is_Some (over : list string) (name : string) :
  name ∈ envName <$> over -> is_Some (overValue over name).
Proof.
  intros Hin. apply list_elem_of_fmap in Hin as (e & -> & He).
  unfold overValue. apply last_is_Some.
  intros Hnil.
  assert (Hf : e ∈ filter (fun envvar => envName envvar = envName e) over)
    by (apply list_elem_of_filter; auto).
  rewrite Hnil in Hf. apply elem_of_nil in Hf. exact Hf.
Qed.

(** Without a name twice among the variables, each is replaced by what
    the map holds for its name, and the names met leave the map. *)
Lemma replaceAll_spec (todo : list string) :
  forall override : gmap string string,
    NoDup (envName <$> todo) ->
    (replaceAll todo override).1
    = (fun e => default e (override !! envName e)) <$> todo /\
    (forall name,
       (replaceAll todo override).2 !! name
       = if decide (name ∈ envName <$> todo) then None else override !! name).
Proof.
  induction todo as [|e todo IH]; intros override Hnodup.
  - split; [reflexivity|]. intros name. reflexivity.
  - rewrite fmap_cons in Hnodup. apply NoDup_cons in Hnodup as [Hnotin Hnodup].
    simpl. destruct (override !! envName e) as [r|] eqn:E.
    + destruct (IH (delete (envName e) override) Hnodup) as [IH1 IH2].
      destruct (replaceAll todo (delete (envName e) override)) as [env' ov'].
      simpl in *. split.
      * rewrite IH1. f_equal. apply list_fmap_ext. intros i x Hx.
        rewrite lookup_delete_ne; [reflexivity|].
        intros Heq. apply Hnotin. rewrite Heq.
        apply list_elem_of_fmap. exists x. split; [reflexivity|].
        eapply list_elem_of_lookup_2; eassumption.
      * intros name. rewrite IH2.
        destruct (decide (name ∈ envName <$> todo)) as [Hin|Hout].
        -- rewrite decide_True by (apply elem_of_cons; auto). reflexivity.
        -- destruct (decide (name = envName e)) as [->|Hne].
           ++ rewrite decide_True by (apply elem_of_cons; auto).
              apply lookup_delete_eq.
           ++ rewrite decide_False
                by (intros [?|?]%elem_of_cons; contradiction).
              apply lookup_delete_ne. congruence.
    + destruct (IH override Hnodup) as [IH1 IH2].
      destruct (replaceAll todo override) as [env' ov'].
      simpl in *. split.
      * rewrite IH1. reflexivity.
      * intros name. rewrite IH2.
        destruct (decide (name ∈ envName <$> todo)) as [Hin|Hout].
        -- rewrite decide_True by (apply elem_of_cons; auto). reflexivity.
        -- destruct (decide (name = envName e)) as [->|Hne].
           ++ rewrite decide_True by (apply elem_of_cons; auto). exact E.
           ++ rewrite decide_False
                by (intros [?|?]%elem_of_cons; contradiction).
              reflexivity.
Qed.

Lemma occurrences_names (name : string) (env : list string) :
  occurrences name env = length (filter (fun x => x = name) (envName <$> env)).
Proof.
  unfold occurrences. induction env as [|e env IH]; [reflexivity|].
  rewrite fmap_cons, !filter_cons.
  destruct (decide (envName e = name)); simpl; rewrite IH; reflexivity.
Qed.

Lemma NoDup_filter_eq_length {A : Type} `{EqDecision A} (a : A) (l : list A) :
  NoDup l -> a ∈ l -> length (filter (fun x => x = a) l) = 1%nat.
Proof.
  induction 1 as [|x l Hx Hnd IH]; intros Hin.
  - apply elem_of_nil in Hin. contradiction.
  - rewrite filter_cons. destruct (decide (x = a)) as [->|Hne].
    + simpl. f_equal. apply length_zero_iff_nil.
      destruct (filter (fun x => x = a) l) as [|y ys] eqn:E; [reflexivity|].
      assert (Hy : y ∈ filter (fun x => x = a) l) by (rewrite E; left).
      apply list_elem_of_filter in Hy as [-> Hy]. contradiction.
    + apply IH. apply elem_of_cons in Hin as [->|Hin]; [contradiction|exact Hin].
Qed.

Section EnvOverrideFacts.
Variable range : gmap string string -> list string.
Hypothesis range_values : forall m, range m ≡ₚ (map_to_list m).*2.

Lemma elem_of_range (m : gmap string string) (e : string) :
  e ∈ range m <-> exists name, m !! name = Some e.
Proof.
  rewrite range_values. rewrite list_elem_of_fmap. split.
  - intros ([name e'] & -> & Hin). exists name.
    apply elem_of_map_to_list in Hin. exact Hin.
  - intros [name Hm]. exists (name, e). split; [reflexivity|].
    apply elem_of_map_to_list. exact Hm.
Qed.

Lemma names_of_range (m : gmap string string) :
  (forall name e, m !! name = Some e -> envName e = name) ->
  envName <$> range m ≡ₚ (map_to_list m).*1.
Proof.
  intros Hnames. rewrite range_values. rewrite <- list_fmap_compose.
  apply eq_subrelation; [apply _|].
  apply list_fmap_ext. intros i [name e] Hi. simpl.
  apply Hnames. apply elem_of_map_to_list.
  eapply list_elem_of_lookup_2. exact Hi.
Qed.

(** C9 (amended): when no name occurs twice in [orig], the result of
    [envOverride] has every variable of [orig] at its position, replaced
    by the value [over] gives to its name when it gives one and unchanged
    otherwise; behind them, in some order, the values [over] gives to
    the names that do not occur in [orig], and nothing else; every name
    that occurs in [over] occurs exactly once, with that value. *)
Theorem envOverride_result (orig over : list string) :
  NoDup (envName <$> orig) ->
  let res := envOverride range orig over in
  (forall i e,
     orig !! i = Some e ->
     res !! i = Some (default e (overValue over (envName e)))) /\
  (forall e,
     e ∈ drop (length orig) res <->
     exists name, overValue over name = Some e /\ name ∉ envName <$> orig) /\
  (forall name, name ∈ envName <$> over -> occurrences name res = 1%nat) /\
  (forall name e,
     name ∈ envName <$> over -> e ∈ res -> envName e = name ->
     overValue over name = Some e).
Proof.
  intros Hnodup res. subst res. unfold envOverride.
  pose proof (replaceLoop_replaceAll orig [] (overrideMap over)) as Hloop.
  simpl in Hloop. rewrite Hloop. clear Hloop.
  destruct (replaceAll_spec orig (overrideMap over) Hnodup) as [Henv Hleft].
  destruct (replaceAll orig (overrideMap over)) as [env left]. simpl in *.
  assert (Hlen : length env = length orig) by (rewrite Henv; apply length_fmap).
  assert (Hnames : envName <$> env = envName <$> orig).
  { rewrite Henv, <- list_fmap_compose. apply list_fmap_ext. intros i e _.
    simpl. rewrite overrideMap_lookup.
    destruct (overValue over (envName e)) as [r|] eqn:E; [|reflexivity].
    simpl. eapply overValue_name. exact E. }
  assert (Hleft_names : forall name e, left !! name = Some e -> envName e = name).
  { intros name e. rewrite Hleft. destruct (decide _); [discriminate|].
    rewrite overrideMap_lookup. apply overValue_name. }
  assert (Htail : forall e,
    e ∈ range left <->
    exists name, overValue over name = Some e /\ name ∉ envName <$> orig).
  { intros e. rewrite elem_of_range. split.
    - intros [name Hname]. exists name. rewrite Hleft in Hname.
      destruct (decide _); [discriminate|].
      rewrite overrideMap_lookup in Hname. auto.
    - intros (name & Hval & Hout). exists name. rewrite Hleft.
      rewrite decide_False by exact Hout. rewrite overrideMap_lookup. exact Hval. }
  assert (Hnd : NoDup (envName <$> env ++ range left)).
  { rewrite fmap_app. apply NoDup_app. split; [rewrite Hnames; exact Hnodup|].
    split.
    - intros name Hin Hin'. rewrite Hnames in Hin.
      apply list_elem_of_fmap in Hin' as (e & -> & He).
      apply Htail in He as (name & Hval & Hout).
      apply overValue_name in Hval. congruence.
    - rewrite (names_of_range left Hleft_names). apply NoDup_fst_map_to_list. }
  split; [|split; [|split]].
  - intros i e Hi. rewrite lookup_app_l by (rewrite Hlen; eapply lookup_lt_Some; exact Hi).
    rewrite Henv, list_lookup_fmap, Hi. simpl.
    rewrite overrideMap_lookup. reflexivity.
  - intros e. rewrite <- Hlen, drop_app_length. apply Htail.
  - intros name Hin. rewrite occurrences_names.
    apply NoDup_filter_eq_length; [exact Hnd|].
    rewrite fmap_app, Hnames. apply elem_of_app.
    destruct (decide (name ∈ envName <$> orig)) as [Ho|Ho]; [left; exact Ho|].
    right. destruct (overValue_is_Some over name Hin) as [e He].
    apply list_elem_of_fmap. exists e. split.
    + symmetry. eapply overValue_name. exact He.
    + apply Htail. exists name. auto.
  - intros name e Hin He Hname. apply elem_of_app in He as [He|He].
    + rewrite Henv in He. apply list_elem_of_fmap in He as (e0 & -> & He0).
      rewrite overrideMap_lookup in Hname |- *.
      destruct (overValue over (envName e0)) as [r|] eqn:E; simpl in *.
      * apply overValue_name in E as E'. congruence.
      * subst name. destruct (overValue_is_Some over (envName e0) Hin) as [r Hr].
        congruence.
    + apply Htail in He as (name' & Hval & _).
      apply overValue_name in Hval as Hn. congruence.
Qed.
End EnvOverrideFacts.

Lemma envOverride_result_witness :
  (forall m, rangeSorted m ≡ₚ (map_to_list m).*2) /\
  NoDup (envName <$> ["A=1"; "B=2"]) /\
  occurrences "B" (envOverride rangeSorted ["A=1"; "B=2"] ["B=x"; "C=3"])
  = 1%nat.
Proof.
  assert (Hrange : forall m, rangeSorted m ≡ₚ (map_to_list m).*2)
    by (intros m; reflexivity).
  assert (Hnodup : NoDup (envName <$> ["A=1"; "B=2"]))
    by (apply (bool_decide_unpack _); vm_compute; exact I).
  split; [exact Hrange|]. split; [exact Hnodup|].
  apply (envOverride_result rangeSorted Hrange ["A=1"; "B=2"]
           ["B=x"; "C=3"] Hnodup).
  apply (bool_decide_unpack _). vm_compute. exact I.
Defined.

(** C9 as stated fails when a name occurs twice in [orig]: only its first
    variable is replaced, the later one stays, and the name occurs twice
    in the result. *)
Lemma envOverride_duplicate_name :
  ("A" ∈ envName <$> ["A=3"]) /\
  envOverride rangeSorted ["A=1"; "A=2"] ["A=3"]
  = ["A=3"; "A=2"] /\
  occurrences "A" (envOverride rangeSorted ["A=1"; "A=2"] ["A=3"])
  <> 1%nat.
Proof.
  split; [apply (bool_decide_unpack _); vm_compute; exact I|].
  split; [vm_compute; reflexivity|].
  vm_compute. discriminate.
Qed.

(** ** The filter of carriage returns *)

Lemma writeTo_buffer (out : list byte) (errs : list string) (b : list byte) :
  writeTo (out, errs) b = (out ++ b, errs).
Proof. reflexivity. Qed.

Lemma filterChunk_buffer (out : list byte) (errs : list string) (p : list byte) :
  filterChunk (out, errs) p = (out ++ chunkOutput p, errs).
Proof.
  unfold chunkOutput, filterChunk. cbv zeta.
  repeat rewrite writeTo_buffer.
  destruct (len (bytes_Split p cr) >? 2); [|reflexivity].
  repeat rewrite writeTo_buffer.
  destruct (len (bytes_Split p cr) >? 3); repeat rewrite writeTo_buffer; simpl;
    rewrite <- ?app_assoc; reflexivity.
Qed.

Lemma ReadBytes_chunks (s : list byte) :
  match ReadBytes x0a s with
  | (p, None) => chunks s = [p]
  | (p, Some rest) => chunks s = p :: chunks rest /\ (length rest < length s)%nat
  end.
Proof.
  induction s as [|c s IH]; [reflexivity|].
  simpl. destruct (decide (c = x0a)) as [->|Hc].
  - split; [reflexivity|lia].
  - destruct (ReadBytes x0a s) as [p [rest|]].
    + destruct IH as [-> Hlen]. split; [reflexivity|lia].
    + rewrite IH. reflexivity.
Qed.

(** On a buffer, the loop appends the output of chunk after chunk, and the
    fuel of [stdFilter] reaches the end of the input. *)
Lemma stdFilter_loop_chunks (fuel : nat) :
  forall (reader out : list byte) (errs : list string),
    (length reader < fuel)%nat ->
    stdFilter_loop fuel reader (out, errs)
    = Some (out ++ concat (chunkOutput <$> chunks reader), errs).
Proof.
  induction fuel as [|fuel IH]; intros reader out errs Hfuel; [lia|].
  simpl. pose proof (ReadBytes_chunks reader) as Hread.
  destruct (ReadBytes x0a reader) as [p [rest|]].
  - destruct Hread as [-> Hlen]. rewrite filterChunk_buffer.
    rewrite IH by lia. simpl. rewrite <- app_assoc. reflexivity.
  - rewrite Hread, filterChunk_buffer. simpl. rewrite app_nil_r. reflexivity.
Qed.

Lemma chunks_concat (s : list byte) : concat (chunks s) = s.
Proof.
  induction s as [|c s IH]; [reflexivity|].
  simpl. destruct (decide (c = x0a)); simpl; [rewrite IH; reflexivity|].
  destruct (chunks s) as [|chunk rest]; simpl in *; congruence.
Qed.

(** The output for a chunk, by the pieces between its carriage
    returns. *)
Lemma chunkOutput_pieces (p : list byte) :
  chunkOutput p
  = let lines := pieces x0d p in
    nth 0 lines []
    ++ (if (2 <? length lines)%nat then
          lf ++ (if (3 <? length lines)%nat then ellipses else [])
          ++ nth (length lines - 2) lines [] ++ lf
        else []).
Proof.
  unfold chunkOutput, filterChunk, bytes_Split, cr.
  rewrite genSplit_pieces. cbv zeta. repeat rewrite writeTo_buffer. unfold len.
  destruct (Nat.ltb_spec 2 (length (pieces x0d p))) as [H2|H2].
  - replace (Z.of_nat (length (pieces x0d p)) >? 2) with true
      by (symmetry; rewrite Z.gtb_ltb; apply Z.ltb_lt; lia).
    repeat rewrite writeTo_buffer.
    destruct (Nat.ltb_spec 3 (length (pieces x0d p))) as [H3|H3].
    + replace (Z.of_nat (length (pieces x0d p)) >? 3) with true
        by (symmetry; rewrite Z.gtb_ltb; apply Z.ltb_lt; lia).
      repeat rewrite writeTo_buffer. simpl. rewrite <- !app_assoc. reflexivity.
    + replace (Z.of_nat (length (pieces x0d p)) >? 3) with false
        by (symmetry; rewrite Z.gtb_ltb; apply Z.ltb_ge; lia).
      repeat rewrite writeTo_buffer. simpl. rewrite <- !app_assoc. reflexivity.
  - replace (Z.of_nat (length (pieces x0d p)) >? 2) with false
      by (symmetry; rewrite Z.gtb_ltb; apply Z.ltb_ge; lia).
    simpl. rewrite app_nil_r. reflexivity.
Qed.

Lemma pieces_nonempty {A : Type} `{EqDecision A} (c : A) (s : list A) :
  (1 <= length (pieces c s))%nat.
Proof.
  destruct s as [|x s]; [simpl; lia|]. rewrite pieces_cons.
  destruct (decide (x = c)); simpl; lia.
Qed.

Section ChunkOutput.
Variables a m b : list byte.
Hypothesis a_line : x0d ∉ a.
Hypothesis m_line : x0d ∉ m.
Hypothesis b_line : x0d ∉ b.

Lemma chunkOutput_no_cr : chunkOutput a = a.
Proof.
  rewrite chunkOutput_pieces, pieces_notin by exact a_line.
  simpl. apply app_nil_r.
Qed.

Lemma chunkOutput_one_cr : chunkOutput (a ++ cr ++ b) = a.
Proof.
  rewrite chunkOutput_pieces. unfold cr. simpl app.
  rewrite pieces_app by exact a_line. rewrite pieces_notin by exact b_line.
  simpl. apply app_nil_r.
Qed.

Lemma chunkOutput_two_cr :
  chunkOutput (a ++ cr ++ m ++ cr ++ b) = a ++ lf ++ m ++ lf.
Proof.
  rewrite chunkOutput_pieces. unfold cr. simpl app.
  rewrite pieces_app by exact a_line. rewrite pieces_app by exact m_line.
  rewrite pieces_notin by exact b_line. reflexivity.
Qed.

Lemma chunkOutput_more_cr (mid : list byte) :
  chunkOutput (a ++ cr ++ mid ++ cr ++ m ++ cr ++ b)
  = a ++ lf ++ ellipses ++ m ++ lf.
Proof.
  rewrite chunkOutput_pieces. unfold cr. simpl app.
  rewrite pieces_app by exact a_line. rewrite pieces_join.
  rewrite (pieces_app x0d m b) by exact m_line.
  rewrite (pieces_notin x0d b) by exact b_line.
  pose proof (pieces_nonempty x0d mid) as Hmid.
  cbv zeta. set (ps := pieces x0d mid) in *.
  assert (Hlen : length (a :: ps ++ [m; b]) = (length ps + 3)%nat)
    by (simpl; rewrite length_app; simpl; lia).
  rewrite Hlen.
  replace (2 <? length ps + 3)%nat with true by (symmetry; apply Nat.ltb_lt; lia).
  replace (3 <? length ps + 3)%nat with true by (symmetry; apply Nat.ltb_lt; lia).
  replace (length ps + 3 - 2)%nat with (S (length ps)) by lia.
  change (nth 0 (a :: ps ++ [m; b]) []) with a.
  change (nth (S (length ps)) (a :: ps ++ [m; b]) [])
    with (nth (length ps) (ps ++ [m; b]) []).
  rewrite app_nth2 by lia. rewrite Nat.sub_diag. reflexivity.
Qed.
End ChunkOutput.

(** What [stdFilter] writes, chunk after chunk of its input (a chunk ends
    with its newline; the last one is what is left): a chunk with no
    carriage return as it is; of a chunk with one carriage return the text
    before it; of a chunk with two or more carriage returns the text before
    the first, a newline, the marker when there are three or more, the text
    between the last two carriage returns, and a newline. *)
Lemma stdFilter_output (std out : list byte) :
  stdFilter std out = Some (out ++ concat (chunkOutput <$> chunks std), []) /\
  concat (chunks std) = std /\
  (forall a, x0d ∉ a -> chunkOutput a = a) /\
  (forall a b, x0d ∉ a -> x0d ∉ b -> chunkOutput (a ++ cr ++ b) = a) /\
  (forall a m b,
     x0d ∉ a -> x0d ∉ m -> x0d ∉ b ->
     chunkOutput (a ++ cr ++ m ++ cr ++ b) = a ++ lf ++ m ++ lf) /\
  (forall a mid m b,
     x0d ∉ a -> x0d ∉ m -> x0d ∉ b ->
     chunkOutput (a ++ cr ++ mid ++ cr ++ m ++ cr ++ b)
     = a ++ lf ++ ellipses ++ m ++ lf).
Proof.
  split; [apply stdFilter_loop_chunks; lia|].
  split; [apply chunks_concat|].
  split; [apply chunkOutput_no_cr|].
  split; [apply chunkOutput_one_cr|].
  split; [apply chunkOutput_two_cr|].
  intros a mid m b Ha Hm Hb. apply chunkOutput_more_cr; assumption.
Qed.

(** C2: [stdFilter] loses what follows the last carriage return of a
    chunk.  Of the input [a CR b LF] it writes [a] alone, so the output
    does not keep the last of the lines that the carriage return separates:
    [b] and the newline are gone.  Of the two lines [line1 CR LF] and
    [line2 CR LF] it writes [line1line2]: the newlines are gone and the
    lines run together.  With two or more carriage returns in a chunk a
    newline is written after each line that is kept. *)
Theorem stdFilter_loses_text_after_cr :
  stdFilter [x61; x0d; x62; x0a] [] = Some ([x61], []) /\
  ~ keepsFirstAndLast [x61; x0d; x62; x0a] [x61] /\
  stdFilter (list_byte_of_string "line1" ++ [x0d; x0a]
             ++ list_byte_of_string "line2" ++ [x0d; x0a]) []
  = Some (list_byte_of_string "line1line2", []) /\
  stdFilter [x31; x0d; x32; x0d; x0a] []
  = Some ([x31; x0a; x32; x0a], []).
Proof.
  split; [vm_compute; reflexivity|].
  split; [|split; vm_compute; reflexivity].
  intros [between Hout].
  change (nth 0 (pieces x0d [x61; x0d; x62; x0a]) []) with [x61] in Hout.
  change (List.last (pieces x0d [x61; x0d; x62; x0a]) []) with [x62; x0a] in Hout.
  apply (f_equal length) in Hout. rewrite !length_app in Hout. simpl in Hout. lia.
Qed.

(** ** Removing from the file system *)


Lemma Dir_snoc (p : path) (x : string) : Dir (p ++ [x]) = p.
Proof. unfold Dir. apply removelast_last. Qed.

Lemma os_Remove_ok (fs fs' : FS) (p : path) :
  os_Remove fs p = (fs', None) ->
  fs' = delete p fs /\ is_Some (fs !! p) /\ p <> [] /\ isEmpty fs p = true.
Proof.
  unfold os_Remove. destruct (fs !! p) as [k|] eqn:E; [|discriminate].
  destruct (decide (p = [])); [discriminate|].
  destruct (isEmpty fs p) eqn:Hempty; [|discriminate].
  intros [= <-]. eauto.
Qed.

Lemma os_Remove_error (fs fs' : FS) (p : path) (e : errno) :
  os_Remove fs p = (fs', Some e) ->
  fs' = fs /\
  match e with
  | ENOENT => fs !! p = None
  | EBUSY => p = []
  | ENOTEMPTY => is_Some (fs !! p) /\ isEmpty fs p = false
  end.
Proof.
  unfold os_Remove. destruct (fs !! p) as [k|] eqn:E.
  - destruct (decide (p = [])); [intros [= <- <-]; auto|].
    destruct (isEmpty fs p) eqn:Hempty; [discriminate|].
    intros [= <- <-]. eauto.
  - intros [= <- <-]. auto.
Qed.

Lemma isEmpty_mono (fs fs' : FS) (p : path) :
  (forall q, is_Some (fs' !! q) -> is_Some (fs !! q)) ->
  isEmpty fs p = true -> isEmpty fs' p = true.
Proof.
  unfold isEmpty. intros Hsub Hempty.
  apply bool_decide_eq_true in Hempty. apply bool_decide_eq_true.
  intros q k Hq. destruct (Hsub q) as [k' Hk']; [eauto|].
  exact (Hempty q k' Hk').
Qed.



(** *** rmEmptyDirs *)

(** *** Clean paths as strings *)

Lemma list_ascii_of_string_app (a b : string) :
  list_ascii_of_string (a +:+ b)
  = list_ascii_of_string a ++ list_ascii_of_string b.
Proof. induction a as [|c a IH]; [reflexivity|]. simpl. rewrite IH. reflexivity. Qed.

Lemma strings_Split_slash (s : string) :
  strings_Split s "/"
  = string_of_list_ascii <$> pieces "/"%char (list_ascii_of_string s).
Proof.
  unfold strings_Split. change (list_ascii_of_string "/") with ["/"%char].
  rewrite genSplit_pieces. reflexivity.
Qed.

Lemma properName_noSlash (p : path) :
  Forall properName p ->
  Forall (fun e => "/"%char ∉ list_ascii_of_string e) p.
Proof. intros Hp. eapply Forall_impl; [exact Hp|]. intros e (_ & _ & _ & He). exact He. Qed.

Lemma pieces_Join (p : path) :
  p <> [] -> Forall (fun e => "/"%char ∉ list_ascii_of_string e) p ->
  pieces "/"%char (list_ascii_of_string (strings_Join p "/"))
  = list_ascii_of_string <$> p.
Proof.
  induction p as [|e p IH]; [contradiction|]. intros _ Hall.
  apply Forall_cons in Hall as [He Hp]. destruct p as [|e' p].
  - simpl. apply pieces_notin. exact He.
  - change (strings_Join (e :: e' :: p) "/")
      with (e +:+ "/" +:+ strings_Join (e' :: p) "/").
    rewrite !list_ascii_of_string_app.
    change (list_ascii_of_string "/") with ["/"%char].
    change (["/"%char] ++ ?l) with ("/"%char :: l).
    rewrite pieces_app by exact He. rewrite IH by (discriminate || exact Hp).
    reflexivity.
Qed.

Lemma strings_Split_Join (p : path) :
  p <> [] -> Forall (fun e => "/"%char ∉ list_ascii_of_string e) p ->
  strings_Split (strings_Join p "/") "/" = p.
Proof.
  intros Hne Hall. rewrite strings_Split_slash, pieces_Join by assumption.
  rewrite <- list_fmap_compose. rewrite <- (list_fmap_id p) at 2.
  apply list_fmap_ext. intros i e _. simpl. apply string_of_list_ascii_of_string.
Qed.

Lemma strings_Split_render (p : path) :
  Forall (fun e => "/"%char ∉ list_ascii_of_string e) p ->
  strings_Split (render p) "/" = "" :: (if decide (p = []) then [""] else p).
Proof.
  intros Hall. unfold render. rewrite strings_Split_slash.
  rewrite list_ascii_of_string_app. change (list_ascii_of_string "/") with ["/"%char].
  simpl app. rewrite pieces_cons, decide_True by reflexivity.
  rewrite fmap_cons. f_equal. rewrite <- strings_Split_slash.
  destruct (decide (p = [])) as [->|Hne]; [reflexivity|].
  apply strings_Split_Join; assumption.
Qed.

Lemma cleanStep_proper (cur : path) (e : string) :
  properName e -> cleanStep cur e = cur ++ [e].
Proof.
  intros (H1 & H2 & H3 & _). unfold cleanStep.
  rewrite !decide_False by assumption. reflexivity.
Qed.

Lemma foldl_cleanStep_proper (p cur : path) :
  Forall properName p -> foldl cleanStep cur p = cur ++ p.
Proof.
  revert cur. induction p as [|e p IH]; intros cur Hall; simpl.
  - rewrite app_nil_r. reflexivity.
  - apply Forall_cons in Hall as [He Hp].
    rewrite cleanStep_proper by exact He. rewrite IH by exact Hp.
    rewrite <- app_assoc. reflexivity.
Qed.


Lemma dirPart_noSlash (b : list ascii) : "/"%char ∉ b -> dirPart b = [].
Proof.
  induction b as [|c b IH]; intros Hb; [reflexivity|].
  apply not_elem_of_cons in Hb as [Hc Hb]. cbn [dirPart]. rewrite IH by exact Hb.
  rewrite decide_False by congruence. reflexivity.
Qed.

Lemma dirPart_app (a b : list ascii) :
  "/"%char ∉ b -> dirPart (a ++ "/"%char :: b) = a ++ ["/"%char].
Proof.
  intros Hb. induction a as [|c a IH].
  - cbn [app dirPart]. rewrite dirPart_noSlash by exact Hb. reflexivity.
  - change ((c :: a) ++ "/"%char :: b) with (c :: (a ++ "/"%char :: b)).
    simpl dirPart. rewrite IH. destruct a; reflexivity.
Qed.

Lemma strings_Join_snoc (p : path) (x : string) :
  p <> [] ->
  list_ascii_of_string (strings_Join (p ++ [x]) "/")
  = list_ascii_of_string (strings_Join p "/") ++ "/"%char :: list_ascii_of_string x.
Proof.
  induction p as [|e p IH]; [contradiction|]. intros _.
  destruct p as [|e' p].
  - change (strings_Join ([e] ++ [x]) "/") with (e +:+ "/" +:+ x).
    rewrite !list_ascii_of_string_app. reflexivity.
  - change (strings_Join ((e :: e' :: p) ++ [x]) "/")
      with (e +:+ "/" +:+ strings_Join ((e' :: p) ++ [x]) "/").
    change (strings_Join (e :: e' :: p) "/")
      with (e +:+ "/" +:+ strings_Join (e' :: p) "/").
    rewrite !list_ascii_of_string_app, IH by discriminate.
    rewrite <- !app_assoc. reflexivity.
Qed.

Lemma render_snoc (p : path) (x : string) :
  list_ascii_of_string (render (p ++ [x]))
  = (if decide (p = []) then [] else list_ascii_of_string (render p))
    ++ "/"%char :: list_ascii_of_string x.
Proof.
  unfold render. destruct (decide (p = [])) as [->|Hne]; [reflexivity|].
  rewrite !list_ascii_of_string_app, strings_Join_snoc by exact Hne.
  rewrite <- app_assoc. reflexivity.
Qed.

Lemma filepath_Clean_render (p : path) :
  Forall properName p ->
  filepath_Clean
    (string_of_list_ascii
       ((if decide (p = []) then [] else list_ascii_of_string (render p))
        ++ ["/"%char]))
  = render p.
Proof.
  intros Hp. destruct (decide (p = [])) as [->|Hne]; [reflexivity|].
  unfold filepath_Clean.
  assert (Hrooted : rooted (string_of_list_ascii
                              (list_ascii_of_string (render p) ++ ["/"%char])) = true)
    by reflexivity.
  rewrite Hrooted. f_equal.
  rewrite strings_Split_slash, list_ascii_of_string_of_list_ascii.
  rewrite pieces_join. rewrite fmap_app, <- strings_Split_slash.
  rewrite strings_Split_render by (apply properName_noSlash; exact Hp).
  rewrite decide_False by exact Hne. simpl pieces. simpl fmap.
  change (foldl cleanStep [] (("" :: p) ++ [""])) with (foldl cleanStep [] (p ++ [""])).
  rewrite foldl_app, (foldl_cleanStep_proper p) by exact Hp. reflexivity.
Qed.

(** [filepath.Dir] of a clean path is the clean path without its last
    element, and the root is its own parent. *)
Lemma filepath_Dir_render (p : path) :
  Forall properName p -> filepath_Dir (render p) = render (Dir p).
Proof.
  intros Hp. destruct (decide (p = [])) as [->|Hne]; [reflexivity|].
  destruct (exists_last Hne) as (r & x & ->). rewrite Dir_snoc.
  apply Forall_app in Hp as [Hr Hx]. apply Forall_cons in Hx as [(_ & _ & _ & Hx) _].
  unfold filepath_Dir. rewrite render_snoc, dirPart_app by exact Hx.
  apply filepath_Clean_render. exact Hr.
Qed.

Lemma String_length_app (a b : string) :
  String.length (a +:+ b) = (String.length a + String.length b)%nat.
Proof. induction a as [|c a IH]; [reflexivity|]. simpl. rewrite IH. reflexivity. Qed.

Lemma render_length (p : path) :
  Forall properName p -> (length p <= String.length (render p))%nat.
Proof.
  intros Hp. unfold render. rewrite String_length_app. simpl String.length.
  induction p as [|e p IH]; [simpl; lia|].
  apply Forall_cons in Hp as [(He & _) Hp]. specialize (IH Hp).
  destruct p as [|e' p].
  - simpl. destruct e; [contradiction|simpl; lia].
  - change (strings_Join (e :: e' :: p) "/")
      with (e +:+ "/" +:+ strings_Join (e' :: p) "/").
    rewrite !String_length_app. simpl in *. lia.
Qed.

(** *** Removing by name *)




Lemma filter_all {A} (P : A -> Prop) `{forall x, Decision (P x)} (l : list A) :
  Forall P l -> filter P l = l.
Proof.
  induction 1 as [|x l Hx Hl IH]; [reflexivity|].
  rewrite filter_cons_True by exact Hx. rewrite IH. reflexivity.
Qed.

Lemma lastComponent_render (p : path) :
  Forall properName p ->
  lastComponent (strings_Split (render p) "/") <> "." /\
  lastComponent (strings_Split (render p) "/") <> "..".
Proof.
  intros Hp. rewrite strings_Split_render by (apply properName_noSlash; exact Hp).
  destruct (decide (p = [])) as [->|Hne]; [split; discriminate|].
  unfold lastComponent. rewrite filter_cons_False by (intros H; apply H; reflexivity).
  rewrite filter_all by (eapply Forall_impl; [exact Hp|]; intros e He; apply He).
  destruct (exists_last Hne) as (r & x & ->). rewrite last_snoc. simpl.
  apply Forall_app in Hp as [_ Hx]. apply Forall_cons in Hx as [(_ & H1 & H2 & _) _].
  split; assumption.
Qed.

Section RemoveName.
Variable wd : path.
Variable refuses : FS -> string -> option string.

Lemma lookupName_proper (fs : FS) (p : path) :
  forall cur : path,
  Forall properName p ->
  match lookupName fs cur p with
  | inl q =>
      q = cur ++ p /\
      forall k, (k < length p)%nat -> fs !! (cur ++ take k p) = Some Directory
  | inr e =>
      exists k, (k < length p)%nat /\
        ((e = ENOTDIR /\ fs !! (cur ++ take k p) = Some RegularFile) \/
         (e = Errno ENOENT /\ fs !! (cur ++ take k p) = None))
  end.
Proof.
  induction p as [|e p IH]; intros cur Hp.
  - simpl. split; [rewrite app_nil_r; reflexivity|]. intros k Hk. simpl in Hk. lia.
  - apply Forall_cons in Hp as [He Hp]. cbn [lookupName].
    destruct (fs !! cur) as [[|]|] eqn:E.
    + exists 0%nat. split; [simpl; lia|]. left. rewrite take_0, app_nil_r. auto.
    + rewrite cleanStep_proper by exact He. specialize (IH (cur ++ [e]) Hp).
      destruct (lookupName fs (cur ++ [e]) p) as [q|err].
      * destruct IH as [-> Hdirs]. split; [rewrite <- app_assoc; reflexivity|].
        intros [|k] Hk; [rewrite take_0, app_nil_r; exact E|].
        simpl in Hk. specialize (Hdirs k ltac:(lia)).
        rewrite <- app_assoc in Hdirs. exact Hdirs.
      * destruct IH as (k & Hk & Hcase). exists (S k). split; [simpl; lia|].
        rewrite <- app_assoc in Hcase. exact Hcase.
    + exists 0%nat. split; [simpl; lia|]. right. rewrite take_0, app_nil_r. auto.
Qed.

Lemma lookupName_render (fs : FS) (p : path) :
  Forall properName p ->
  match lookupName fs [] (strings_Split (render p) "/") with
  | inl q =>
      q = p /\ forall k, (k < length p)%nat -> fs !! take k p = Some Directory
  | inr e =>
      p = [] \/
      exists k, (k < length p)%nat /\
        ((e = ENOTDIR /\ fs !! take k p = Some RegularFile) \/
         (e = Errno ENOENT /\ fs !! take k p = None))
  end.
Proof.
  intros Hp. rewrite strings_Split_render by (apply properName_noSlash; exact Hp).
  destruct (decide (p = [])) as [->|Hne].
  - cbn [lookupName]. change (cleanStep [] "") with ([] : path).
    cbn [lookupName]. destruct (fs !! []) as [[|]|]; auto.
    split; [reflexivity|]. intros k Hk. simpl in Hk. lia.
  - assert (Hlen : (0 < length p)%nat) by (destruct p; [contradiction|simpl; lia]).
    cbn [lookupName]. destruct (fs !! []) as [[|]|] eqn:E.
    + right. exists 0%nat. rewrite take_0. auto.
    + change (cleanStep [] "") with ([] : path).
      pose proof (lookupName_proper fs p [] Hp) as Hlook.
      destruct (lookupName fs [] p) as [q|err]; [exact Hlook|right; exact Hlook].
    + right. exists 0%nat. rewrite take_0. auto.
Qed.

Lemma render_not_empty (p : path) : render p <> "".
Proof. unfold render. discriminate. Qed.

Lemma os_RemoveName_render (fs : FS) (p : path) :
  Forall properName p ->
  refuses fs (render p) = None ->
  os_RemoveName wd refuses fs (render p)
  = match lookupName fs [] (strings_Split (render p) "/") with
    | inr e => (fs, Some e)
    | inl q => let '(fs', e) := os_Remove fs q in (fs', Errno <$> e)
    end.
Proof.
  intros Hp Href. unfold os_RemoveName.
  rewrite decide_False by apply render_not_empty. rewrite Href.
  change (rooted (render p)) with true. cbn iota.
  destruct (lookupName fs [] (strings_Split (render p) "/")); [|reflexivity].
  destruct (lastComponent_render p Hp) as [H1 H2].
  rewrite !decide_False by assumption. reflexivity.
Qed.

(** A removal that fails leaves the file system as it is. *)
Lemma os_RemoveName_error (fs fs' : FS) (name : string) (e : syserror) :
  os_RemoveName wd refuses fs name = (fs', Some e) -> fs' = fs.
Proof.
  unfold os_RemoveName. destruct (decide (name = "")); [congruence|].
  destruct (refuses fs name); [congruence|].
  destruct (lookupName fs _ _) as [q|err]; [|congruence].
  destruct (decide _); [congruence|]. destruct (decide _); [congruence|].
  destruct (os_Remove fs q) as [fs1 [err|]] eqn:Hrm; [|discriminate].
  apply os_Remove_error in Hrm as [-> _]. congruence.
Qed.

(** A removal of a clean path that succeeds removed that very path, and
    every directory on the way to it was there. *)
Lemma os_RemoveName_ok (fs fs' : FS) (p : path) :
  Forall properName p ->
  os_RemoveName wd refuses fs (render p) = (fs', None) ->
  os_Remove fs p = (fs', None) /\
  forall k, (k < length p)%nat -> fs !! take k p = Some Directory.
Proof.
  intros Hp Hrm. destruct (refuses fs (render p)) as [t|] eqn:Href.
  - unfold os_RemoveName in Hrm. rewrite decide_False in Hrm by apply render_not_empty.
    rewrite Href in Hrm. discriminate.
  - rewrite os_RemoveName_render in Hrm by assumption.
    pose proof (lookupName_render fs p Hp) as Hlook.
    destruct (lookupName fs [] (strings_Split (render p) "/")) as [q|err];
      [|discriminate].
    destruct Hlook as [-> Hdirs]. split; [|exact Hdirs].
    destruct (os_Remove fs p) as [fs1 [err|]]; [discriminate|].
    injection Hrm as ->. reflexivity.
Qed.


Lemma parentsLoop_unfold (fuel : nat) (fs : FS) (current baseDir : string) :
  parentsLoop wd refuses fuel fs current baseDir
  = if decide (filepath_Dir current = baseDir) then Some fs
    else match fuel with
         | O => None
         | S fuel' =>
             match os_RemoveName wd refuses fs (filepath_Dir current) with
             | (_, Some _) => Some fs
             | (fs', None) =>
                 parentsLoop wd refuses fuel' fs' (filepath_Dir current) baseDir
             end
         end.
Proof. destruct fuel; reflexivity. Qed.




End RemoveName.

Lemma rmEmptyDirs_unfold (wd : path) (refuses : FS -> string -> option string)
    (fs fs1 : FS) (leafDir baseDir : string) (err : option syserror) :
  os_RemoveName wd refuses fs leafDir = (fs1, err) ->
  rmEmptyDirs wd refuses fs leafDir baseDir
  = match err with
    | Some e =>
        if IsNotExist e
        then fs'' ← parentsLoop wd refuses (S (S (String.length leafDir)))
                      fs1 leafDir baseDir;
             Some (fs'', None)
        else if strings_Contains (PathError_Error leafDir e) "directory not empty"
             then Some (fs, None)
             else Some (fs, Some (leafDir, e))
    | None =>
        fs'' ← parentsLoop wd refuses (S (S (String.length leafDir)))
                 fs1 leafDir baseDir;
        Some (fs'', None)
    end.
Proof. intros Hrm. unfold rmEmptyDirs. rewrite Hrm. destruct err; reflexivity. Qed.




(** * Further properties of the code *)

(** ** add.go: the jobs of a run *)

Section AddMore.
Variable ToMegabytes : string -> option Z.
Variable ParseDuration : string -> option Z.
Variable filepath_Base : string -> string.

Lemma Run_Ok fl w out :
  Run ToMegabytes ParseDuration filepath_Base fl w = Ok out ->
  exists df lines pwd pw st,
    checkOptions ToMegabytes ParseDuration (withRepGroup fl) = Ok df /\
    input w = Some lines /\
    (pw = 0 \/ pw = 1) /\
    (pw = 1 <-> serverStats w = Some false) /\
    scanLoop ToMegabytes ParseDuration filepath_Base (withRepGroup fl) df pwd
      (startState pw) lines = Ok st /\
    out = {| submitted := jobs st; usedDefaultRepGroup := defaultedRepG st;
             warned := warnings st |}.
Proof.
  unfold Run. fold (withRepGroup fl). intros Hrun.
  apply bind_Ok in Hrun as (df & Hdf & Hrun).
  apply bind_Ok in Hrun as (lines & Hlines & Hrun).
  destruct (input w) as [lines'|] eqn:Hin; [|discriminate].
  injection Hlines as ->.
  destruct (negb (connect1 w)); [discriminate|].
  apply bind_Ok in Hrun as ([pwd pw] & Hloc & Hrun).
  apply bind_Ok in Hrun as (st & Hscan & Hrun).
  destruct (negb (connect2 w)); [discriminate|].
  destruct (negb (addOk w)); [discriminate|].
  injection Hrun as <-.
  exists df, lines, pwd, pw, st.
  split; [exact Hdf|]. split; [reflexivity|].
  destruct (serverStats w) as [[|]|]; [| |discriminate].
  - destruct (getwd w); [|discriminate]. injection Hloc as <- <-.
    split; [left; reflexivity|]. split; [split; discriminate|].
    split; [exact Hscan|reflexivity].
  - injection Hloc as <- <-.
    split; [right; reflexivity|]. split; [split; reflexivity|].
    split; [exact Hscan|reflexivity].
Qed.

Lemma withRepGroup_flags fl :
  cmdOvr (withRepGroup fl) = cmdOvr fl /\ cmdPri (withRepGroup fl) = cmdPri fl /\
  cmdRet (withRepGroup fl) = cmdRet fl /\ cmdCPUs (withRepGroup fl) = cmdCPUs fl /\
  cmdCwd (withRepGroup fl) = cmdCwd fl.
Proof. unfold withRepGroup. destruct (decide _); repeat split; reflexivity. Qed.

(** What one line with a command does to the state of the loop. *)
Lemma processLine_Ok fl df pwd st st' line :
  processLine ToMegabytes ParseDuration filepath_Base fl df pwd st line = Ok st' ->
  skippedLine line = false ->
  let cols := strings_Split line TAB in
  exists job,
    jobs st' = jobs st ++ [job] /\
    Cmd job = firstColumn line /\
    CPUs job = match column cols 5 with
               | None => cpusDefault df
               | Some c => default 0 (Atoi c)
               end /\
    Retries job = uint8 (match column cols 8 with
                         | None => cmdRet fl
                         | Some c => default 0 (Atoi c)
                         end) /\
    ((pwdWarning st' = pwdWarning st /\ warnings st' = warnings st) \/
     (pwdWarning st = 1 /\ pwdWarning st' = 0 /\
      warnings st' = warnings st ++ [pwdWarningText] /\
      cmdCwd fl = "" /\ column cols 1 = None)).
Proof.
  intros Hrun Hskip cols. unfold processLine in Hrun. fold cols in Hrun.
  destruct (first_column_of_split line) as [rest Hsplit]. fold cols in Hsplit.
  rewrite skippedLine_firstColumn in Hskip.
  destruct cols as [|cmd cols'] eqn:Hcols; [discriminate|].
  injection Hsplit as -> ->. rewrite <- Hcols in *.
  rewrite Hskip in Hrun.
  replace (Z.of_nat (length cols) <? 1) with false in Hrun
    by (symmetry; apply Z.ltb_ge; rewrite Hcols; simpl length; lia).
  simpl orb in Hrun. cbv iota in Hrun.
  destruct (match column cols 1 with Some c => _ | None => _ end)
    as [[cwd pw] ws] eqn:Hcwd.
  apply bind_Ok in Hrun as (mb & _ & Hrun).
  apply bind_Ok in Hrun as (dur & _ & Hrun).
  apply bind_Ok in Hrun as ([cset cv] & Hcv & Hrun).
  apply bind_Ok in Hrun as ([oset ov] & Hov & Hrun). simpl in Hrun.
  destruct (oset && ((ov <? 0) || (ov >? 2))) eqn:Ho; [discriminate|].
  apply bind_Ok in Hrun as ([pset pv] & Hpv & Hrun). simpl in Hrun.
  destruct (pset && ((pv <? 0) || (pv >? 255))) eqn:Hp; [discriminate|].
  apply bind_Ok in Hrun as ([rset rv] & Hrv & Hrun). simpl in Hrun.
  destruct (rset && ((pv <? 0) || (pv >? 255))); [discriminate|].
  destruct (match column cols 9 with Some c => _ | None => _ end) as [repg drg].
  apply bind_Ok in Hrun as (deps & _ & [= <-]). simpl.
  eexists. split; [reflexivity|]. simpl.
  split; [reflexivity|].
  split.
  { unfold intColumn in Hcv. destruct (column cols 5); [|congruence].
    destruct (Atoi s); [|discriminate]. injection Hcv as _ <-. reflexivity. }
  split.
  { unfold intColumn in Hrv. destruct (column cols 8); [|congruence].
    destruct (Atoi s); [|discriminate]. injection Hrv as _ <-. reflexivity. }
  destruct (column cols 1) as [c|]; [left; injection Hcwd as _ <- <-; auto|].
  destruct (decide (cmdCwd fl = "")) as [Hc|Hc];
    [|left; injection Hcwd as _ <- <-; auto].
  destruct (Z.eqb_spec (pwdWarning st) 1) as [Hw|Hw];
    [|left; injection Hcwd as _ <- <-; auto].
  right. injection Hcwd as _ <- <-. auto.
Qed.

Lemma scanLoop_app fl df pwd (l1 l2 : list string) st :
  scanLoop ToMegabytes ParseDuration filepath_Base fl df pwd st (l1 ++ l2)
  = st1 ← scanLoop ToMegabytes ParseDuration filepath_Base fl df pwd st l1;
    scanLoop ToMegabytes ParseDuration filepath_Base fl df pwd st1 l2.
Proof.
  revert st. induction l1 as [|line l1 IH]; intros st; [reflexivity|].
  simpl. destruct (processLine _ _ _ fl df pwd st line); simpl; [apply IH|reflexivity].
Qed.

(** The commands of the jobs are the first columns of the lines that have
    one, in the order of the input. *)
Lemma scanLoop_commands fl df pwd lines :
  forall st st',
    scanLoop ToMegabytes ParseDuration filepath_Base fl df pwd st lines = Ok st' ->
    Cmd <$> jobs st'
    = (Cmd <$> jobs st)
      ++ (firstColumn <$> filter (fun l => skippedLine l = false) lines).
Proof.
  induction lines as [|line lines IH]; intros st st' Hrun.
  - injection Hrun as <-. simpl. rewrite app_nil_r. reflexivity.
  - simpl in Hrun. apply bind_Ok in Hrun as (st1 & Hline & Hrun).
    rewrite (IH st1 st' Hrun). rewrite filter_cons.
    destruct (skippedLine line) eqn:Hskip.
    + rewrite processLine_skipped in Hline by exact Hskip.
      injection Hline as <-. rewrite decide_False by discriminate. reflexivity.
    + rewrite decide_True by reflexivity.
      destruct (processLine_Ok fl df pwd st st1 line Hline Hskip)
        as (job & Hjobs & Hcmd & _).
      rewrite Hjobs, fmap_app, <- app_assoc. simpl. rewrite Hcmd. reflexivity.
Qed.

(** X1: a run that succeeds submits exactly one job for each line of the
    input that has a command (a non-empty first column), in the order of
    the lines, and the command of each job is the first column of its line. *)
Theorem one_job_per_command_line fl w out lines :
  input w = Some lines ->
  Run ToMegabytes ParseDuration filepath_Base fl w = Ok out ->
  Cmd <$> submitted out
  = firstColumn <$> filter (fun l => skippedLine l = false) lines.
Proof.
  intros Hin Hrun.
  apply Run_Ok in Hrun as (df & lines' & pwd & pw & st & _ & Hin' & _ & _ & Hscan & ->).
  rewrite Hin in Hin'. injection Hin' as <-.
  apply scanLoop_commands in Hscan. exact Hscan.
Qed.

Lemma processLine_warning fl df pwd st st' line :
  processLine ToMegabytes ParseDuration filepath_Base fl df pwd st line = Ok st' ->
  if (pwdWarning st =? 1) && bool_decide (cmdCwd fl = "") && needsPwd line
  then pwdWarning st' = 0 /\ warnings st' = warnings st ++ [pwdWarningText]
  else pwdWarning st' = pwdWarning st /\ warnings st' = warnings st.
Proof.
  intros Hrun. unfold needsPwd. destruct (skippedLine line) eqn:Hskip.
  - rewrite processLine_skipped in Hrun by exact Hskip. injection Hrun as <-.
    rewrite andb_false_r. auto.
  - destruct (processLine_Ok fl df pwd st st' line Hrun Hskip)
      as (job & _ & _ & _ & _ & Hw). simpl negb. rewrite andb_true_l.
    destruct Hw as [[Hp Hw]|(Hp & Hp' & Hw & Hc & Hcol)].
    + destruct (Z.eqb_spec (pwdWarning st) 1) as [H1|H1]; [|simpl; auto].
      destruct (bool_decide (cmdCwd fl = "")) eqn:Hc; [|simpl; auto].
      destruct (bool_decide (column (strings_Split line TAB) 1 = None)) eqn:Hcol;
        [|simpl; auto].
      exfalso. apply bool_decide_eq_true in Hc, Hcol.
      (* the warning was due: the first alternative cannot be *)
      revert Hrun. unfold processLine.
      destruct (first_column_of_split line) as [rest Hsplit].
      rewrite skippedLine_firstColumn in Hskip. rewrite Hsplit in Hcol |- *.
      rewrite Hskip.
      replace (Z.of_nat (length (firstColumn line :: rest)) <? 1) with false
        by (symmetry; apply Z.ltb_ge; simpl length; lia).
      simpl orb. cbv iota. rewrite Hcol. rewrite decide_True by exact Hc.
      rewrite H1. simpl Z.eqb. cbv iota.
      intros Hrun.
      apply bind_Ok in Hrun as (mb & _ & Hrun).
      apply bind_Ok in Hrun as (dur & _ & Hrun).
      apply bind_Ok in Hrun as (cpus & _ & Hrun).
      apply bind_Ok in Hrun as (ov & _ & Hrun).
      destruct (ov.1 && _); [discriminate|].
      apply bind_Ok in Hrun as (pv & _ & Hrun).
      destruct (pv.1 && _); [discriminate|].
      apply bind_Ok in Hrun as (rv & _ & Hrun).
      destruct (rv.1 && _); [discriminate|].
      destruct (match column _ 9 with Some c => _ | None => _ end) as [repg drg].
      apply bind_Ok in Hrun as (deps & _ & [= <-]). simpl in Hp. lia.
    + rewrite Hp. simpl Z.eqb. rewrite bool_decide_true by exact Hc.
      rewrite bool_decide_true by exact Hcol. simpl. auto.
Qed.

Lemma scanLoop_warning fl df pwd lines :
  forall st st',
    scanLoop ToMegabytes ParseDuration filepath_Base fl df pwd st lines = Ok st' ->
    pwdWarning st = 0 \/ pwdWarning st = 1 ->
    if (pwdWarning st =? 1) && bool_decide (cmdCwd fl = "") && existsb needsPwd lines
    then pwdWarning st' = 0 /\ warnings st' = warnings st ++ [pwdWarningText]
    else pwdWarning st' = pwdWarning st /\ warnings st' = warnings st.
Proof.
  induction lines as [|line lines IH]; intros st st' Hrun Hpw.
  - injection Hrun as <-. simpl. rewrite andb_false_r. auto.
  - simpl in Hrun. apply bind_Ok in Hrun as (st1 & Hline & Hrun).
    apply processLine_warning in Hline. simpl existsb.
    destruct ((pwdWarning st =? 1) && bool_decide (cmdCwd fl = "")) eqn:Hdue.
    + simpl in Hline |- *. destruct (needsPwd line).
      * destruct Hline as [Hp1 Hw1]. simpl.
        specialize (IH st1 st' Hrun (or_introl Hp1)).
        rewrite Hp1 in IH. simpl in IH. destruct IH as [Hp Hw].
        split; [exact Hp|rewrite Hw, Hw1; reflexivity].
      * destruct Hline as [Hp1 Hw1]. simpl.
        specialize (IH st1 st' Hrun ltac:(rewrite Hp1; exact Hpw)).
        rewrite Hp1 in IH. rewrite Hdue in IH. simpl in IH.
        rewrite Hw1 in IH. exact IH.
    + simpl in Hline |- *. destruct Hline as [Hp1 Hw1].
      specialize (IH st1 st' Hrun ltac:(rewrite Hp1; exact Hpw)).
      rewrite Hp1 in IH. rewrite Hdue in IH. simpl in IH.
      rewrite Hw1 in IH. exact IH.
Qed.

(** X3: in a run that succeeds (no line is rejected and the jobs are
    handed over), the warning that working directories default to /tmp has
    been printed once when the manager runs on another host, the --cwd flag
    is empty and some line with a command leaves its cwd column empty, and
    not at all otherwise. *)
Theorem warning_printed_once fl w out lines :
  input w = Some lines ->
  Run ToMegabytes ParseDuration filepath_Base fl w = Ok out ->
  warned out
  = if bool_decide (serverStats w = Some false)
       && bool_decide (cmdCwd fl = "") && existsb needsPwd lines
    then [pwdWarningText] else [].
Proof.
  intros Hin Hrun.
  apply Run_Ok in Hrun
    as (df & lines' & pwd & pw & st & _ & Hin' & Hpw & Hremote & Hscan & ->).
  rewrite Hin in Hin'. injection Hin' as <-.
  apply scanLoop_warning in Hscan; [|simpl; tauto].
  destruct (withRepGroup_flags fl) as (_ & _ & _ & _ & Hcwd).
  rewrite Hcwd in Hscan. simpl in Hscan |- *.
  destruct (bool_decide (serverStats w = Some false)) eqn:Hs.
  - apply bool_decide_eq_true in Hs. apply Hremote in Hs. subst pw.
    simpl in Hscan |- *. destruct (bool_decide (cmdCwd fl = "") && existsb needsPwd lines);
      apply Hscan.
  - apply bool_decide_eq_false in Hs.
    assert (Hpw0 : pw = 0) by (destruct Hpw as [?|H1]; [assumption|apply Hremote in H1; contradiction]).
    subst pw. simpl in Hscan |- *. apply Hscan.
Qed.

Lemma checkOptions_cpus fl df :
  checkOptions ToMegabytes ParseDuration fl = Ok df ->
  cpusDefault df = Z.max 1 (cmdCPUs fl).
Proof.
  unfold checkOptions. destruct (decide (cmdFile fl = "")); [discriminate|].
  intros Hrun.
  apply bind_Ok in Hrun as (mb & _ & Hrun).
  apply bind_Ok in Hrun as (dur & _ & Hrun).
  cbv zeta in Hrun.
  destruct ((cmdOvr fl <? 0) || (cmdOvr fl >? 2)); [discriminate|].
  destruct ((cmdPri fl <? 0) || (cmdPri fl >? 255)); [discriminate|].
  destruct ((cmdRet fl <? 0) || (cmdRet fl >? 255)); [discriminate|].
  apply bind_Ok in Hrun as (deps & _ & [= <-]). simpl.
  destruct (Z.ltb_spec (cmdCPUs fl) 1); lia.
Qed.

Lemma scanLoop_jobs fl df pwd lines :
  forall st st',
    scanLoop ToMegabytes ParseDuration filepath_Base fl df pwd st lines = Ok st' ->
    exists new,
      jobs st' = jobs st ++ new /\
      Forall2 (jobOfLine fl df) (filter (fun l => skippedLine l = false) lines) new.
Proof.
  induction lines as [|line lines IH]; intros st st' Hrun.
  - injection Hrun as <-. exists []. rewrite app_nil_r. split; [reflexivity|constructor].
  - simpl in Hrun. apply bind_Ok in Hrun as (st1 & Hline & Hrun).
    destruct (IH st1 st' Hrun) as (new & Hjobs & Hnew).
    rewrite filter_cons. destruct (skippedLine line) eqn:Hskip.
    + rewrite processLine_skipped in Hline by exact Hskip.
      injection Hline as <-. rewrite decide_False by discriminate.
      exists new. auto.
    + rewrite decide_True by reflexivity.
      destruct (processLine_Ok fl df pwd st st1 line Hline Hskip)
        as (job & Hjob & Hcmd & Hcpus & Hret & _).
      exists (job :: new). split.
      * rewrite Hjobs, Hjob, <- app_assoc. reflexivity.
      * constructor; [|exact Hnew]. unfold jobOfLine. auto.
Qed.

(** X2: in a run that succeeds, the job of each line with a command has as
    CPUs the number in the cpus column when that column is set, and the
    --cpus flag raised to at least 1 otherwise; as retries the number in the
    retries column reduced modulo 256 when that column is set, and the
    --retries flag otherwise. *)
Theorem jobs_follow_lines fl w out lines :
  input w = Some lines ->
  Run ToMegabytes ParseDuration filepath_Base fl w = Ok out ->
  Forall2
    (fun line job =>
       let cols := strings_Split line TAB in
       Cmd job = firstColumn line /\
       CPUs job = match column cols 5 with
                  | None => Z.max 1 (cmdCPUs fl)
                  | Some c => default 0 (Atoi c)
                  end /\
       Retries job = match column cols 8 with
                     | None => cmdRet fl
                     | Some c => default 0 (Atoi c) mod 256
                     end)
    (filter (fun l => skippedLine l = false) lines) (submitted out).
Proof.
  intros Hin Hrun.
  apply Run_Ok in Hrun
    as (df & lines' & pwd & pw & st & Hdf & Hin' & _ & _ & Hscan & ->).
  rewrite Hin in Hin'. injection Hin' as <-.
  apply scanLoop_jobs in Hscan as (new & Hjobs & Hnew). simpl in Hjobs |- *.
  subst new. eapply Forall2_impl; [exact Hnew|].
  intros line job (Hcmd & Hcpus & Hret). cbv zeta.
  pose proof (checkOptions_cpus _ _ Hdf) as Hc.
  apply checkOptions_range in Hdf as (_ & _ & Hr & _).
  destruct (withRepGroup_flags fl) as (_ & _ & Hret' & Hcpus' & _).
  rewrite Hret' in Hr, Hret. rewrite Hcpus' in Hc. rewrite Hc in Hcpus.
  split; [exact Hcmd|]. split; [exact Hcpus|].
  rewrite Hret. destruct (column (strings_Split line TAB) 8); [reflexivity|].
  apply uint8_small. exact Hr.
Qed.

(** X4: an --override outside 0..2, a --priority outside 0..255 or a
    --retries outside 0..255 makes the run die, with the same message
    whatever the input and the manager: nothing is read and nothing is
    submitted. *)
Theorem flags_out_of_range_rejected fl :
  cmdOvr fl < 0 \/ 2 < cmdOvr fl \/ cmdPri fl < 0 \/ 255 < cmdPri fl \/
  cmdRet fl < 0 \/ 255 < cmdRet fl ->
  exists msg, forall w, Run ToMegabytes ParseDuration filepath_Base fl w = Die msg.
Proof.
  intros Hbad.
  destruct (checkOptions ToMegabytes ParseDuration (withRepGroup fl)) as [df|msg] eqn:Hdf.
  - exfalso. apply checkOptions_range in Hdf as (Ho & Hp & Hr & _).
    destruct (withRepGroup_flags fl) as (Eo & Ep & Er & _).
    rewrite Eo in Ho. rewrite Ep in Hp. rewrite Er in Hr. lia.
  - exists msg. intros w. unfold Run. fold (withRepGroup fl). rewrite Hdf. reflexivity.
Qed.

Lemma bind_Die {A B : Type} (r : result A) (k : A -> result B) :
  (exists msg, r = Die msg) \/ (forall a, exists msg, k a = Die msg) ->
  exists msg, r ≫= k = Die msg.
Proof.
  intros [[msg ->]|Hk]; [exists msg; reflexivity|].
  destruct r as [a|msg]; [apply Hk|exists msg; reflexivity].
Qed.

Lemma intColumn_bad cols i d msg lo hi sv :
  badNumber cols i lo hi ->
  intColumn cols i d msg = Ok sv ->
  sv.1 = true /\ (sv.2 < lo \/ hi < sv.2).
Proof.
  intros (c & Hc & Hv). unfold intColumn. rewrite Hc.
  destruct (Atoi c) as [v|]; [|discriminate]. intros [= <-]. auto.
Qed.

Lemma processLine_rejects fl df pwd st line :
  skippedLine line = false ->
  badNumber (strings_Split line TAB) 6 0 2 \/
  badNumber (strings_Split line TAB) 7 0 255 ->
  exists msg,
    processLine ToMegabytes ParseDuration filepath_Base fl df pwd st line = Die msg.
Proof.
  intros Hskip Hbad.
  destruct (processLine ToMegabytes ParseDuration filepath_Base fl df pwd st line)
    as [st'|msg] eqn:Hrun; [exfalso|eauto].
  revert Hrun. unfold processLine.
  destruct (first_column_of_split line) as [rest Hsplit].
  rewrite skippedLine_firstColumn in Hskip.
  set (cols := strings_Split line TAB) in *. rewrite Hsplit. rewrite <- Hsplit.
  rewrite Hskip.
  replace (Z.of_nat (length cols) <? 1) with false
    by (symmetry; apply Z.ltb_ge; rewrite Hsplit; simpl length; lia).
  simpl orb. cbv iota.
  destruct (match column cols 1 with Some c => _ | None => _ end) as [[cwd pw] ws].
  intros Hrun.
  apply bind_Ok in Hrun as (mb & _ & Hrun).
  apply bind_Ok in Hrun as (dur & _ & Hrun).
  apply bind_Ok in Hrun as (cpus & _ & Hrun).
  apply bind_Ok in Hrun as (ov & Hov & Hrun).
  destruct (ov.1 && ((ov.2 <? 0) || (ov.2 >? 2))) eqn:Ho; [discriminate|].
  apply bind_Ok in Hrun as (pv & Hpv & Hrun).
  destruct (pv.1 && ((pv.2 <? 0) || (pv.2 >? 255))) eqn:Hp; [discriminate|].
  destruct Hbad as [Hbad|Hbad].
  - destruct (intColumn_bad _ _ _ _ _ _ _ Hbad Hov) as [H1 H2].
    rewrite H1 in Ho. simpl in Ho. apply orb_false_iff in Ho as [Ho1 Ho2].
    rewrite Z.gtb_ltb in Ho2. apply Z.ltb_ge in Ho1, Ho2. lia.
  - destruct (intColumn_bad _ _ _ _ _ _ _ Hbad Hpv) as [H1 H2].
    rewrite H1 in Hp. simpl in Hp. apply orb_false_iff in Hp as [Hp1 Hp2].
    rewrite Z.gtb_ltb in Hp2. apply Z.ltb_ge in Hp1, Hp2. lia.
Qed.

Lemma scanLoop_rejects fl df pwd lines line :
  line ∈ lines ->
  skippedLine line = false ->
  badNumber (strings_Split line TAB) 6 0 2 \/
  badNumber (strings_Split line TAB) 7 0 255 ->
  forall st, exists msg,
    scanLoop ToMegabytes ParseDuration filepath_Base fl df pwd st lines = Die msg.
Proof.
  intros Hin Hskip Hbad. induction lines as [|l lines IH]; intros st.
  - apply elem_of_nil in Hin. contradiction.
  - simpl. apply elem_of_cons in Hin as [<-|Hin].
    + destruct (processLine_rejects fl df pwd st line Hskip Hbad) as [msg ->].
      exists msg. reflexivity.
    + destruct (processLine _ _ _ fl df pwd st l) as [st1|msg];
        [apply (IH Hin)|exists msg; reflexivity].
Qed.

(** X5: one line with a command whose override column is set and is not a
    number in 0..2, or whose priority column is set and is not a number in
    0..255, makes the whole run die: no job of any line is submitted. *)
Theorem bad_column_rejects_run fl w lines line :
  input w = Some lines ->
  line ∈ lines ->
  skippedLine line = false ->
  badNumber (strings_Split line TAB) 6 0 2 \/
  badNumber (strings_Split line TAB) 7 0 255 ->
  exists msg, Run ToMegabytes ParseDuration filepath_Base fl w = Die msg.
Proof.
  intros Hin Hline Hskip Hbad.
  destruct (Run ToMegabytes ParseDuration filepath_Base fl w) as [out|msg] eqn:Hrun;
    [exfalso|eauto].
  apply Run_Ok in Hrun
    as (df & lines' & pwd & pw & st & _ & Hin' & _ & _ & Hscan & _).
  rewrite Hin in Hin'. injection Hin' as <-.
  destruct (scanLoop_rejects (withRepGroup fl) df pwd lines line Hline Hskip Hbad
              (startState pw)) as [msg Hdie].
  rewrite Hdie in Hscan. discriminate.
Qed.

(** X6: a run that succeeds had its --override, --priority and --retries
    flags in their ranges, and every job it submits has an override in 0..2
    and a priority in 0..255. *)
Theorem submitted_jobs_checked fl w out :
  Run ToMegabytes ParseDuration filepath_Base fl w = Ok out ->
  (0 <= cmdOvr fl <= 2 /\ 0 <= cmdPri fl <= 255 /\ 0 <= cmdRet fl <= 255) /\
  Forall (fun job => 0 <= Override job <= 2 /\ 0 <= Priority job <= 255)
    (submitted out).
Proof.
  intros Hrun.
  apply Run_Ok in Hrun as (df & lines & pwd & pw & st & Hdf & _ & _ & _ & Hscan & ->).
  apply checkOptions_range in Hdf as (Ho & Hp & Hr & _).
  destruct (withRepGroup_flags fl) as (Eo & Ep & Er & _).
  split; [rewrite <- Eo, <- Ep, <- Er; auto|].
  exact (scanLoop_checked ToMegabytes ParseDuration filepath_Base
           (withRepGroup fl) df pwd lines Ho Hp (startState pw) st Hscan
           (Forall_nil_2 _)).
Qed.
End AddMore.

Lemma one_job_per_command_line_witness :
  input (remoteManager ["echo hi"; ""; tabbed ["ls"; "/data"]])
  = Some ["echo hi"; ""; tabbed ["ls"; "/data"]] /\
  exists out,
    Run (fun _ => None) (fun _ => None) (fun s => s) plainFlags
      (remoteManager ["echo hi"; ""; tabbed ["ls"; "/data"]]) = Ok out /\
    Cmd <$> submitted out = ["echo hi"; "ls"].
Proof.
  split; [reflexivity|]. eexists. split; [vm_compute; reflexivity|].
  apply (one_job_per_command_line (fun _ => None) (fun _ => None) (fun s => s)
           plainFlags (remoteManager ["echo hi"; ""; tabbed ["ls"; "/data"]])
           _ ["echo hi"; ""; tabbed ["ls"; "/data"]]);
    [reflexivity|vm_compute; reflexivity].
Defined.

Lemma jobs_follow_lines_witness :
  input (remoteManager
           [tabbed ["echo hi"; ""; "grp"; ""; ""; "4"; ""; ""; "300"]])
  = Some [tabbed ["echo hi"; ""; "grp"; ""; ""; "4"; ""; ""; "300"]] /\
  exists out,
    Run (fun _ => None) (fun _ => None) (fun s => s) plainFlags
      (remoteManager
         [tabbed ["echo hi"; ""; "grp"; ""; ""; "4"; ""; ""; "300"]])
    = Ok out /\
    Forall2
      (fun line job =>
         let cols := strings_Split line TAB in
         Cmd job = firstColumn line /\
         CPUs job = match column cols 5 with
                    | None => Z.max 1 (cmdCPUs plainFlags)
                    | Some c => default 0 (Atoi c)
                    end /\
         Retries job = match column cols 8 with
                       | None => cmdRet plainFlags
                       | Some c => default 0 (Atoi c) mod 256
                       end)
      (filter (fun l => skippedLine l = false)
         [tabbed ["echo hi"; ""; "grp"; ""; ""; "4"; ""; ""; "300"]])
      (submitted out).
Proof.
  split; [reflexivity|]. eexists. split; [vm_compute; reflexivity|].
  apply (jobs_follow_lines (fun _ => None) (fun _ => None) (fun s => s)
           plainFlags
           (remoteManager
              [tabbed ["echo hi"; ""; "grp"; ""; ""; "4"; ""; ""; "300"]]));
    [reflexivity|vm_compute; reflexivity].
Defined.

Lemma warning_printed_once_witness :
  input (remoteManager ["echo hi"; "ls"]) = Some ["echo hi"; "ls"] /\
  exists out,
    Run (fun _ => None) (fun _ => None) (fun s => s)
      {| reqGroup := ""; cmdTime := ""; cmdMem := ""; cmdCPUs := 1;
         cmdOvr := 0; cmdPri := 0; cmdRet := 3; cmdFile := "-";
         cmdRepGroup := "manually_added"; cmdDepGroups := ""; cmdDeps := "";
         cmdCwd := "" |}
      (remoteManager ["echo hi"; "ls"]) = Ok out /\
    warned out = [pwdWarningText].
Proof.
  split; [reflexivity|]. eexists. split; [vm_compute; reflexivity|].
  apply (warning_printed_once (fun _ => None) (fun _ => None) (fun s => s)
           {| reqGroup := ""; cmdTime := ""; cmdMem := ""; cmdCPUs := 1;
              cmdOvr := 0; cmdPri := 0; cmdRet := 3; cmdFile := "-";
              cmdRepGroup := "manually_added"; cmdDepGroups := "";
              cmdDeps := ""; cmdCwd := "" |}
           (remoteManager ["echo hi"; "ls"]) _ ["echo hi"; "ls"]);
    [reflexivity|vm_compute; reflexivity].
Defined.

Lemma flags_out_of_range_rejected_witness :
  2 < cmdOvr {| reqGroup := ""; cmdTime := ""; cmdMem := ""; cmdCPUs := 1;
                cmdOvr := 3; cmdPri := 0; cmdRet := 3; cmdFile := "-";
                cmdRepGroup := "manually_added"; cmdDepGroups := "";
                cmdDeps := ""; cmdCwd := "/work" |} /\
  exists msg, forall w,
    Run (fun _ => None) (fun _ => None) (fun s => s)
      {| reqGroup := ""; cmdTime := ""; cmdMem := ""; cmdCPUs := 1;
         cmdOvr := 3; cmdPri := 0; cmdRet := 3; cmdFile := "-";
         cmdRepGroup := "manually_added"; cmdDepGroups := ""; cmdDeps := "";
         cmdCwd := "/work" |} w = Die msg.
Proof.
  assert (Hovr : 2 < cmdOvr {| reqGroup := ""; cmdTime := ""; cmdMem := "";
                               cmdCPUs := 1; cmdOvr := 3; cmdPri := 0;
                               cmdRet := 3; cmdFile := "-";
                               cmdRepGroup := "manually_added";
                               cmdDepGroups := ""; cmdDeps := "";
                               cmdCwd := "/work" |}) by reflexivity.
  split; [exact Hovr|].
  apply (flags_out_of_range_rejected (fun _ => None) (fun _ => None) (fun s => s)).
  right. left. exact Hovr.
Defined.

Lemma bad_column_rejects_run_witness :
  input (remoteManager
           ["ls"; tabbed ["echo hi"; ""; "grp"; ""; ""; ""; "7"]])
  = Some ["ls"; tabbed ["echo hi"; ""; "grp"; ""; ""; ""; "7"]] /\
  tabbed ["echo hi"; ""; "grp"; ""; ""; ""; "7"]
  ∈ ["ls"; tabbed ["echo hi"; ""; "grp"; ""; ""; ""; "7"]] /\
  skippedLine (tabbed ["echo hi"; ""; "grp"; ""; ""; ""; "7"]) = false /\
  badNumber
    (strings_Split (tabbed ["echo hi"; ""; "grp"; ""; ""; ""; "7"]) TAB)
    6 0 2 /\
  exists msg,
    Run (fun _ => None) (fun _ => None) (fun s => s) plainFlags
      (remoteManager ["ls"; tabbed ["echo hi"; ""; "grp"; ""; ""; ""; "7"]])
    = Die msg.
Proof.
  assert (Hin : tabbed ["echo hi"; ""; "grp"; ""; ""; ""; "7"]
                ∈ ["ls"; tabbed ["echo hi"; ""; "grp"; ""; ""; ""; "7"]])
    by (right; left).
  assert (Hbad : badNumber
            (strings_Split (tabbed ["echo hi"; ""; "grp"; ""; ""; ""; "7"]) TAB)
            6 0 2)
    by (exists "7"; split; [reflexivity|right; reflexivity]).
  split; [reflexivity|]. split; [exact Hin|]. split; [reflexivity|].
  split; [exact Hbad|].
  apply (bad_column_rejects_run (fun _ => None) (fun _ => None) (fun s => s)
           plainFlags
           (remoteManager ["ls"; tabbed ["echo hi"; ""; "grp"; ""; ""; ""; "7"]])
           ["ls"; tabbed ["echo hi"; ""; "grp"; ""; ""; ""; "7"]]
           (tabbed ["echo hi"; ""; "grp"; ""; ""; ""; "7"]));
    [reflexivity|exact Hin|reflexivity|left; exact Hbad].
Defined.

Lemma submitted_jobs_checked_witness :
  exists out,
    Run (fun _ => None) (fun _ => None) (fun s => s) plainFlags
      (remoteManager [tabbed ["echo hi"; ""; "grp"; ""; ""; ""; "2"; "9"]])
    = Ok out /\
    Forall (fun job => 0 <= Override job <= 2 /\ 0 <= Priority job <= 255)
      (submitted out).
Proof.
  eexists. split; [vm_compute; reflexivity|].
  apply (submitted_jobs_checked (fun _ => None) (fun _ => None) (fun s => s)
           plainFlags
           (remoteManager [tabbed ["echo hi"; ""; "grp"; ""; ""; ""; "2"; "9"]])).
  vm_compute. reflexivity.
Defined.

(** ** colsToDeps and prefixSuffixSaver *)

Lemma strings_Split_comma_nonempty (s : string) :
  (1 <= length (strings_Split s ","))%nat.
Proof.
  unfold strings_Split. rewrite length_fmap.
  change (list_ascii_of_string ",") with [","%char].
  rewrite genSplit_pieces. apply pieces_nonempty.
Qed.

Lemma pairDeps_length (cols : list string) :
  Nat.even (length cols) = true -> (length cols <= 2 * length (pairDeps cols))%nat.
Proof.
  induction cols as [|x|x y cols IH] using pair_ind; intros Heven.
  - simpl. lia.
  - discriminate.
  - simpl pairDeps. rewrite length_app. simpl length.
    specialize (IH Heven).
    destruct (decide (y = "groups")).
    + rewrite length_fmap. pose proof (strings_Split_comma_nonempty x). lia.
    + simpl. lia.
Qed.

Lemma pairDeps_app (a b : list string) :
  Nat.even (length a) = true -> pairDeps (a ++ b) = pairDeps a ++ pairDeps b.
Proof.
  induction a as [|x|x y a IH] using pair_ind; intros Heven.
  - reflexivity.
  - discriminate.
  - simpl. rewrite IH by exact Heven. rewrite app_assoc. reflexivity.
Qed.

(** X7: [colsToDeps] panics (index out of range) exactly on an odd number
    of columns; on an even number it returns at least one dependency for
    each pair of columns. *)
Theorem colsToDeps_odd_panics (cols : list string) :
  (colsToDeps cols = None <-> Nat.odd (length cols) = true) /\
  (forall deps,
     colsToDeps cols = Some deps -> (length cols <= 2 * length deps)%nat).
Proof.
  rewrite colsToDeps_pairs. rewrite <- Nat.negb_even.
  destruct (Nat.even (length cols)) eqn:Heven; simpl.
  - split; [split; discriminate|]. intros deps [= <-].
    apply pairDeps_length. exact Heven.
  - split; [split; reflexivity|]. discriminate.
Qed.

(** X8: [colsToDeps] reads its columns pair by pair: the dependencies of two
    lists of columns put one after the other are the dependencies of the
    first followed by those of the second. *)
Theorem colsToDeps_app (a b : list string) (da db : list Dependency) :
  colsToDeps a = Some da -> colsToDeps b = Some db ->
  colsToDeps (a ++ b) = Some (da ++ db).
Proof.
  rewrite !colsToDeps_pairs, length_app, Nat.even_add.
  destruct (Nat.even (length a)) eqn:Ha; [|discriminate].
  destruct (Nat.even (length b)) eqn:Hb; [|discriminate].
  intros [= <-] [= <-]. simpl. rewrite pairDeps_app by exact Ha. reflexivity.
Qed.


Lemma saved_bounds (k : nat) (w : prefixSuffixSaver) (data : list byte) :
  saved k w data ->
  (length (prefix w) <= k)%nat /\ (length (suffix w) <= k)%nat.
Proof.
  intros Hsaved. pose proof (saved_suffix_length k w data Hsaved) as Hs.
  destruct Hsaved as (_ & Hpre & _). rewrite Hpre, length_take. lia.
Qed.

(** X9: whatever is written to a saver of bound [n >= 1], no write panics,
    the saver never holds more than [n] bytes of prefix and [n] bytes of
    suffix, its offset stays inside the suffix buffer, and [skipped] counts
    exactly the bytes beyond the [2 n] kept. *)
Theorem saver_storage_bounded (n : Z) (ps : list (list byte)) :
  0 < n ->
  exists w,
    Writes (newSaver n) ps = Some w /\
    N w = n /\ len (prefix w) <= n /\ len (suffix w) <= n /\
    0 <= suffixOff w < n /\
    skipped w = Z.max 0 (len (concat ps) - 2 * n).
Proof.
  intros Hn.
  assert (exists k, n = Z.of_nat k /\ (0 < k)%nat) as (k & -> & Hk)
    by (exists (Z.to_nat n); lia).
  destruct (Writes_saved k ps Hk (newSaver (Z.of_nat k)) [] (newSaver_saved k Hk))
    as (w & Hw & Hsaved).
  exists w. split; [exact Hw|]. simpl in Hsaved.
  destruct (saved_bounds k w _ Hsaved) as [Hp Hs].
  destruct Hsaved as (HN & _ & Hoff & _ & Hskip & _).
  unfold len. repeat split; try lia.
Qed.

(** X10: what [Bytes] returns depends only on the bytes written, not on
    how they were cut into calls of [Write]. *)
Theorem saver_ignores_write_boundaries (n : Z) (ps ps' : list (list byte)) :
  0 < n -> concat ps = concat ps' ->
  Writes (newSaver n) ps ≫= Bytes = Writes (newSaver n) ps' ≫= Bytes.
Proof.
  intros Hn Heq.
  assert (exists k, n = Z.of_nat k /\ (0 < k)%nat) as (k & -> & Hk)
    by (exists (Z.to_nat n); lia).
  destruct (Writes_saved k ps Hk (newSaver (Z.of_nat k)) [] (newSaver_saved k Hk))
    as (w & Hw & Hsaved).
  destruct (Writes_saved k ps' Hk (newSaver (Z.of_nat k)) [] (newSaver_saved k Hk))
    as (w' & Hw' & Hsaved').
  rewrite Hw, Hw'. simpl in *.
  rewrite (Bytes_saved k w _ Hk Hsaved), (Bytes_saved k w' _ Hk Hsaved'), Heq.
  reflexivity.
Qed.

Lemma Write_zero (w : prefixSuffixSaver) (p : list byte) :
  N w = 0 -> prefix w = [] -> suffix w = [] ->
  Write w p = Some {| N := 0; prefix := []; suffix := []; suffixOff := suffixOff w;
                      skipped := skipped w + len p |}.
Proof.
  destruct w as [n pre suf off sk]. simpl. intros -> -> ->.
  unfold Write, fill, len. simpl.
  destruct p as [|c p]; [simpl; rewrite Z.add_0_r; reflexivity|].
  replace (Z.of_nat (length (c :: p)) - 0 >? 0) with true
    by (symmetry; rewrite Z.gtb_ltb; apply Z.ltb_lt; simpl length; lia).
  replace (Z.of_nat (length (c :: p)) - 0 >? Z.of_nat (length (c :: p))) with false
    by (symmetry; rewrite Z.gtb_ltb; apply Z.ltb_ge; lia).
  simpl andb. cbv iota.
  replace (Z.to_nat (Z.of_nat (length (c :: p)) - 0)) with (length (c :: p)) by lia.
  rewrite drop_all. simpl. rewrite Z.sub_0_r. reflexivity.
Qed.

(** X11: a saver of bound 0 accepts every write, stores nothing, counts
    every byte as skipped, and [Bytes] returns the empty slice. *)
Theorem saver_zero_bound_keeps_nothing (ps : list (list byte)) :
  Writes (newSaver 0) ps
  = Some {| N := 0; prefix := []; suffix := []; suffixOff := 0;
            skipped := len (concat ps) |} /\
  Writes (newSaver 0) ps ≫= Bytes = Some [].
Proof.
  assert (Hgen : forall sk,
    Writes {| N := 0; prefix := []; suffix := []; suffixOff := 0; skipped := sk |} ps
    = Some {| N := 0; prefix := []; suffix := []; suffixOff := 0;
              skipped := sk + len (concat ps) |}).
  { induction ps as [|p ps IH]; intros sk.
    - simpl. unfold len. simpl. f_equal. f_equal. lia.
    - simpl Writes. rewrite Write_zero by reflexivity. simpl. rewrite IH.
      unfold len. rewrite length_app. f_equal. f_equal. lia. }
  unfold newSaver. rewrite (Hgen 0). simpl. split; reflexivity.
Qed.

(** X12: on a saver with a negative bound every call of [Write] panics
    (slice bounds out of range), also with nothing to write. *)
Theorem saver_negative_bound_panics (w : prefixSuffixSaver) (p : list byte) :
  N w < 0 -> Write w p = None.
Proof.
  intros Hn. unfold Write, fill. set (n := N w) in *.
  replace (n - len (prefix w) >? 0) with false
    by (symmetry; rewrite Z.gtb_ltb; apply Z.ltb_ge; unfold len; lia).
  replace ((len p - n >? 0) && (len p - n >? len p)) with true; [reflexivity|].
  symmetry. apply andb_true_iff. rewrite !Z.gtb_ltb.
  split; apply Z.ltb_lt; unfold len; lia.
Qed.

Lemma colsToDeps_app_witness :
  colsToDeps ["cmd1"; "cwd1"] = Some [NewCmdDependency "cmd1" "cwd1"] /\
  colsToDeps ["g1,g2"; "groups"] = Some [NewDepGroupDependency "g1"; NewDepGroupDependency "g2"] /\
  colsToDeps (["cmd1"; "cwd1"] ++ ["g1,g2"; "groups"])
  = Some ([NewCmdDependency "cmd1" "cwd1"] ++ [NewDepGroupDependency "g1"; NewDepGroupDependency "g2"]).
Proof.
  assert (Ha : colsToDeps ["cmd1"; "cwd1"] = Some [NewCmdDependency "cmd1" "cwd1"])
    by reflexivity.
  assert (Hb : colsToDeps ["g1,g2"; "groups"]
               = Some [NewDepGroupDependency "g1"; NewDepGroupDependency "g2"]) by reflexivity.
  split; [exact Ha|]. split; [exact Hb|].
  exact (colsToDeps_app _ _ _ _ Ha Hb).
Defined.

Lemma saver_storage_bounded_witness :
  0 < 2 /\
  exists w,
    Writes (newSaver 2) [[x61; x62; x63]; [x64; x65]] = Some w /\
    N w = 2 /\ len (prefix w) <= 2 /\ len (suffix w) <= 2 /\
    0 <= suffixOff w < 2 /\
    skipped w = Z.max 0 (len (concat [[x61; x62; x63]; [x64; x65]]) - 2 * 2).
Proof.
  assert (Hn : 0 < 2) by reflexivity.
  split; [exact Hn|].
  exact (saver_storage_bounded 2 [[x61; x62; x63]; [x64; x65]] Hn).
Defined.

Lemma saver_ignores_write_boundaries_witness :
  0 < 2 /\
  concat [[x61; x62; x63]; [x64; x65]] = concat [[x61]; [x62; x63; x64; x65]] /\
  Writes (newSaver 2) [[x61; x62; x63]; [x64; x65]] ≫= Bytes
  = Writes (newSaver 2) [[x61]; [x62; x63; x64; x65]] ≫= Bytes.
Proof.
  assert (Hn : 0 < 2) by reflexivity.
  assert (Hcat : concat [[x61; x62; x63]; [x64; x65]]
                 = concat [[x61]; [x62; x63; x64; x65]]) by reflexivity.
  split; [exact Hn|]. split; [exact Hcat|].
  exact (saver_ignores_write_boundaries 2 _ _ Hn Hcat).
Defined.

Lemma saver_negative_bound_panics_witness :
  N (newSaver (-1)) < 0 /\ Write (newSaver (-1)) [] = None.
Proof.
  assert (Hn : N (newSaver (-1)) < 0) by reflexivity.
  split; [exact Hn|].
  exact (saver_negative_bound_panics (newSaver (-1)) [] Hn).
Defined.

(** ** stdFilter with any writer *)

Section PiecesMore.
Context {A : Type} `{EqDecision A}.

Lemma pieces_no_sep (c : A) (s piece : list A) :
  piece ∈ pieces c s -> c ∉ piece.
Proof.
  revert piece. induction s as [|x s IH]; intros piece Hin.
  - apply list_elem_of_singleton in Hin as ->. apply not_elem_of_nil.
  - rewrite pieces_cons in Hin. destruct (decide (x = c)) as [->|Hx].
    + apply elem_of_cons in Hin as [->|Hin]; [apply not_elem_of_nil|auto].
    + pose proof (pieces_nonempty c s) as Hne.
      destruct (pieces c s) as [|h t]; [simpl in Hne; lia|]. simpl in Hin.
      apply elem_of_cons in Hin as [->|Hin].
      * apply not_elem_of_cons. split; [congruence|]. apply IH. left.
      * apply IH. right. exact Hin.
Qed.

Lemma nth_pieces_no_sep (c : A) (s : list A) (i : nat) :
  c ∉ nth i (pieces c s) [].
Proof.
  destruct (nth_in_or_default i (pieces c s) []) as [Hin| ->].
  - apply (pieces_no_sep c s). apply list_elem_of_In. exact Hin.
  - apply not_elem_of_nil.
Qed.
End PiecesMore.

Lemma elem_of_concat {A : Type} (x : A) (ls : list (list A)) :
  x ∈ concat ls <-> exists l, l ∈ ls /\ x ∈ l.
Proof.
  rewrite list_elem_of_In, in_concat. split.
  - intros (l & Hl & Hx). exists l. rewrite !list_elem_of_In. auto.
  - intros (l & Hl & Hx). exists l. rewrite <- !list_elem_of_In. auto.
Qed.

Lemma chunkOutput_no_cr_inside (p : list byte) : x0d ∉ chunkOutput p.
Proof.
  rewrite chunkOutput_pieces. cbv zeta.
  assert (Hlf : x0d ∉ lf) by (apply (bool_decide_unpack _); vm_compute; exact I).
  assert (Hel : x0d ∉ ellipses) by (apply (bool_decide_unpack _); vm_compute; exact I).
  assert (Hnil : x0d ∉ ([] : list byte)) by apply not_elem_of_nil.
  pose proof (nth_pieces_no_sep x0d p 0) as H0.
  pose proof (nth_pieces_no_sep x0d p (length (pieces x0d p) - 2)) as H2.
  destruct (2 <? length (pieces x0d p))%nat; destruct (3 <? length (pieces x0d p))%nat;
    rewrite ?not_elem_of_app; auto 10.
Qed.

(** X13: [stdFilter] never writes a carriage return: if the output held
    none before, it holds none afterwards. *)
Theorem stdFilter_output_has_no_cr (std out res : list byte) (errs : list string) :
  stdFilter std out = Some (res, errs) ->
  x0d ∉ out -> x0d ∉ res.
Proof.
  unfold stdFilter. rewrite stdFilter_loop_chunks by lia. intros [= <- <-] Hout.
  apply not_elem_of_app. split; [exact Hout|].
  intros Hin. apply elem_of_concat in Hin as (chunk & Hchunk & Hin).
  apply list_elem_of_fmap in Hchunk as (p & -> & _).
  exact (chunkOutput_no_cr_inside p Hin).
Qed.

Lemma chunks_elem (s chunk : list byte) (b : byte) :
  chunk ∈ chunks s -> b ∈ chunk -> b ∈ s.
Proof.
  intros Hchunk Hb. rewrite <- (chunks_concat s).
  apply elem_of_concat. eauto.
Qed.

(** X14: an input without carriage returns is copied to the output
    unchanged, whether or not it ends with a newline, and no error is
    collected. *)
Theorem stdFilter_passes_plain_input (std out : list byte) :
  x0d ∉ std -> stdFilter std out = Some (out ++ std, []).
Proof.
  intros Hcr. unfold stdFilter. rewrite stdFilter_loop_chunks by lia.
  f_equal. f_equal. f_equal.
  rewrite <- (chunks_concat std) at 2. f_equal.
  rewrite <- (list_fmap_id (chunks std)) at 2.
  apply list_fmap_ext. intros i chunk Hi. simpl.
  apply chunkOutput_no_cr. intros Hin. apply Hcr.
  apply (chunks_elem std chunk); [|exact Hin].
  eapply list_elem_of_lookup_2. exact Hi.
Qed.

Section AnyWriter.
Context {W : Type} `{IoWriter W}.

Lemma filterChunk_writes (st : W * list string) (p : list byte) :
  filterChunk st p = foldl writeTo st (chunkWrites p).
Proof.
  unfold filterChunk, chunkWrites, bytes_Split, cr.
  rewrite genSplit_pieces. cbv zeta. unfold len.
  destruct (Nat.ltb_spec 2 (length (pieces x0d p))) as [H2|H2].
  - replace (Z.of_nat (length (pieces x0d p)) >? 2) with true
      by (symmetry; rewrite Z.gtb_ltb; apply Z.ltb_lt; lia).
    destruct (Nat.ltb_spec 3 (length (pieces x0d p))) as [H3|H3].
    + replace (Z.of_nat (length (pieces x0d p)) >? 3) with true
        by (symmetry; rewrite Z.gtb_ltb; apply Z.ltb_lt; lia).
      reflexivity.
    + replace (Z.of_nat (length (pieces x0d p)) >? 3) with false
        by (symmetry; rewrite Z.gtb_ltb; apply Z.ltb_ge; lia).
      reflexivity.
  - replace (Z.of_nat (length (pieces x0d p)) >? 2) with false
      by (symmetry; rewrite Z.gtb_ltb; apply Z.ltb_ge; lia).
    reflexivity.
Qed.

Lemma stdFilter_loop_writes (fuel : nat) :
  forall (reader : list byte) (st : W * list string),
    (length reader < fuel)%nat ->
    stdFilter_loop fuel reader st
    = Some (foldl writeTo st (concat (chunkWrites <$> chunks reader))).
Proof.
  induction fuel as [|fuel IH]; intros reader st Hfuel; [lia|].
  simpl. pose proof (ReadBytes_chunks reader) as Hread.
  destruct (ReadBytes x0a reader) as [p [rest|]].
  - destruct Hread as [-> Hlen]. rewrite IH by lia.
    rewrite filterChunk_writes. simpl. rewrite foldl_app. reflexivity.
  - rewrite Hread, filterChunk_writes. simpl. rewrite app_nil_r. reflexivity.
Qed.

Lemma writeTo_errors (st : W * list string) (b : list byte) :
  exists e, (writeTo st b).2 = st.2 ++ e /\ (length e <= 1)%nat.
Proof.
  unfold writeTo. destruct (io_Write st.1 b) as [out' [e|]]; simpl.
  - exists [e]. auto.
  - exists []. rewrite app_nil_r. auto.
Qed.

Lemma foldl_writeTo_errors (bs : list (list byte)) :
  forall st : W * list string,
    exists e, (foldl writeTo st bs).2 = st.2 ++ e /\ (length e <= length bs)%nat.
Proof.
  induction bs as [|b bs IH]; intros st.
  - exists []. simpl. rewrite app_nil_r. auto.
  - simpl. destruct (IH (writeTo st b)) as (e & He & Hl).
    destruct (writeTo_errors st b) as (e1 & He1 & Hl1).
    exists (e1 ++ e). rewrite He, He1, app_assoc, length_app. split; [reflexivity|lia].
Qed.

(** X15: for any writer, [stdFilter] comes to an end and makes the same
    calls of [Write] whether or not earlier ones failed: for each chunk the
    first line, and for a chunk with two or more carriage returns a
    newline, the marker (three or more), the last terminated line and a
    newline.  It collects at most one error for each call. *)
Theorem stdFilter_writes_whatever_fails (std : list byte) (out : W) :
  stdFilter std out
  = Some (foldl writeTo (out, []) (concat (chunkWrites <$> chunks std))) /\
  exists res errs,
    stdFilter std out = Some (res, errs) /\
    (length errs <= length (concat (chunkWrites <$> chunks std)))%nat.
Proof.
  unfold stdFilter. rewrite stdFilter_loop_writes by lia.
  split; [reflexivity|].
  destruct (foldl_writeTo_errors (concat (chunkWrites <$> chunks std)) (out, []))
    as (e & He & Hl).
  destruct (foldl writeTo (out, []) _) as [res errs] eqn:E.
  exists res, errs. split; [reflexivity|]. simpl in He. subst errs. exact Hl.
Qed.
End AnyWriter.

Lemma stdFilter_output_has_no_cr_witness :
  stdFilter [x61; x0d; x62; x0d; x0a; x63] ([] : list byte)
  = Some ([x61; x0a; x62; x0a; x63], []) /\
  (x0d ∉ ([] : list byte)) /\
  (x0d ∉ [x61; x0a; x62; x0a; x63]).
Proof.
  assert (Hrun : stdFilter [x61; x0d; x62; x0d; x0a; x63] ([] : list byte)
                 = Some ([x61; x0a; x62; x0a; x63], [])) by reflexivity.
  assert (Hout : x0d ∉ ([] : list byte)) by apply not_elem_of_nil.
  split; [exact Hrun|]. split; [exact Hout|].
  exact (stdFilter_output_has_no_cr _ _ _ _ Hrun Hout).
Defined.

Lemma stdFilter_passes_plain_input_witness :
  (x0d ∉ [x61; x0a; x62]) /\
  stdFilter [x61; x0a; x62] [x63] = Some ([x63] ++ [x61; x0a; x62], []).
Proof.
  assert (Hcr : x0d ∉ [x61; x0a; x62])
    by (apply (bool_decide_unpack _); vm_compute; exact I).
  split; [exact Hcr|].
  exact (stdFilter_passes_plain_input [x61; x0a; x62] [x63] Hcr).
Defined.

(** ** envOverride without the assumption on the names *)

Lemma overrideMap_names (over : list string) (name e : string) :
  overrideMap over !! name = Some e -> envName e = name /\ e ∈ over.
Proof.
  rewrite overrideMap_lookup. intros Hv. split; [eapply overValue_name; exact Hv|].
  unfold overValue in Hv. apply last_Some_elem_of in Hv.
  apply list_elem_of_filter in Hv. tauto.
Qed.

(** Whatever the variables: the names stay, the values the map holds come
    in or stay in the map, and nothing else comes in. *)
Lemma replaceAll_general (todo : list string) :
  forall override : gmap string string,
    (forall name e, override !! name = Some e -> envName e = name) ->
    envName <$> (replaceAll todo override).1 = envName <$> todo /\
    (forall name e,
       override !! name = Some e ->
       e ∈ (replaceAll todo override).1 \/
       (replaceAll todo override).2 !! name = Some e) /\
    (forall e,
       e ∈ (replaceAll todo override).1 ->
       e ∈ todo \/ exists name, override !! name = Some e) /\
    (forall name e,
       (replaceAll todo override).2 !! name = Some e ->
       override !! name = Some e).
Proof.
  induction todo as [|x todo IH]; intros override Hnames.
  - simpl. split; [reflexivity|]. split; [auto|]. split; [|auto].
    intros e He. apply elem_of_nil in He. contradiction.
  - simpl. destruct (override !! envName x) as [r|] eqn:E.
    + assert (Hnames' : forall name e,
        delete (envName x) override !! name = Some e -> envName e = name).
      { intros name e He. apply lookup_delete_Some in He as [_ He]. eauto. }
      destruct (IH (delete (envName x) override) Hnames') as (I1 & I2 & I3 & I4).
      destruct (replaceAll todo (delete (envName x) override)) as [env' ov'].
      cbn [fst snd] in *.
      split; [rewrite !fmap_cons, I1, (Hnames _ _ E); reflexivity|].
      split; [|split].
      * intros name e He. destruct (decide (name = envName x)) as [->|Hne].
        -- left. apply elem_of_cons. left. congruence.
        -- destruct (I2 name e) as [Hin|Hleft];
             [rewrite lookup_delete_ne by congruence; exact He| |].
           ++ left. right. exact Hin.
           ++ right. exact Hleft.
      * intros e [->|He]%elem_of_cons; [right; eauto|].
        destruct (I3 e He) as [Hin|[name Hname]]; [left; right; exact Hin|].
        right. exists name. apply lookup_delete_Some in Hname as [_ Hname]. exact Hname.
      * intros name e He. apply I4 in He.
        apply lookup_delete_Some in He as [_ He]. exact He.
    + destruct (IH override Hnames) as (I1 & I2 & I3 & I4).
      destruct (replaceAll todo override) as [env' ov'].
      cbn [fst snd] in *. split; [rewrite !fmap_cons, I1; reflexivity|].
      split; [|split].
      * intros name e He. destruct (I2 name e He) as [Hin|Hleft];
          [left; right; exact Hin|right; exact Hleft].
      * intros e [->|He]%elem_of_cons; [left; left|].
        destruct (I3 e He) as [Hin|Hname]; [left; right; exact Hin|right; exact Hname].
      * exact I4.
Qed.

Lemma replaceAll_length (todo : list string) (override : gmap string string) :
  length (replaceAll todo override).1 = length todo.
Proof.
  revert override. induction todo as [|x todo IH]; intros override; [reflexivity|].
  simpl. destruct (override !! envName x).
  - specialize (IH (delete (envName x) override)).
    destruct (replaceAll todo (delete (envName x) override)). simpl in *. lia.
  - specialize (IH override). destruct (replaceAll todo override). simpl in *. lia.
Qed.

Section EnvOverrideMore.
Variable range : gmap string string -> list string.
Hypothesis range_values : forall m, range m ≡ₚ (map_to_list m).*2.

Lemma range_empty : range ∅ = [].
Proof.
  apply Permutation_nil_r. rewrite range_values, map_to_list_empty. reflexivity.
Qed.

Lemma envOverride_unfold (orig over : list string) :
  envOverride range orig over
  = (replaceAll orig (overrideMap over)).1
    ++ range (replaceAll orig (overrideMap over)).2.
Proof.
  unfold envOverride.
  pose proof (replaceLoop_replaceAll orig [] (overrideMap over)) as Hloop.
  simpl in Hloop. rewrite Hloop. reflexivity.
Qed.

(** X16: with nothing to override, [envOverride] returns the original
    environment. *)
Theorem envOverride_nothing_to_override (orig : list string) :
  envOverride range orig [] = orig.
Proof.
  rewrite envOverride_unfold. change (overrideMap []) with (∅ : gmap string string).
  assert (Hid : replaceAll orig ∅ = (orig, ∅)).
  { induction orig as [|x orig IH]; [reflexivity|].
    simpl. rewrite lookup_empty, IH. reflexivity. }
  rewrite Hid. simpl. rewrite range_empty. apply app_nil_r.
Qed.

(** X17: whatever the two environments (names may repeat), the result of
    [envOverride] starts with one variable for each variable of [orig], of
    the same name and in the same order; it holds, for every name of
    [over], the last variable of that name in [over]; and it holds nothing
    but variables of [orig] and of [over]. *)
Theorem envOverride_always (orig over : list string) :
  let res := envOverride range orig over in
  (length orig <= length res)%nat /\
  envName <$> take (length orig) res = envName <$> orig /\
  (forall name e, overValue over name = Some e -> e ∈ res) /\
  (forall e, e ∈ res -> e ∈ orig \/ e ∈ over).
Proof.
  cbv zeta. rewrite envOverride_unfold.
  pose proof (replaceAll_length orig (overrideMap over)) as Hlen.
  destruct (replaceAll_general orig (overrideMap over)) as (H1 & H2 & H3 & H4).
  { intros name e He. apply overrideMap_names in He. tauto. }
  destruct (replaceAll orig (overrideMap over)) as [env left]. simpl in *.
  split; [rewrite length_app; lia|].
  split; [rewrite <- Hlen, take_app_length; exact H1|].
  split.
  - intros name e He. rewrite <- overrideMap_lookup in He.
    apply elem_of_app. destruct (H2 name e He) as [Hin|Hleft]; [left; exact Hin|].
    right. apply (elem_of_range range range_values). eauto.
  - intros e [He|He]%elem_of_app.
    + destruct (H3 e He) as [Hin|[name Hname]]; [left; exact Hin|].
      right. apply overrideMap_names in Hname. tauto.
    + apply (elem_of_range range range_values) in He as [name Hname].
      apply H4 in Hname. right. apply overrideMap_names in Hname. tauto.
Qed.

(** X18: overriding again with the same [over] changes nothing, when no
    name occurs twice in [orig]. *)
Theorem envOverride_idempotent (orig over : list string) :
  NoDup (envName <$> orig) ->
  envOverride range (envOverride range orig over) over
  = envOverride range orig over.
Proof.
  intros Hnodup. rewrite (envOverride_unfold orig over).
  destruct (replaceAll_spec orig (overrideMap over) Hnodup) as [Henv Hleft].
  destruct (replaceAll_general orig (overrideMap over)) as (Hnames & _).
  { intros name e He. apply overrideMap_names in He. tauto. }
  destruct (replaceAll orig (overrideMap over)) as [env left]. simpl in *.
  assert (Hleft_names : forall name e, left !! name = Some e -> envName e = name).
  { intros name e. rewrite Hleft. destruct (decide _); [discriminate|].
    intros He. apply overrideMap_names in He. tauto. }
  assert (Hnd : NoDup (envName <$> env ++ range left)).
  { rewrite fmap_app. apply NoDup_app. split; [rewrite Hnames; exact Hnodup|].
    split.
    - intros name Hin Hin'. rewrite Hnames in Hin.
      apply list_elem_of_fmap in Hin' as (e & -> & He).
      apply (elem_of_range range range_values) in He as [name Hname].
      pose proof (Hleft_names _ _ Hname) as Hn. rewrite Hleft in Hname.
      rewrite Hn in Hin. rewrite decide_True in Hname by exact Hin. discriminate.
    - rewrite (names_of_range range range_values left Hleft_names).
      apply NoDup_fst_map_to_list. }
  rewrite envOverride_unfold.
  destruct (replaceAll_spec (env ++ range left) (overrideMap over) Hnd) as [Henv2 Hleft2].
  destruct (replaceAll (env ++ range left) (overrideMap over)) as [env2 left2].
  simpl in *.
  assert (Hsame : env2 = env ++ range left).
  { rewrite Henv2. rewrite <- (list_fmap_id (env ++ range left)) at 2.
    apply list_fmap_ext. intros i e Hi. simpl.
    apply list_elem_of_lookup_2 in Hi. apply elem_of_app in Hi as [Hi|Hi].
    - rewrite Henv in Hi. apply list_elem_of_fmap in Hi as (e0 & -> & _).
      destruct (overrideMap over !! envName e0) as [r|] eqn:E; simpl.
      + apply overrideMap_names in E as E'. destruct E' as [-> _]. rewrite E. reflexivity.
      + rewrite E. reflexivity.
    - apply (elem_of_range range range_values) in Hi as [name Hname].
      pose proof (Hleft_names _ _ Hname) as Hn. rewrite Hleft in Hname.
      destruct (decide _); [discriminate|]. rewrite Hn, Hname. reflexivity. }
  assert (Hempty : left2 = ∅).
  { apply map_eq. intros name. rewrite Hleft2, lookup_empty.
    destruct (decide _) as [|Hout]; [reflexivity|].
    destruct (overrideMap over !! name) as [e|] eqn:E; [|reflexivity].
    exfalso. apply Hout. rewrite fmap_app, Hnames. apply elem_of_app.
    destruct (decide (name ∈ envName <$> orig)) as [Hin|Hnin]; [left; exact Hin|].
    right. apply list_elem_of_fmap. exists e.
    apply overrideMap_names in E as E'. destruct E' as [<- _].
    split; [reflexivity|]. apply (elem_of_range range range_values).
    exists (envName e). rewrite Hleft, decide_False by exact Hnin. exact E. }
  rewrite Hsame, Hempty, range_empty. apply app_nil_r.
Qed.
End EnvOverrideMore.

Lemma envOverride_nothing_to_override_witness :
  (forall m, rangeSorted m ≡ₚ (map_to_list m).*2) /\
  envOverride rangeSorted ["A=1"; "B=2"] [] = ["A=1"; "B=2"].
Proof.
  assert (Hrange : forall m, rangeSorted m ≡ₚ (map_to_list m).*2)
    by (intros m; reflexivity).
  split; [exact Hrange|].
  exact (envOverride_nothing_to_override rangeSorted Hrange ["A=1"; "B=2"]).
Defined.

Lemma envOverride_always_witness :
  (forall m, rangeSorted m ≡ₚ (map_to_list m).*2) /\
  envName <$> take (length ["A=1"; "A=2"])
                (envOverride rangeSorted ["A=1"; "A=2"] ["A=3"; "C=4"])
  = envName <$> ["A=1"; "A=2"].
Proof.
  assert (Hrange : forall m, rangeSorted m ≡ₚ (map_to_list m).*2)
    by (intros m; reflexivity).
  split; [exact Hrange|].
  exact (proj1 (proj2 (envOverride_always rangeSorted Hrange
                         ["A=1"; "A=2"] ["A=3"; "C=4"]))).
Defined.

Lemma envOverride_idempotent_witness :
  (forall m, rangeSorted m ≡ₚ (map_to_list m).*2) /\
  NoDup (envName <$> ["A=1"; "B=2"]) /\
  envOverride rangeSorted
    (envOverride rangeSorted ["A=1"; "B=2"] ["B=x"; "C=3"]) ["B=x"; "C=3"]
  = envOverride rangeSorted ["A=1"; "B=2"] ["B=x"; "C=3"].
Proof.
  assert (Hrange : forall m, rangeSorted m ≡ₚ (map_to_list m).*2)
    by (intros m; reflexivity).
  assert (Hnodup : NoDup (envName <$> ["A=1"; "B=2"]))
    by (apply (bool_decide_unpack _); vm_compute; exact I).
  split; [exact Hrange|]. split; [exact Hnodup|].
  exact (envOverride_idempotent rangeSorted Hrange ["A=1"; "B=2"]
           ["B=x"; "C=3"] Hnodup).
Defined.

(** ** byteKey: the key determines the hash *)

Lemma hexVal_hexDigit (d : Z) : 0 <= d < 16 -> hexVal (hexDigit d) = d.
Proof.
  intros Hd.
  assert (Hcases : d = 0 \/ d = 1 \/ d = 2 \/ d = 3 \/ d = 4 \/ d = 5 \/ d = 6 \/
                   d = 7 \/ d = 8 \/ d = 9 \/ d = 10 \/ d = 11 \/ d = 12 \/
                   d = 13 \/ d = 14 \/ d = 15) by lia.
  repeat (destruct Hcases as [->|Hcases]; [reflexivity|]). subst d. reflexivity.
Qed.

Lemma hexValue_app (l1 l2 : list ascii) :
  hexValue (l1 ++ l2) = hexValue l1 * 16 ^ len l2 + hexValue l2.
Proof.
  induction l1 as [|c l1 IH]; [simpl; lia|].
  simpl. rewrite IH. unfold len. rewrite length_app, Nat2Z.inj_add.
  rewrite Z.pow_add_r by lia. lia.
Qed.

Lemma fmt_x_loop_value (fuel : nat) :
  forall u buf,
    0 <= u < 16 ^ Z.of_nat (S fuel) ->
    hexValue (fmt_x_loop fuel u buf) = u * 16 ^ len buf + hexValue buf.
Proof.
  induction fuel as [|fuel IH]; intros u buf Hu; simpl fmt_x_loop.
  - change (16 ^ Z.of_nat 1) with 16 in Hu. simpl hexValue.
    rewrite hexVal_hexDigit by lia. reflexivity.
  - destruct (Z.geb_spec u 16) as [Hge|Hlt].
    + assert (Hdiv : Z.shiftr u 4 = u / 16)
        by (rewrite Z.shiftr_div_pow2 by lia; reflexivity).
      assert (Hmod : Z.land u 15 = u mod 16)
        by (change 15 with (Z.ones 4); rewrite Z.land_ones by lia; reflexivity).
      rewrite IH.
      2:{ rewrite Hdiv. split; [apply Z.div_pos; lia|].
          apply Z.div_lt_upper_bound; [lia|].
          replace (Z.of_nat (S (S fuel))) with (Z.of_nat (S fuel) + 1) in Hu by lia.
          rewrite Z.pow_add_r in Hu by lia. lia. }
      simpl hexValue. rewrite hexVal_hexDigit
        by (rewrite Hmod; apply Z.mod_pos_bound; lia).
      rewrite Hdiv, Hmod. unfold len. simpl length.
      rewrite Nat2Z.inj_succ, Z.pow_succ_r by lia.
      pose proof (Z.div_mod u 16 ltac:(lia)) as Hdm. nia.
    + simpl hexValue. rewrite hexVal_hexDigit by lia. reflexivity.
Qed.

Lemma fmt_x_value (u : Z) : 0 <= u -> hexValue (fmt_x u) = u.
Proof.
  intros Hu. unfold fmt_x. rewrite fmt_x_loop_value.
  - unfold len. simpl. lia.
  - split; [exact Hu|]. destruct (Z.eq_dec u 0) as [->|Hne]; [reflexivity|].
    rewrite Nat2Z.inj_succ, Z2Nat.id by apply Z.log2_nonneg.
    pose proof (Z.log2_spec u ltac:(lia)) as [_ Hlt].
    assert (Hpow : 2 ^ Z.succ (Z.log2 u) <= 16 ^ Z.succ (Z.log2 u)).
    { apply Z.pow_le_mono_l. lia. }
    lia.
Qed.

Lemma hexValue_zeros (n : nat) : hexValue (replicate n "0"%char) = 0.
Proof. induction n as [|n IH]; [reflexivity|]. simpl. rewrite IH. reflexivity. Qed.

(** Reading a key part back gives the number that was formatted. *)
Lemma fmt_016x_value (u : Z) : 0 <= u -> hexValue (fmt_016x u) = u.
Proof.
  intros Hu. unfold fmt_016x. rewrite hexValue_app, hexValue_zeros, fmt_x_value by exact Hu.
  lia.
Qed.

(** X19: the formatting of [byteKey] loses nothing: two inputs get the same
    key exactly when they have the same 128-bit hash. *)
Theorem byteKey_tells_hashes_apart (Hash128 : list byte -> Z * Z)
    (Hash128_uint64 : forall b,
       0 <= (Hash128 b).1 < 2 ^ 64 /\ 0 <= (Hash128 b).2 < 2 ^ 64)
    (b b' : list byte) :
  byteKey Hash128 b = byteKey Hash128 b' <-> Hash128 b = Hash128 b'.
Proof.
  split; [|unfold byteKey; intros ->; reflexivity].
  unfold byteKey. destruct (Hash128_uint64 b) as [Hl Hh].
  destruct (Hash128_uint64 b') as [Hl' Hh'].
  destruct (Hash128 b) as [l h], (Hash128 b') as [l' h']. simpl in *.
  intros Heq. apply (f_equal list_ascii_of_string) in Heq.
  rewrite !list_ascii_of_string_of_list_ascii in Heq.
  apply app_inj_1 in Heq as [Hleft Hright];
    [|rewrite !fmt_016x_length by assumption; reflexivity].
  apply (f_equal hexValue) in Hleft, Hright.
  rewrite !fmt_016x_value in Hleft, Hright by lia. congruence.
Qed.

Lemma byteKey_tells_hashes_apart_witness :
  (forall b,
     0 <= (lengthHash b).1 < 2 ^ 64 /\ 0 <= (lengthHash b).2 < 2 ^ 64) /\
  (byteKey lengthHash [x61] = byteKey lengthHash [x61; x62]
   <-> lengthHash [x61] = lengthHash [x61; x62]).
Proof.
  assert (Hrange : forall b,
     0 <= (lengthHash b).1 < 2 ^ 64 /\ 0 <= (lengthHash b).2 < 2 ^ 64).
  { intros b. unfold lengthHash. simpl.
    split; [apply Z.mod_pos_bound; lia|lia]. }
  split; [exact Hrange|].
  exact (byteKey_tells_hashes_apart lengthHash Hrange [x61] [x61; x62]).
Defined.

(** ** rmEmptyDirs with any base directory *)

Lemma Dir_nonroot (p : path) : Dir p <> [] -> exists x, p = Dir p ++ [x].
Proof.
  intros Hne. destruct (decide (p = [])) as [->|Hp]; [contradiction|].
  destruct (exists_last Hp) as (r & x & ->). exists x. rewrite Dir_snoc. reflexivity.
Qed.

Lemma Dir_proper (p : path) : Forall properName p -> Forall properName (Dir p).
Proof.
  intros Hp. destruct (decide (p = [])) as [->|Hne]; [constructor|].
  destruct (exists_last Hne) as (r & x & ->). rewrite Dir_snoc.
  apply Forall_app in Hp as [Hp _]. exact Hp.
Qed.

Lemma parentsLoop_safe (wd : path) (refuses : FS -> string -> option string)
    (baseDir : string) (fuel : nat) :
  forall (fs : FS) (current : path),
    Forall properName current ->
    (length current < fuel)%nat ->
    exists fs',
      parentsLoop wd refuses fuel fs (render current) baseDir = Some fs' /\
      forall q,
        fs' !! q = fs !! q \/
        (fs' !! q = None /\ is_Some (fs !! q) /\ q <> [] /\ render q <> baseDir /\
         (exists k, current = q ++ k) /\ isEmpty fs' q = true).
Proof.
  induction fuel as [|fuel IH]; intros fs current Hproper Hfuel; [lia|].
  rewrite parentsLoop_unfold, filepath_Dir_render by exact Hproper.
  destruct (decide (render (Dir current) = baseDir)) as [Hbase|Hbase].
  { exists fs. split; [reflexivity|]. intros q. left. reflexivity. }
  destruct (os_RemoveName wd refuses fs (render (Dir current))) as [fs1 [e|]] eqn:Hrm.
  { exists fs. split; [reflexivity|]. intros q. left. reflexivity. }
  apply os_RemoveName_ok in Hrm as [Hrm _]; [|apply Dir_proper; exact Hproper].
  apply os_Remove_ok in Hrm as (-> & Hsome & Hroot & Hempty).
  destruct (Dir_nonroot current Hroot) as [x Hx].
  assert (Hlen : (length (Dir current) < fuel)%nat).
  { rewrite Hx in Hfuel. rewrite length_app in Hfuel. simpl in Hfuel. lia. }
  destruct (IH (delete (Dir current) fs) (Dir current)
              (Dir_proper current Hproper) Hlen) as (fs' & Hrun & Hrel).
  exists fs'. split; [exact Hrun|].
  assert (Hsub : forall q, is_Some (fs' !! q) -> is_Some (fs !! q)).
  { intros q Hq. destruct (Hrel q) as [Heq|[Hnone _]].
    - rewrite Heq in Hq. destruct Hq as [k Hk].
      apply lookup_delete_Some in Hk as [_ Hk]. eauto.
    - rewrite Hnone in Hq. destruct Hq; discriminate. }
  intros q. destruct (decide (q = Dir current)) as [->|Hq].
  - right. split.
    { destruct (Hrel (Dir current)) as [Heq|[Hnone _]]; [|exact Hnone].
      rewrite Heq. apply lookup_delete_eq. }
    split; [exact Hsome|]. split; [exact Hroot|]. split; [exact Hbase|].
    split; [exists [x]; exact Hx|].
    apply (isEmpty_mono fs); assumption.
  - destruct (Hrel q) as [Heq|(Hnone & Hwas & Hq0 & Hqb & [k Hk] & He)].
    + left. rewrite Heq. apply lookup_delete_ne. congruence.
    + right. split; [exact Hnone|]. split.
      { destruct Hwas as [k' Hk']. apply lookup_delete_Some in Hk' as [_ Hk']. eauto. }
      split; [exact Hq0|]. split; [exact Hqb|]. split; [|exact He].
      exists (k ++ [x]). rewrite app_assoc, <- Hk. exact Hx.
Qed.

(** X20: for a rooted clean [leafDir] and any string as [baseDir], also one
    that is not clean or does not lie above [leafDir], [rmEmptyDirs] comes
    to an end; it removes nothing but [leafDir] and directories above it,
    never the root, and each only when no entry of it is left; it returns
    an error only when it removed nothing; it leaves [baseDir] as it is
    when that is a rooted clean path other than [leafDir]; and if every
    path had its parent directory before, so it is after. *)
Theorem rmEmptyDirs_removes_only_empty (wd : path)
    (refuses : FS -> string -> option string)
    (fs : FS) (leafDir : path) (baseDir : string) :
  Forall properName leafDir ->
  exists (fs' : FS) (err : option (string * syserror)),
    rmEmptyDirs wd refuses fs (render leafDir) baseDir = Some (fs', err) /\
    (forall q, removedOrKept fs fs' leafDir q) /\
    (err <> None -> fs' = fs) /\
    (forall b, Forall properName b -> baseDir = render b -> b <> leafDir ->
               fs' !! b = fs !! b) /\
    (closed fs -> closed fs').
Proof.
  intros Hproper.
  assert (Hfuel : (length leafDir < S (S (String.length (render leafDir))))%nat).
  { pose proof (render_length leafDir Hproper). lia. }
  assert (Hgoal : exists (fs' : FS) (err : option (string * syserror)),
    rmEmptyDirs wd refuses fs (render leafDir) baseDir = Some (fs', err) /\
    (forall q, removedOrKept fs fs' leafDir q) /\
    (err <> None -> fs' = fs) /\
    (forall b, Forall properName b -> baseDir = render b -> b <> leafDir ->
               fs' !! b = fs !! b)).
  { destruct (os_RemoveName wd refuses fs (render leafDir)) as [fs1 [e|]] eqn:Hrm.
    - pose proof (os_RemoveName_error _ _ _ _ _ _ Hrm) as ->.
      rewrite (rmEmptyDirs_unfold wd refuses fs fs _ baseDir _ Hrm).
      destruct (IsNotExist e).
      + destruct (parentsLoop_safe wd refuses baseDir _ fs leafDir Hproper Hfuel)
          as (fs' & -> & Hrel).
        exists fs', None. simpl. split; [reflexivity|]. split.
        { intros q. destruct (Hrel q) as [Heq|(H1 & H2 & H3 & _ & H5 & H6)];
            [left; exact Heq|right; auto]. }
        split; [congruence|]. intros b _ -> _.
        destruct (Hrel b) as [Heq|(_ & _ & _ & Hne & _)];
          [exact Heq|contradiction].
      + destruct (strings_Contains _ _).
        * exists fs, None. split; [reflexivity|].
          split; [intros q; left; reflexivity|]. split; auto.
        * exists fs, (Some (render leafDir, e)). split; [reflexivity|].
          split; [intros q; left; reflexivity|]. split; auto.
    - rewrite (rmEmptyDirs_unfold wd refuses fs _ _ baseDir _ Hrm).
      apply os_RemoveName_ok in Hrm as [Hrm _]; [|exact Hproper].
      apply os_Remove_ok in Hrm as (-> & Hsome & Hroot & Hempty).
      destruct (parentsLoop_safe wd refuses baseDir _ (delete leafDir fs) leafDir
                  Hproper Hfuel) as (fs' & -> & Hrel).
      exists fs', None. simpl. split; [reflexivity|].
      assert (Hsub : forall q, is_Some (fs' !! q) -> is_Some (fs !! q)).
      { intros q Hq. destruct (Hrel q) as [Heq|[Hnone _]].
        - rewrite Heq in Hq. destruct Hq as [k Hk].
          apply lookup_delete_Some in Hk as [_ Hk]. eauto.
        - rewrite Hnone in Hq. destruct Hq; discriminate. }
      split.
      { intros q. destruct (decide (q = leafDir)) as [->|Hq].
        - right. split.
          { destruct (Hrel leafDir) as [Heq|[Hnone _]]; [|exact Hnone].
            rewrite Heq. apply lookup_delete_eq. }
          split; [exact Hsome|]. split; [exact Hroot|].
          split; [exists []; symmetry; apply app_nil_r|].
          apply (isEmpty_mono fs); assumption.
        - destruct (Hrel q) as [Heq|(H1 & H2 & H3 & _ & H5 & H6)].
          + left. rewrite Heq. apply lookup_delete_ne. congruence.
          + right. split; [exact H1|]. split; [|auto].
            destruct H2 as [k' Hk']. apply lookup_delete_Some in Hk' as [_ Hk']. eauto. }
      split; [congruence|]. intros b _ -> Hne.
      destruct (Hrel b) as [Heq|(_ & _ & _ & Hnb & _)]; [|contradiction].
      rewrite Heq. apply lookup_delete_ne. congruence. }
  destruct Hgoal as (fs' & err & Hrun & Hrel & Herr & Hbase).
  exists fs', err. split; [exact Hrun|]. split; [exact Hrel|].
  split; [exact Herr|]. split; [exact Hbase|].
  intros Hclosed q Hq.
  assert (Hwas : is_Some (fs !! q)).
  { destruct (Hrel q) as [Heq|[Hnone _]]; [rewrite <- Heq; exact Hq|].
    rewrite Hnone in Hq. destruct Hq; discriminate. }
  destruct (Hrel (Dir q)) as [Heq|(Hnone & _ & Hroot & _ & Hempty)].
  - rewrite Heq. apply Hclosed, Hwas.
  - exfalso. unfold isEmpty in Hempty. apply bool_decide_eq_true in Hempty.
    destruct Hq as [k Hk]. apply (Hempty q k Hk). split; [|reflexivity].
    intros ->. apply Hroot. reflexivity.
Qed.

Lemma rmEmptyDirs_removes_only_empty_witness :
  Forall properName ["base"; "a"; "b"] /\
  exists (fs' : FS) (err : option (string * syserror)),
    rmEmptyDirs [] refusesNothing
      (mkfs [[]; ["base"]; ["base"; "a"]; ["base"; "a"; "b"]])
      (render ["base"; "a"; "b"]) "/base/"
    = Some (fs', err) /\
    (err <> None ->
     fs' = mkfs [[]; ["base"]; ["base"; "a"]; ["base"; "a"; "b"]]).
Proof.
  assert (Hproper : Forall properName ["base"; "a"; "b"])
    by (apply (bool_decide_unpack _); vm_compute; exact I).
  split; [exact Hproper|].
  destruct (rmEmptyDirs_removes_only_empty [] refusesNothing
              (mkfs [[]; ["base"]; ["base"; "a"]; ["base"; "a"; "b"]])
              ["base"; "a"; "b"] "/base/" Hproper)
    as (fs' & err & Hrun & _ & Herr & _).
  exists fs', err. split; [exact Hrun|exact Herr].
Defined.

(** ** removeAllExcept *)

Example j1 : filepath_Join ["w"] "a/b" = ["w"; "a"; "b"].
Proof. reflexivity. Qed.
Example j2 : filepath_Join ["w"] "a//./b/../c/" = ["w"; "a"; "c"].
Proof. reflexivity. Qed.
Example j3 : filepath_Join ["w"] "../../.." = [].
Proof. reflexivity. Qed.


Lemma Dir_prefix (q : path) : Dir q `prefix_of` q.
Proof.
  destruct (decide (q = [])) as [->|Hne]; [exists []; reflexivity|].
  destruct (exists_last Hne) as (r & x & ->). rewrite Dir_snoc. exists [x]. reflexivity.
Qed.

Lemma entryOf_snoc (p q : path) : entryOf p q <-> exists x, q = p ++ [x].
Proof.
  unfold entryOf. split.
  - intros [Hne <-]. destruct (exists_last Hne) as (r & x & ->).
    exists x. rewrite Dir_snoc. reflexivity.
  - intros [x ->]. split; [|apply Dir_snoc].
    intros Heq. apply (f_equal length) in Heq. rewrite length_app in Heq.
    simpl in Heq. lia.
Qed.

Lemma prefix_snoc_inv (k p : path) (x : string) :
  k `prefix_of` p ++ [x] -> k = p ++ [x] \/ k `prefix_of` p.
Proof.
  intros [r Hr]. destruct (decide (r = [])) as [->|Hne].
  - left. rewrite app_nil_r in Hr. auto.
  - right. destruct (exists_last Hne) as (r' & y & ->).
    rewrite app_assoc in Hr. apply app_inj_tail in Hr as [-> _]. exists r'. reflexivity.
Qed.

Lemma strictlyBelow_entry (p abs q : path) :
  entryOf p abs -> abs `prefix_of` q -> strictlyBelow p q.
Proof.
  intros [x ->]%entryOf_snoc [r ->]. split.
  - exists ([x] ++ r). rewrite <- app_assoc. reflexivity.
  - intros Heq. apply (f_equal length) in Heq. rewrite !length_app in Heq.
    simpl in Heq. lia.
Qed.

Lemma strictlyBelow_inv (p q : path) :
  strictlyBelow p q -> exists abs, entryOf p abs /\ abs `prefix_of` q.
Proof.
  intros [[r ->] Hne]. destruct r as [|x r].
  - rewrite app_nil_r in Hne. contradiction.
  - exists (p ++ [x]). split; [apply entryOf_snoc; eauto|].
    exists r. rewrite <- app_assoc. reflexivity.
Qed.

Lemma entries_apart (p a b q : path) :
  entryOf p a -> entryOf p b -> a `prefix_of` q -> b `prefix_of` q -> a = b.
Proof.
  intros [x ->]%entryOf_snoc [y ->]%entryOf_snoc [r Hr] [s Hs].
  rewrite Hr in Hs. rewrite <- !app_assoc in Hs.
  apply app_inv_head in Hs. simpl in Hs. congruence.
Qed.

Lemma wellFormed_ancestor (fs : FS) (a : path) :
  wellFormed fs ->
  forall r : path, r <> [] -> is_Some (fs !! (a ++ r)) -> fs !! a = Some Directory.
Proof.
  intros Hwf r. induction r as [|x r IH] using rev_ind; [contradiction|].
  intros _ Hsome.
  assert (Hdir : fs !! (a ++ r) = Some Directory).
  { rewrite <- (Dir_snoc (a ++ r) x), <- app_assoc. apply Hwf; [|exact Hsome].
    intros Heq. apply (f_equal length) in Heq. rewrite !length_app in Heq.
    simpl in Heq. lia. }
  destruct (decide (r = [])) as [->|Hne]; [rewrite app_nil_r in Hdir; exact Hdir|].
  apply IH; [exact Hne|]. rewrite Hdir. eauto.
Qed.

Lemma wellFormed_below (fs : FS) (a q : path) :
  wellFormed fs -> strictlyBelow a q -> is_Some (fs !! q) ->
  fs !! a = Some Directory.
Proof.
  intros Hwf [[r ->] Hne] Hsome. apply (wellFormed_ancestor fs a Hwf r); [|exact Hsome].
  intros ->. rewrite app_nil_r in Hne. contradiction.
Qed.

(** What [ReadDir] returns: the entries of the directory, each once. *)
Lemma ReadDir_Some (fs : FS) (p : path) (es : list (path * kind)) :
  ReadDir fs p = Some es ->
  fs !! p = Some Directory /\ NoDup es.*1 /\
  forall q k, (q, k) ∈ es <-> fs !! q = Some k /\ entryOf p q.
Proof.
  unfold ReadDir. destruct (fs !! p) as [[|]|] eqn:Hp; try discriminate.
  intros [= <-]. split; [reflexivity|].
  assert (Hperm : merge_sort byName (filter (fun e => entryOf p e.1) (map_to_list fs))
                  ≡ₚ filter (fun e => entryOf p e.1) (map_to_list fs))
    by apply merge_sort_Permutation.
  split.
  - rewrite Hperm. apply (NoDup_fmap_fst _).
    + intros q k1 k2 [_ H1]%list_elem_of_filter [_ H2]%list_elem_of_filter.
      apply elem_of_map_to_list in H1, H2. congruence.
    + apply NoDup_filter, NoDup_map_to_list.
  - intros q k. rewrite Hperm, list_elem_of_filter, elem_of_map_to_list. simpl. tauto.
Qed.

Lemma ReadDir_None (fs : FS) (p : path) :
  ReadDir fs p = None <-> fs !! p <> Some Directory.
Proof.
  unfold ReadDir. destruct (fs !! p) as [[|]|]; split; congruence.
Qed.

(** ** The sets of directories to keep and to check *)

Lemma prefix_Dir (p parent : path) :
  p `prefix_of` parent -> p <> parent -> p `prefix_of` Dir parent.
Proof.
  intros [r ->] Hne. destruct (decide (r = [])) as [->|Hr].
  - rewrite app_nil_r in Hne. contradiction.
  - destruct (exists_last Hr) as (r' & x & ->).
    rewrite app_assoc, Dir_snoc. exists r'. reflexivity.
Qed.

Lemma strictlyBelow_Dir (a k : path) :
  strictlyBelow a k <-> a `prefix_of` Dir k /\ k <> [].
Proof.
  split.
  - intros [Hpre Hne]. split; [apply prefix_Dir; assumption|].
    intros ->. apply prefix_nil_inv in Hpre. congruence.
  - intros [Hpre Hk]. destruct (exists_last Hk) as (r & x & ->).
    rewrite Dir_snoc in Hpre. split.
    + destruct Hpre as [s ->]. exists (s ++ [x]). rewrite app_assoc. reflexivity.
    + intros ->. apply prefix_length in Hpre. rewrite length_app in Hpre.
      simpl in Hpre. lia.
Qed.

Lemma prefix_antisym (a b : path) :
  a `prefix_of` b -> b `prefix_of` a -> a = b.
Proof.
  intros Hab Hba. apply prefix_length_eq; [exact Hab|].
  apply prefix_length, Hba.
Qed.

Lemma checkLoop_inv (p : path) (fuel : nat) :
  forall (parent : path) (C C' : gset path),
    checkLoop fuel p parent C = Some C' ->
    p `prefix_of` parent /\
    forall a, a ∈ C' <-> a ∈ C \/ (strictlyBelow p a /\ a `prefix_of` parent).
Proof.
  induction fuel as [|fuel IH]; intros parent C C'; simpl;
    destruct (decide (parent = p)) as [->|Hne]; try discriminate.
  - intros [= <-]. split; [reflexivity|]. intros a. split; [auto|].
    intros [Ha|[[Hpa Hne] Hap]]; [exact Ha|].
    exfalso. apply Hne. apply prefix_antisym; assumption.
  - intros [= <-]. split; [reflexivity|]. intros a. split; [auto|].
    intros [Ha|[[Hpa Hne] Hap]]; [exact Ha|].
    exfalso. apply Hne. apply prefix_antisym; assumption.
  - intros Hrun. apply IH in Hrun as [Hpre Hchar].
    assert (Hpp : p `prefix_of` parent)
      by (etrans; [exact Hpre|apply Dir_prefix]).
    split; [exact Hpp|].
    intros a. rewrite Hchar, elem_of_union, elem_of_singleton.
    assert (Hparent : parent <> []).
    { intros ->. apply prefix_nil_inv in Hpp. congruence. }
    destruct (exists_last Hparent) as (r & x & ->). rewrite Dir_snoc in *.
    split.
    + intros [[->|Ha]|[Hs Hap]]; [|auto|].
      * right. split; [|reflexivity]. split; [exact Hpp|congruence].
      * right. split; [exact Hs|]. etrans; [exact Hap|]. exists [x]. reflexivity.
    + intros [Ha|[Hs Hap]]; [auto|].
      apply prefix_snoc_inv in Hap as [->|Hap]; auto.
Qed.

Lemma checkLoop_None (p : path) (fuel : nat) :
  forall (parent : path) (C : gset path),
    ~ p `prefix_of` parent -> checkLoop fuel p parent C = None.
Proof.
  induction fuel as [|fuel IH]; intros parent C Hpre; simpl;
    destruct (decide (parent = p)) as [->|Hne];
    try (exfalso; apply Hpre; reflexivity); [reflexivity|].
  apply IH. intros Hp. apply Hpre. etrans; [exact Hp|apply Dir_prefix].
Qed.

Lemma checkLoop_Some (p : path) (fuel : nat) :
  forall (parent : path) (C : gset path),
    p `prefix_of` parent -> (length parent <= fuel + length p)%nat ->
    is_Some (checkLoop fuel p parent C).
Proof.
  induction fuel as [|fuel IH]; intros parent C Hpre Hlen; simpl;
    destruct (decide (parent = p)) as [->|Hne]; eauto.
  - exfalso. apply Hne. symmetry. apply prefix_length_eq; [exact Hpre|]. simpl in Hlen. lia.
  - assert (Hparent : parent <> []).
    { intros ->. apply prefix_nil_inv in Hpre. congruence. }
    apply IH; [apply prefix_Dir; [exact Hpre|congruence]|].
    destruct (exists_last Hparent) as (r & x & ->). rewrite Dir_snoc.
    rewrite length_app in Hlen. simpl in Hlen. lia.
Qed.

Lemma exceptionsLoop_inv (p : path) (fuel : nat) (exceptions : list string) :
  forall K0 C0 K C : gset path,
    exceptionsLoop fuel p exceptions K0 C0 = Some (K, C) ->
    Forall (fun e => p `prefix_of` Dir (filepath_Join p e)) exceptions /\
    (forall k, k ∈ K <-> k ∈ K0 \/ exists e, e ∈ exceptions /\ k = filepath_Join p e) /\
    (forall a, a ∈ C <->
       a ∈ C0 \/ exists e, e ∈ exceptions /\ strictlyBelow p a /\
                           a `prefix_of` Dir (filepath_Join p e)).
Proof.
  induction exceptions as [|e rest IH]; intros K0 C0 K C; simpl.
  - intros [= <- <-]. split; [constructor|].
    split; intros x; (split; [auto|]); intros [H|(e & He & _)]; auto;
      apply elem_of_nil in He; contradiction.
  - destruct (checkLoop fuel p (Dir (filepath_Join p e)) C0) as [C1|] eqn:Hcheck;
      [|discriminate].
    apply checkLoop_inv in Hcheck as [Hpre Hchar].
    intros Hrun. apply IH in Hrun as (Hall & HK & HC).
    split; [constructor; assumption|]. split.
    + intros k. rewrite HK, elem_of_union, elem_of_singleton. split.
      * intros [[->|Hk]|(e' & He' & ->)]; [right; exists e; split; [left|reflexivity]
                                           |auto|right; exists e'; split; [right; exact He'|reflexivity]].
      * intros [Hk|(e' & [->|He']%elem_of_cons & ->)]; [auto|auto|right; eauto].
    + intros a. rewrite HC, Hchar. split.
      * intros [[Ha|[Hs Hap]]|(e' & He' & Hs & Hap)]; [auto| |].
        -- right. exists e. split; [left|auto].
        -- right. exists e'. split; [right; exact He'|auto].
      * intros [Ha|(e' & [->|He']%elem_of_cons & Hs & Hap)]; [auto|auto|right; eauto].
Qed.

Lemma exceptionsLoop_None (p : path) (fuel : nat) (exceptions : list string) :
  forall K0 C0 : gset path,
    Exists (fun e => ~ p `prefix_of` Dir (filepath_Join p e)) exceptions ->
    exceptionsLoop fuel p exceptions K0 C0 = None.
Proof.
  induction exceptions as [|e rest IH]; intros K0 C0 Hex; [inversion Hex|].
  simpl. apply Exists_cons in Hex as [Hbad|Hex].
  - rewrite checkLoop_None by exact Hbad. reflexivity.
  - destruct (checkLoop fuel p (Dir (filepath_Join p e)) C0); [|reflexivity].
    apply IH, Hex.
Qed.

Lemma exceptionsLoop_Some (p : path) (fuel : nat) (exceptions : list string) :
  forall K0 C0 : gset path,
    Forall (fun e => p `prefix_of` Dir (filepath_Join p e)) exceptions ->
    Forall (fun e => (length (filepath_Join p e) <= fuel)%nat) exceptions ->
    is_Some (exceptionsLoop fuel p exceptions K0 C0).
Proof.
  induction exceptions as [|e rest IH]; intros K0 C0 Hall Hlen; simpl; [eauto|].
  apply Forall_cons in Hall as [Hpre Hall]. apply Forall_cons in Hlen as [Hl Hlen].
  destruct (checkLoop_Some p fuel (Dir (filepath_Join p e)) C0 Hpre) as [C1 ->].
  { pose proof (prefix_length _ _ (Dir_prefix (filepath_Join p e))). lia. }
  apply IH; assumption.
Qed.

(** ** What the walk may remove *)

Lemma os_RemoveAll_lookup (fs : FS) (p q : path) :
  os_RemoveAll fs p !! q = if decide (p `prefix_of` q) then None else fs !! q.
Proof.
  unfold os_RemoveAll. destruct (decide (p `prefix_of` q)) as [Hpre|Hpre].
  - apply map_lookup_filter_None. right. intros k _ Hn. apply Hn. exact Hpre.
  - destruct (fs !! q) as [k|] eqn:Hq.
    + apply map_lookup_filter_Some. split; [exact Hq|exact Hpre].
    + apply map_lookup_filter_None. left. exact Hq.
Qed.

Section Walk.
Variable p0 : path.
Variables keepDirs checkDirs : gset path.
Hypothesis checked :
  forall k a, k ∈ keepDirs -> strictlyBelow p0 a -> strictlyBelow a k -> a ∈ checkDirs.

Lemma touches_refl (fs : FS) (p : path) : touches p0 keepDirs fs fs p.
Proof. intros q. left. reflexivity. Qed.

Lemma protected_kept (fs fs' : FS) (p q : path) :
  touches p0 keepDirs fs fs' p -> protected p0 keepDirs fs q -> protected p0 keepDirs fs' q.
Proof.
  intros Hrel (k & Hk & Hbelow & Hpre & Hdir). exists k.
  split; [exact Hk|]. split; [exact Hbelow|]. split; [exact Hpre|].
  destruct (Hrel k) as [Heq|(_ & _ & Hn)]; [congruence|].
  exfalso. apply Hn. exists k. auto.
Qed.

Lemma touches_trans (fs fs1 fs2 : FS) (p : path) :
  touches p0 keepDirs fs fs1 p -> touches p0 keepDirs fs1 fs2 p -> touches p0 keepDirs fs fs2 p.
Proof.
  intros H1 H2 q. destruct (H2 q) as [Heq2|(Hnone & Hbelow & Hprot)].
  - destruct (H1 q) as [Heq1|(Hnone & Hbelow & Hprot)].
    + left. congruence.
    + right. split; [congruence|auto].
  - right. split; [exact Hnone|]. split; [exact Hbelow|].
    intros Hp. apply Hprot. apply (protected_kept fs fs1 p); assumption.
Qed.

Lemma touches_below (fs fs' : FS) (p abs : path) :
  entryOf p abs -> touches p0 keepDirs fs fs' abs -> touches p0 keepDirs fs fs' p.
Proof.
  intros Hentry Hrel q. destruct (Hrel q) as [Heq|(Hnone & [Hpre Hne] & Hprot)];
    [left; exact Heq|right].
  split; [exact Hnone|]. split; [|exact Hprot].
  apply (strictlyBelow_entry p abs); assumption.
Qed.

Lemma unprotected_entry (p abs : path) :
  unprotected p0 keepDirs p -> entryOf p abs -> abs ∉ keepDirs -> unprotected p0 keepDirs abs.
Proof.
  intros Hun [x ->]%entryOf_snoc Hkeep k Hk Hbelow Hpre.
  apply prefix_snoc_inv in Hpre as [->|Hpre]; [contradiction|].
  exact (Hun k Hk Hbelow Hpre).
Qed.

Lemma entriesLoop_touches (p : path)
    (rec : FS -> path -> option (FS * option rmError)) :
  p0 `prefix_of` p -> unprotected p0 keepDirs p ->
  (forall fs abs fs' err,
     entryOf p abs -> abs ∉ keepDirs ->
     rec fs abs = Some (fs', err) -> touches p0 keepDirs fs fs' abs) ->
  forall (es : list (path * kind)) (fs fs' : FS) (err : option rmError),
    (forall q k, (q, k) ∈ es -> entryOf p q /\ (fs !! q = Some k \/ fs !! q = None)) ->
    entriesLoop rec keepDirs checkDirs es fs = Some (fs', err) ->
    touches p0 keepDirs fs fs' p.
Proof.
  intros Hp0 Hun Hrec es.
  induction es as [|[abs k] es IH]; intros fs fs' err Hes; simpl.
  { intros [= <- <-]. apply touches_refl. }
  assert (Hentry : entryOf p abs) by (apply (Hes abs k); left).
  assert (Hkind : fs !! abs = Some k \/ fs !! abs = None) by (apply (Hes abs k); left).
  assert (Hnext : forall fs1, touches p0 keepDirs fs fs1 p ->
            forall q k', (q, k') ∈ es ->
              entryOf p q /\ (fs1 !! q = Some k' \/ fs1 !! q = None)).
  { intros fs1 Hrel q k' Hin. destruct (Hes q k') as [He Hq]; [right; exact Hin|].
    split; [exact He|]. destruct (Hrel q) as [Heq|[Hnone _]]; [rewrite Heq; exact Hq|auto]. }
  assert (Hstep : forall fs1, touches p0 keepDirs fs fs1 p ->
            entriesLoop rec keepDirs checkDirs es fs1 = Some (fs', err) ->
            touches p0 keepDirs fs fs' p).
  { intros fs1 Hrel Hrun. apply (touches_trans fs fs1 fs' p Hrel).
    apply (IH fs1 fs' err); [apply Hnext, Hrel|exact Hrun]. }
  destruct k.
  - (* a file *)
    destruct (os_Remove fs abs) as [fs1 [e|]] eqn:Hrm.
    + apply os_Remove_error in Hrm as [-> _]. intros [= <- <-]. apply touches_refl.
    + apply os_Remove_ok in Hrm as (-> & Hsome & _ & _).
      apply Hstep. intros q. destruct (decide (q = abs)) as [->|Hq].
      * right. split; [apply lookup_delete_eq|].
        split; [apply (strictlyBelow_entry p abs); [exact Hentry|reflexivity]|].
        intros (k & Hk & Hbelow & Hpre & Hdir).
        apply entryOf_snoc in Hentry as [x ->].
        apply prefix_snoc_inv in Hpre as [->|Hpre]; [|exact (Hun k Hk Hbelow Hpre)].
        destruct Hkind as [Hkind|Hkind]; congruence.
      * left. apply lookup_delete_ne. congruence.
  - (* a directory *)
    destruct (decide (abs ∈ keepDirs)) as [Hkeep|Hkeep].
    { apply Hstep, touches_refl. }
    destruct (decide (abs ∈ checkDirs)) as [Hcheck|Hcheck].
    + destruct (rec fs abs) as [[fs1 [e|]]|] eqn:Hcall; [| |discriminate].
      * intros [= <- <-]. apply (touches_below fs fs1 p abs Hentry).
        apply (Hrec fs abs fs1 (Some e)); assumption.
      * apply Hstep. apply (touches_below fs fs1 p abs Hentry).
        apply (Hrec fs abs fs1 None); assumption.
    + apply Hstep. intros q. rewrite os_RemoveAll_lookup.
      destruct (decide (abs `prefix_of` q)) as [Hpre|Hpre]; [right|left; reflexivity].
      split; [reflexivity|].
      split; [apply (strictlyBelow_entry p abs); assumption|].
      intros (k & Hk & Hbelow & Hkq & Hdir).
      destruct (prefix_weak_total _ _ _ Hkq Hpre) as [Hka|Hak].
      * pose proof Hentry as [x Hx]%entryOf_snoc. rewrite Hx in Hka.
        apply prefix_snoc_inv in Hka as [Heq|Hka]; [|exact (Hun k Hk Hbelow Hka)].
        apply Hkeep. rewrite Hx, <- Heq. exact Hk.
      * apply Hcheck. apply (checked k abs Hk).
        -- pose proof (strictlyBelow_entry p abs abs Hentry ltac:(reflexivity))
             as [H1 H2].
           split; [etrans; [exact Hp0|exact H1]|].
           intros <-. apply H2. apply prefix_antisym; assumption.
        -- split; [exact Hak|]. intros ->. contradiction.
Qed.

Lemma removeWithExceptions_touches (fuel : nat) :
  forall (fs : FS) (p : path) (fs' : FS) (err : option rmError),
    p0 `prefix_of` p -> unprotected p0 keepDirs p ->
    removeWithExceptions fuel fs p keepDirs checkDirs = Some (fs', err) ->
    touches p0 keepDirs fs fs' p.
Proof.
  induction fuel as [|fuel IH]; intros fs p fs' err Hp0 Hun; simpl; [discriminate|].
  destruct (ReadDir fs p) as [es|] eqn:Hread.
  - apply ReadDir_Some in Hread as (_ & _ & Hes).
    apply (entriesLoop_touches p _ Hp0 Hun).
    + intros fs1 abs fs2 err' Hentry Hkeep Hcall.
      apply (IH fs1 abs fs2 err'); [|apply (unprotected_entry p); assumption|exact Hcall].
      etrans; [exact Hp0|]. apply entryOf_snoc in Hentry as [x ->]. exists [x]. reflexivity.
    + intros q k Hin. apply Hes in Hin as [Hq He]. auto.
  - intros [= <- <-]. apply touches_refl.
Qed.
End Walk.

(** ** The walk comes to an end *)

Lemma entriesLoop_Some (p : path) (keepDirs checkDirs : gset path)
    (rec : FS -> path -> option (FS * option rmError)) :
  (forall fs abs, entryOf p abs -> abs ∈ checkDirs -> is_Some (rec fs abs)) ->
  forall (es : list (path * kind)) (fs : FS),
    (forall e, e ∈ es -> entryOf p e.1) ->
    is_Some (entriesLoop rec keepDirs checkDirs es fs).
Proof.
  intros Hrec es. induction es as [|[abs k] es IH]; intros fs Hes; simpl; [eauto|].
  assert (Hentry : entryOf p abs) by (apply (Hes (abs, k)); left).
  assert (Hrest : forall e, e ∈ es -> entryOf p e.1) by (intros e He; apply Hes; right; exact He).
  destruct k.
  - destruct (os_Remove fs abs) as [fs1 [e|]]; [eauto|apply IH, Hrest].
  - destruct (decide (abs ∈ keepDirs)); [apply IH, Hrest|].
    destruct (decide (abs ∈ checkDirs)) as [Hcheck|]; [|apply IH, Hrest].
    destruct (Hrec fs abs Hentry Hcheck) as [[fs1 [e|]] ->]; [eauto|apply IH, Hrest].
Qed.

Lemma removeWithExceptions_Some (keepDirs checkDirs : gset path) (L : nat) :
  (forall a, a ∈ checkDirs -> (length a <= L)%nat) ->
  forall (fuel : nat) (fs : FS) (p : path),
    (L <= fuel + length p)%nat ->
    is_Some (removeWithExceptions (S fuel) fs p keepDirs checkDirs).
Proof.
  intros HL fuel. induction fuel as [|fuel IH]; intros fs p Hfuel;
    simpl; (destruct (ReadDir fs p) as [es|] eqn:Hread; [|eauto]);
    apply ReadDir_Some in Hread as (_ & _ & Hes);
    apply (entriesLoop_Some p);
    try (intros [q k] Hin; apply Hes in Hin; tauto).
  - intros fs1 abs [x ->]%entryOf_snoc Hcheck. exfalso.
    apply HL in Hcheck. rewrite length_app in Hcheck. simpl in *. lia.
  - intros fs1 abs [x ->]%entryOf_snoc Hcheck. apply IH.
    apply HL in Hcheck. rewrite length_app in Hcheck |- *. simpl in *. lia.
Qed.


Lemma leadsBelow_Dir (p : path) (dir : string) :
  p `prefix_of` Dir (filepath_Join p dir) <-> p = [] \/ leadsBelow p dir.
Proof.
  unfold leadsBelow. rewrite strictlyBelow_Dir. split.
  - intros Hpre. destruct (decide (p = [])) as [->|Hp]; [left; reflexivity|right].
    split; [exact Hpre|]. intros Heq. rewrite Heq in Hpre. simpl in Hpre.
    apply prefix_nil_inv in Hpre. contradiction.
  - intros [->|[Hpre _]]; [apply prefix_nil|exact Hpre].
Qed.

(** X21: [removeAllExcept] returns when every exception names a place
    strictly below [path] (or [path] is the root); an exception that does
    not, such as [.], the empty string or [..], makes the loop over the
    parents run for ever. *)
Theorem removeAllExcept_returns_or_hangs (fs : FS) (p : path)
    (exceptions : list string) :
  (Forall (fun dir => p = [] \/ leadsBelow p dir) exceptions ->
   exists fuel0, forall fuel, (fuel0 <= fuel)%nat ->
     is_Some (removeAllExcept fuel fs p exceptions)) /\
  (Exists (fun dir => p <> [] /\ ~ leadsBelow p dir) exceptions ->
   forall fuel, removeAllExcept fuel fs p exceptions = None).
Proof.
  split.
  - intros Hall.
    assert (Hpre : Forall (fun e => p `prefix_of` Dir (filepath_Join p e)) exceptions).
    { eapply Forall_impl; [exact Hall|]. intros e He. apply leadsBelow_Dir, He. }
    set (L := max_list (length <$> (filepath_Join p <$> exceptions))).
    assert (HL : forall e, e ∈ exceptions -> (length (filepath_Join p e) <= L)%nat).
    { intros e He. apply max_list_elem_of_le.
      apply list_elem_of_fmap. exists (filepath_Join p e). split; [reflexivity|].
      apply list_elem_of_fmap. eauto. }
    exists (S L). intros fuel Hfuel. unfold removeAllExcept.
    destruct (exceptionsLoop_Some p fuel exceptions ∅ ∅ Hpre) as [[K C] Hloop].
    { apply Forall_forall. intros e He. apply HL in He. lia. }
    rewrite Hloop. apply exceptionsLoop_inv in Hloop as (_ & _ & HC).
    destruct fuel as [|fuel]; [lia|].
    apply (removeWithExceptions_Some K C L); [|lia].
    intros a [Ha|(e & He & _ & Hae)]%HC; [apply elem_of_empty in Ha; contradiction|].
    apply prefix_length in Hae.
    pose proof (prefix_length _ _ (Dir_prefix (filepath_Join p e))).
    apply HL in He. lia.
  - intros Hex fuel. unfold removeAllExcept.
    rewrite exceptionsLoop_None; [reflexivity|].
    eapply Exists_impl; [exact Hex|]. intros e [Hp Hbad] Hpre.
    apply leadsBelow_Dir in Hpre as [?|?]; contradiction.
Qed.

(** X22: whenever [removeAllExcept] returns, with or without an error, it
    has created and changed nothing, has removed nothing outside [path]
    nor [path] itself, and has left every directory that an exception
    names, with all that is in it, as it was. *)
Theorem removeAllExcept_spares (fuel : nat) (fs fs' : FS) (p : path)
    (exceptions : list string) (err : option rmError) :
  removeAllExcept fuel fs p exceptions = Some (fs', err) ->
  (forall q, is_Some (fs' !! q) -> fs' !! q = fs !! q) /\
  (forall q, ~ strictlyBelow p q -> fs' !! q = fs !! q) /\
  (forall dir q,
     dir ∈ exceptions -> leadsBelow p dir ->
     fs !! filepath_Join p dir = Some Directory ->
     filepath_Join p dir `prefix_of` q ->
     fs' !! q = fs !! q).
Proof.
  unfold removeAllExcept.
  destruct (exceptionsLoop fuel p exceptions ∅ ∅) as [[K C]|] eqn:Hloop; [|discriminate].
  apply exceptionsLoop_inv in Hloop as (_ & HK & HC). intros Hrun.
  assert (Hrel : touches p K fs fs' p).
  { apply (removeWithExceptions_touches p K C) with (fuel := fuel) (err := err);
      [|reflexivity| |exact Hrun].
    - intros k a [Hk|(e & He & ->)]%HK Hpa Hak;
        [apply elem_of_empty in Hk; contradiction|].
      apply HC. right. exists e. split; [exact He|]. split; [exact Hpa|].
      apply (proj1 (strictlyBelow_Dir _ _) Hak).
    - intros k Hk [Hpk Hne] Hkp. apply Hne. apply prefix_antisym; assumption. }
  split; [|split].
  - intros q Hq. destruct (Hrel q) as [Heq|[Hnone _]]; [exact Heq|].
    rewrite Hnone in Hq. destruct Hq; discriminate.
  - intros q Hq. destruct (Hrel q) as [Heq|(_ & Hb & _)]; [exact Heq|contradiction].
  - intros dir q Hdir Hbelow Hkind Hpre.
    destruct (Hrel q) as [Heq|(_ & _ & Hprot)]; [exact Heq|].
    exfalso. apply Hprot. exists (filepath_Join p dir).
    split; [apply HK; right; eauto|auto].
Qed.

Lemma os_Remove_file (fs : FS) (abs : path) :
  wellFormed fs -> fs !! abs = Some RegularFile -> abs <> [] ->
  os_Remove fs abs = (delete abs fs, None).
Proof.
  intros Hwf Hfile Hne. unfold os_Remove. rewrite Hfile.
  rewrite decide_False by exact Hne.
  replace (isEmpty fs abs) with true; [reflexivity|].
  symmetry. apply bool_decide_eq_true. intros q k Hq [Hq0 Hdir].
  assert (Habs : fs !! Dir q = Some Directory) by (apply Hwf; eauto).
  rewrite Hdir in Habs. congruence.
Qed.

Section WalkExact.
Variable p0 : path.
Variables keepDirs checkDirs : gset path.
Hypothesis checked :
  forall k a, k ∈ keepDirs -> strictlyBelow p0 a -> strictlyBelow a k -> a ∈ checkDirs.
Hypothesis check_up :
  forall a a', a ∈ checkDirs -> strictlyBelow p0 a' -> a' `prefix_of` a -> a' ∈ checkDirs.
Hypothesis keep_below : forall k, k ∈ keepDirs -> strictlyBelow p0 k.
Variable L : nat.
Hypothesis check_length : forall a, a ∈ checkDirs -> (length a <= L)%nat.

Lemma kept_parent (fs : FS) (p abs q : path) :
  wellFormed fs -> p0 `prefix_of` p -> entryOf p abs ->
  strictlyBelow abs q -> is_Some (fs !! q) -> kept p0 keepDirs checkDirs fs q -> kept p0 keepDirs checkDirs fs (Dir q).
Proof.
  intros Hwf Hp0 Hentry Hbelow Hsome Hkept.
  assert (Hq : q <> []).
  { intros ->. destruct Hbelow as [Hpre Hne]. apply prefix_nil_inv in Hpre. congruence. }
  assert (Hdir : fs !! Dir q = Some Directory) by (apply Hwf; assumption).
  assert (Habs : abs `prefix_of` Dir q)
    by (apply prefix_Dir; [apply Hbelow|apply Hbelow]).
  assert (Hp0q : strictlyBelow p0 (Dir q)).
  { destruct (strictlyBelow_entry p abs (Dir q) Hentry Habs) as [H1 H2].
    split; [etrans; eassumption|]. intros Heq. apply H2.
    apply prefix_antisym; [exact H1|rewrite <- Heq; exact Hp0]. }
  destruct Hkept as [(k & Hk & Hkb & Hkq & Hkd)|[Hc _]].
  - destruct (decide (k = q)) as [->|Hne].
    + right. split; [|exact Hdir]. apply (checked q); [exact Hk|exact Hp0q|].
      apply strictlyBelow_Dir. split; [reflexivity|exact Hq].
    + left. exists k. split; [exact Hk|]. split; [exact Hkb|].
      split; [apply prefix_Dir; assumption|exact Hkd].
  - right. split; [|exact Hdir].
    apply (check_up q); [exact Hc|exact Hp0q|apply Dir_prefix].
Qed.

Lemma cleared_wellFormed (fs fs' : FS) (p abs : path) :
  wellFormed fs -> p0 `prefix_of` p -> entryOf p abs ->
  cleared p0 keepDirs checkDirs fs fs' (fun q => abs `prefix_of` q) ->
  wellFormed fs'.
Proof.
  intros Hwf Hp0 Hentry Hcl q Hq Hsome.
  destruct (Hcl q) as (Hout & Hsame & _ & Hin).
  assert (Hwas : is_Some (fs !! q)).
  { destruct Hsame as [<-|Hnone]; [exact Hsome|].
    rewrite Hnone in Hsome. destruct Hsome; discriminate. }
  assert (Hdir : fs !! Dir q = Some Directory) by (apply Hwf; assumption).
  destruct (Hcl (Dir q)) as (Hout' & _ & Hkept' & _).
  destruct (decide (abs `prefix_of` Dir q)) as [Hpre|Hpre];
    [|rewrite Hout' by exact Hpre; exact Hdir].
  rewrite Hkept'; [exact Hdir|].
  assert (Hbelow : strictlyBelow abs q).
  { apply strictlyBelow_Dir. auto. }
  apply (kept_parent fs p abs q); try assumption.
  apply Hin; [apply Hbelow|exact Hsome].
Qed.

Lemma kept_outside (fs fs1 : FS) (abs q : path) :
  (forall q', ~ abs `prefix_of` q' -> fs1 !! q' = fs !! q') ->
  ~ abs `prefix_of` q -> kept p0 keepDirs checkDirs fs1 q <-> kept p0 keepDirs checkDirs fs q.
Proof.
  intros Hout Hq.
  assert (Hk : forall k, k `prefix_of` q -> fs1 !! k = fs !! k).
  { intros k Hkq. apply Hout. intros Hak. apply Hq. etrans; eassumption. }
  unfold kept, protected. split.
  - intros [(k & H1 & H2 & H3 & H4)|[H1 H2]].
    + left. exists k. rewrite <- (Hk k H3). auto.
    + right. rewrite <- (Hk q) by reflexivity. auto.
  - intros [(k & H1 & H2 & H3 & H4)|[H1 H2]].
    + left. exists k. rewrite (Hk k H3). auto.
    + right. rewrite (Hk q) by reflexivity. auto.
Qed.

Lemma cleared_step (fs fs1 fs' : FS) (abs : path) (R : path -> Prop) :
  cleared p0 keepDirs checkDirs fs fs1 (fun q => abs `prefix_of` q) ->
  cleared p0 keepDirs checkDirs fs1 fs' R ->
  (forall q, R q -> ~ abs `prefix_of` q) ->
  cleared p0 keepDirs checkDirs fs fs' (fun q => abs `prefix_of` q \/ R q).
Proof.
  intros H1 H2 Hapart q.
  destruct (H1 q) as (Hout1 & Hsame1 & Hkept1 & Hin1).
  destruct (H2 q) as (Hout2 & Hsame2 & Hkept2 & Hin2).
  destruct (decide (abs `prefix_of` q)) as [Hpre|Hpre].
  - assert (HnR : ~ R q) by (intros HR; exact (Hapart q HR Hpre)).
    rewrite (Hout2 HnR). split; [tauto|]. split; [exact Hsame1|].
    split; [exact Hkept1|]. intros _. apply Hin1, Hpre.
  - assert (Hiff : kept p0 keepDirs checkDirs fs1 q <-> kept p0 keepDirs checkDirs fs q).
    { apply (kept_outside fs fs1 abs q); [|exact Hpre].
      intros q' Hq'. exact (proj1 (H1 q') Hq'). }
    rewrite <- (Hout1 Hpre).
    split; [intros Hn; apply Hout2; tauto|]. split; [exact Hsame2|].
    split; [intros Hk; apply Hkept2, Hiff, Hk|].
    intros [?|HR] Hsome; [contradiction|]. apply Hiff, Hin2; assumption.
Qed.

Lemma cleared_region (fs fs' : FS) (R R' : path -> Prop) :
  (forall q, R q <-> R' q) -> cleared p0 keepDirs checkDirs fs fs' R -> cleared p0 keepDirs checkDirs fs fs' R'.
Proof.
  intros Hiff Hcl q. destruct (Hcl q) as (H1 & H2 & H3 & H4).
  split; [intros Hn; apply H1; rewrite Hiff; exact Hn|].
  split; [exact H2|]. split; [exact H3|].
  intros HR. apply H4, Hiff, HR.
Qed.

Lemma not_kept_below (fs : FS) (p abs q : path) :
  p0 `prefix_of` p -> unprotected p0 keepDirs p -> entryOf p abs ->
  abs ∉ keepDirs -> abs ∉ checkDirs -> abs `prefix_of` q -> ~ kept p0 keepDirs checkDirs fs q.
Proof.
  intros Hp0 Hun Hentry Hkeep Hcheck Hpre.
  assert (Hp0abs : strictlyBelow p0 abs).
  { destruct (strictlyBelow_entry p abs abs Hentry ltac:(reflexivity)) as [H1 H2].
    split; [etrans; eassumption|]. intros Heq. apply H2.
    apply prefix_antisym; [exact H1|rewrite <- Heq; exact Hp0]. }
  intros [(k & Hk & Hbelow & Hkq & Hdir)|[Hc _]].
  - destruct (prefix_weak_total _ _ _ Hkq Hpre) as [Hka|Hak].
    + pose proof Hentry as [x Hx]%entryOf_snoc. rewrite Hx in Hka.
      apply prefix_snoc_inv in Hka as [Heq|Hka]; [|exact (Hun k Hk Hbelow Hka)].
      apply Hkeep. rewrite Hx, <- Heq. exact Hk.
    + apply Hcheck. apply (checked k abs Hk Hp0abs).
      split; [exact Hak|]. intros ->. contradiction.
  - apply Hcheck. apply (check_up q abs Hc Hp0abs Hpre).
Qed.

Lemma entriesLoop_cleared (p : path)
    (rec : FS -> path -> option (FS * option rmError)) :
  p0 `prefix_of` p -> unprotected p0 keepDirs p ->
  (forall fs abs,
     wellFormed fs -> fs !! abs = Some Directory -> entryOf p abs ->
     abs ∉ keepDirs -> abs ∈ checkDirs ->
     exists fs', rec fs abs = Some (fs', None) /\
                 cleared p0 keepDirs checkDirs fs fs' (strictlyBelow abs)) ->
  forall (es : list (path * kind)) (fs : FS),
    wellFormed fs -> NoDup es.*1 ->
    (forall q k, (q, k) ∈ es -> entryOf p q /\ fs !! q = Some k) ->
    exists fs',
      entriesLoop rec keepDirs checkDirs es fs = Some (fs', None) /\
      wellFormed fs' /\
      cleared p0 keepDirs checkDirs fs fs' (fun q => exists e, e ∈ es /\ e.1 `prefix_of` q).
Proof.
  intros Hp0 Hun Hrec es.
  induction es as [|[abs k] es IH]; intros fs Hwf Hnodup Hes; simpl.
  { exists fs. split; [reflexivity|]. split; [exact Hwf|].
    intros q. split; [reflexivity|]. split; [left; reflexivity|].
    split; [reflexivity|]. intros (e & He & _). apply elem_of_nil in He. contradiction. }
  assert (Hentry : entryOf p abs) by (apply (Hes abs k); left).
  assert (Hkind : fs !! abs = Some k) by (apply (Hes abs k); left).
  apply NoDup_cons in Hnodup as [Hnotin Hnodup].
  assert (Hapart : forall q, (exists e, e ∈ es /\ e.1 `prefix_of` q) -> ~ abs `prefix_of` q).
  { intros q ([q' k'] & He & Hq') Hpre. simpl in Hq'.
    apply Hnotin. apply list_elem_of_fmap. exists (q', k'). split; [|exact He].
    simpl. apply (entries_apart p abs q' q); [exact Hentry| |exact Hpre|exact Hq'].
    apply (Hes q' k'). right. exact He. }
  assert (Hstep : forall fs1,
            cleared p0 keepDirs checkDirs fs fs1 (fun q => abs `prefix_of` q) ->
            exists fs',
              entriesLoop rec keepDirs checkDirs es fs1 = Some (fs', None) /\
              wellFormed fs' /\
              cleared p0 keepDirs checkDirs fs fs' (fun q => exists e, e ∈ (abs, k) :: es /\ e.1 `prefix_of` q)).
  { intros fs1 Hcl.
    assert (Hwf1 : wellFormed fs1)
      by (apply (cleared_wellFormed fs fs1 p abs); assumption).
    destruct (IH fs1 Hwf1 Hnodup) as (fs' & Hrun & Hwf' & Hcl').
    { intros q k' Hin. destruct (Hes q k') as [He Hq]; [right; exact Hin|].
      split; [exact He|]. rewrite <- Hq. apply (proj1 (Hcl q)).
      apply Hapart. exists (q, k'). split; [exact Hin|reflexivity]. }
    exists fs'. split; [exact Hrun|]. split; [exact Hwf'|].
    apply (cleared_region fs fs'
             (fun q => abs `prefix_of` q \/ exists e, e ∈ es /\ e.1 `prefix_of` q)).
    - intros q. split.
      + intros [Hpre|(e & He & Hq)]; [exists (abs, k); split; [left|exact Hpre]|].
        exists e. split; [right; exact He|exact Hq].
      + intros (e & [->|He]%elem_of_cons & Hq); [left; exact Hq|right; eauto].
    - apply (cleared_step fs fs1 fs' abs); assumption. }
  assert (Hp0abs : strictlyBelow p0 abs).
  { destruct (strictlyBelow_entry p abs abs Hentry ltac:(reflexivity)) as [H1 H2].
    split; [etrans; eassumption|]. intros Heq. apply H2.
    apply prefix_antisym; [exact H1|rewrite <- Heq; exact Hp0]. }
  assert (Habs0 : abs <> []).
  { apply entryOf_snoc in Hentry as [x ->]. intros Heq.
    apply (f_equal length) in Heq. rewrite length_app in Heq. simpl in Heq. lia. }
  destruct k.
  - (* a file: removed *)
    rewrite (os_Remove_file fs abs Hwf Hkind Habs0). apply Hstep.
    intros q. split; [intros Hpre; apply lookup_delete_ne; intros ->; apply Hpre; reflexivity|].
    assert (Hgone : abs `prefix_of` q -> delete abs fs !! q = None).
    { intros Hpre. destruct (decide (q = abs)) as [->|Hne]; [apply lookup_delete_eq|].
      rewrite lookup_delete_ne by congruence.
      destruct (fs !! q) as [kq|] eqn:Hq; [|reflexivity]. exfalso.
      assert (Hd : fs !! abs = Some Directory).
      { apply (wellFormed_below fs abs q Hwf); [split; [exact Hpre|congruence]|eauto]. }
      congruence. }
    assert (Hnk : abs `prefix_of` q -> ~ kept p0 keepDirs checkDirs fs q).
    { intros Hpre [(k & Hk & Hbelow & Hkq & Hdir)|[Hc Hd]].
      - destruct (prefix_weak_total _ _ _ Hkq Hpre) as [Hka|Hak].
        + pose proof Hentry as [x Hx]%entryOf_snoc. rewrite Hx in Hka.
          apply prefix_snoc_inv in Hka as [Heq|Hka]; [|exact (Hun k Hk Hbelow Hka)].
          rewrite <- Hx in Heq. subst k. congruence.
        + destruct (decide (k = abs)) as [->|Hne]; [congruence|].
          assert (Hd : fs !! abs = Some Directory).
          { apply (wellFormed_below fs abs k Hwf); [split; [exact Hak|congruence]|].
            rewrite Hdir. eauto. }
          congruence.
      - destruct (decide (q = abs)) as [->|Hne]; [congruence|].
        assert (Hd' : fs !! abs = Some Directory).
        { apply (wellFormed_below fs abs q Hwf); [split; [exact Hpre|congruence]|].
          rewrite Hd. eauto. }
        congruence. }
    destruct (decide (abs `prefix_of` q)) as [Hpre|Hpre].
    + split; [right; apply Hgone, Hpre|].
      split; [intros Hk; exfalso; exact (Hnk Hpre Hk)|].
      intros _ Hsome. rewrite (Hgone Hpre) in Hsome. destruct Hsome; discriminate.
    + assert (Hsame : delete abs fs !! q = fs !! q).
      { apply lookup_delete_ne. intros ->. apply Hpre. reflexivity. }
      split; [left; exact Hsame|]. split; [intros _; exact Hsame|].
      intros ?. contradiction.
  - (* a directory *)
    destruct (decide (abs ∈ keepDirs)) as [Hkeep|Hkeep].
    { apply Hstep. intros q. split; [reflexivity|]. split; [left; reflexivity|].
      split; [reflexivity|]. intros Hpre _. left. exists abs. auto. }
    destruct (decide (abs ∈ checkDirs)) as [Hcheck|Hcheck].
    + destruct (Hrec fs abs Hwf Hkind Hentry Hkeep Hcheck) as (fs1 & -> & Hcl).
      apply Hstep. intros q. destruct (Hcl q) as (Hout & Hsame & Hkept & Hin).
      split.
      { intros Hpre. apply Hout. intros [Hq _]. contradiction. }
      split; [exact Hsame|]. split; [exact Hkept|].
      intros Hpre Hsome. destruct (decide (q = abs)) as [->|Hne].
      * right. auto.
      * apply Hin; [split; [exact Hpre|congruence]|exact Hsome].
    + apply Hstep. intros q. rewrite os_RemoveAll_lookup.
      destruct (decide (abs `prefix_of` q)) as [Hpre|Hpre].
      * split; [tauto|]. split; [right; reflexivity|].
        split.
        { intros Hk. exfalso.
          exact (not_kept_below fs p abs q Hp0 Hun Hentry Hkeep Hcheck Hpre Hk). }
        intros _ Hsome. destruct Hsome; discriminate.
      * split; [reflexivity|]. split; [left; reflexivity|].
        split; [reflexivity|]. intros ?. contradiction.
Qed.

Lemma removeWithExceptions_cleared (fuel : nat) :
  forall (fs : FS) (p : path),
    wellFormed fs -> fs !! p = Some Directory ->
    p0 `prefix_of` p -> unprotected p0 keepDirs p ->
    (L <= fuel + length p)%nat ->
    exists fs',
      removeWithExceptions (S fuel) fs p keepDirs checkDirs = Some (fs', None) /\
      wellFormed fs' /\ cleared p0 keepDirs checkDirs fs fs' (strictlyBelow p).
Proof.
  assert (Hgen : forall (rec : FS -> path -> option (FS * option rmError))
                        (fs : FS) (p : path),
    wellFormed fs -> fs !! p = Some Directory ->
    p0 `prefix_of` p -> unprotected p0 keepDirs p ->
    (forall fs1 abs,
       wellFormed fs1 -> fs1 !! abs = Some Directory -> entryOf p abs ->
       abs ∉ keepDirs -> abs ∈ checkDirs ->
       exists fs', rec fs1 abs = Some (fs', None) /\
                   cleared p0 keepDirs checkDirs fs1 fs' (strictlyBelow abs)) ->
    exists fs',
      match ReadDir fs p with
      | None => Some (fs, Some (ReadDirError p))
      | Some entries => entriesLoop rec keepDirs checkDirs entries fs
      end = Some (fs', None) /\
      wellFormed fs' /\ cleared p0 keepDirs checkDirs fs fs' (strictlyBelow p)).
  { intros rec fs p Hwf Hdir Hp0 Hun Hrec.
    destruct (ReadDir fs p) as [es|] eqn:Hread;
      [|apply ReadDir_None in Hread; contradiction].
    apply ReadDir_Some in Hread as (_ & Hnodup & Hes).
    destruct (entriesLoop_cleared p rec Hp0 Hun Hrec es fs Hwf Hnodup)
      as (fs' & Hrun & Hwf' & Hcl).
    { intros q k Hin. apply Hes in Hin. tauto. }
    exists fs'. split; [exact Hrun|]. split; [exact Hwf'|].
    intros q. destruct (Hcl q) as (Hout & Hsame & Hkept & Hin).
    split.
    { intros Hnb. apply Hout. intros ([q' k'] & He & Hq'). apply Hnb.
      apply (strictlyBelow_entry p q'); [apply Hes in He; tauto|exact Hq']. }
    split; [exact Hsame|]. split; [exact Hkept|].
    intros Hbelow Hsome. apply Hin; [|exact Hsome].
    apply strictlyBelow_inv in Hbelow as (abs & Hentry & Hpre).
    assert (Hwas : is_Some (fs !! q)).
    { destruct Hsame as [<-|Hnone]; [exact Hsome|].
      rewrite Hnone in Hsome. destruct Hsome; discriminate. }
    assert (Habs : is_Some (fs !! abs)).
    { destruct (decide (q = abs)) as [->|Hne]; [exact Hwas|].
      rewrite (wellFormed_below fs abs q Hwf); [eauto|split; [exact Hpre|congruence]|exact Hwas]. }
    destruct Habs as [k Hk]. exists (abs, k). split; [|exact Hpre].
    apply Hes. auto. }
  induction fuel as [|fuel IH]; intros fs p Hwf Hdir Hp0 Hun Hfuel.
  - apply (Hgen (fun fs' abs => removeWithExceptions 0 fs' abs keepDirs checkDirs));
      try assumption.
    intros fs1 abs _ _ [x ->]%entryOf_snoc _ Hcheck. exfalso.
    apply check_length in Hcheck. rewrite length_app in Hcheck. simpl in *. lia.
  - apply (Hgen (fun fs' abs => removeWithExceptions (S fuel) fs' abs keepDirs checkDirs));
      try assumption.
    intros fs1 abs Hwf1 Hdir1 Hentry Hkeep Hcheck.
    destruct (IH fs1 abs Hwf1 Hdir1) as (fs' & Hrun & _ & Hcl).
    + etrans; [exact Hp0|]. apply entryOf_snoc in Hentry as [x ->]. exists [x]. reflexivity.
    + apply (unprotected_entry p0 keepDirs p); assumption.
    + apply entryOf_snoc in Hentry as [x ->]. rewrite length_app. simpl. lia.
    + exists fs'. auto.
Qed.
End WalkExact.


(** X23: in a file system where every path lies in a directory, with
    [path] a directory and every exception naming a place strictly below
    it, [removeAllExcept] returns nil and leaves below [path] exactly what
    lies in a directory named by an exception and the directories on the
    way to the places the exceptions name; all other files and directories
    below [path] are removed, also a regular file that an exception names. *)
Theorem removeAllExcept_clears (fs : FS) (p : path) (exceptions : list string) :
  wellFormed fs -> fs !! p = Some Directory ->
  Forall (leadsBelow p) exceptions ->
  exists fuel0, forall fuel, (fuel0 <= fuel)%nat ->
    exists fs',
      removeAllExcept fuel fs p exceptions = Some (fs', None) /\
      wellFormed fs' /\
      forall q,
        (~ strictlyBelow p q -> fs' !! q = fs !! q) /\
        (fs' !! q = fs !! q \/ fs' !! q = None) /\
        (spared fs p exceptions q -> fs' !! q = fs !! q) /\
        (strictlyBelow p q -> is_Some (fs' !! q) -> spared fs p exceptions q).
Proof.
  intros Hwf Hdir Hall.
  assert (Hpre : Forall (fun e => p `prefix_of` Dir (filepath_Join p e)) exceptions).
  { eapply Forall_impl; [exact Hall|]. intros e He. apply leadsBelow_Dir. auto. }
  set (L := max_list (length <$> (filepath_Join p <$> exceptions))).
  assert (HL : forall e, e ∈ exceptions -> (length (filepath_Join p e) <= L)%nat).
  { intros e He. apply max_list_elem_of_le.
    apply list_elem_of_fmap. exists (filepath_Join p e). split; [reflexivity|].
    apply list_elem_of_fmap. eauto. }
  exists (S L). intros fuel Hfuel. unfold removeAllExcept.
  destruct (exceptionsLoop_Some p fuel exceptions ∅ ∅ Hpre) as [[K C] Hloop].
  { apply Forall_forall. intros e He. apply HL in He. lia. }
  rewrite Hloop. apply exceptionsLoop_inv in Hloop as (_ & HK & HC).
  destruct fuel as [|fuel]; [lia|].
  assert (HK' : forall k, k ∈ K <-> exists e, e ∈ exceptions /\ k = filepath_Join p e).
  { intros k. rewrite HK. split; [intros [Hk|Hk]; [apply elem_of_empty in Hk; contradiction|exact Hk]|auto]. }
  assert (HC' : forall a, a ∈ C <->
            exists e, e ∈ exceptions /\ strictlyBelow p a /\
                      a `prefix_of` Dir (filepath_Join p e)).
  { intros a. rewrite HC. split; [intros [Ha|Ha]; [apply elem_of_empty in Ha; contradiction|exact Ha]|auto]. }
  assert (Hbelow : forall e, e ∈ exceptions -> strictlyBelow p (filepath_Join p e)).
  { intros e He. exact (proj1 (Forall_forall _ _) Hall e He). }
  destruct (removeWithExceptions_cleared p K C) with (L := L) (fuel := fuel) (fs := fs) (p := p)
    as (fs' & Hrun & Hwf' & Hcl).
  - intros k a (e & He & ->)%HK' Hpa Hak. apply HC'. exists e.
    split; [exact He|]. split; [exact Hpa|]. exact (proj1 (proj1 (strictlyBelow_Dir _ _) Hak)).
  - intros a a' (e & He & _ & Hae)%HC' Hpa' Ha'. apply HC'. exists e.
    split; [exact He|]. split; [exact Hpa'|]. etrans; eassumption.
  - intros a (e & He & _ & Hae)%HC'. apply prefix_length in Hae.
    pose proof (prefix_length _ _ (Dir_prefix (filepath_Join p e))).
    apply HL in He. lia.
  - exact Hwf.
  - exact Hdir.
  - reflexivity.
  - intros k Hk [Hpk Hne] Hkp. apply Hne. apply prefix_antisym; assumption.
  - lia.
  - exists fs'. split; [exact Hrun|]. split; [exact Hwf'|].
    assert (Hiff : forall q, kept p K C fs q <-> spared fs p exceptions q).
    { intros q. unfold kept, protected, spared. split.
      - intros [(k & (e & He & ->)%HK' & _ & Hkq & Hkd)|[(e & He & Hpq & Hqe)%HC' Hqd]].
        + left. eauto.
        + right. split; [exact Hqd|]. exists e. split; [exact He|]. split; [exact Hpq|].
          apply strictlyBelow_Dir. split; [exact Hqe|].
          intros Heq. destruct (Hbelow e He) as [H1 H2]. rewrite Heq in H1.
          apply prefix_nil_inv in H1. rewrite Heq in H2. contradiction.
      - intros [(e & He & Hkq & Hkd)|[Hqd (e & He & Hpq & Hqe)]].
        + left. exists (filepath_Join p e). split; [apply HK'; eauto|].
          split; [apply Hbelow, He|auto].
        + right. split; [|exact Hqd]. apply HC'. exists e. split; [exact He|].
          split; [exact Hpq|]. exact (proj1 (proj1 (strictlyBelow_Dir _ _) Hqe)). }
    intros q. destruct (Hcl q) as (H1 & H2 & H3 & H4).
    split; [exact H1|]. split; [exact H2|].
    split; [intros Hs; apply H3, Hiff, Hs|].
    intros Hb Hsome. apply Hiff, H4; assumption.
Qed.

Lemma wellFormed_check (fs : FS) :
  map_Forall (fun q _ => q = [] \/ fs !! Dir q = Some Directory) fs ->
  wellFormed fs.
Proof.
  intros Hall q Hq [k Hk]. destruct (Hall q k Hk) as [?|Hdir]; [contradiction|exact Hdir].
Qed.

Lemma removeAllExcept_spares_witness :
  exists fs',
    removeAllExcept 3 workTree ["w"] ["a/b"] = Some (fs', None) /\
    (forall q, is_Some (fs' !! q) -> fs' !! q = workTree !! q) /\
    (forall q, ~ strictlyBelow ["w"] q -> fs' !! q = workTree !! q) /\
    (forall dir q,
       dir ∈ ["a/b"] -> leadsBelow ["w"] dir ->
       workTree !! filepath_Join ["w"] dir = Some Directory ->
       filepath_Join ["w"] dir `prefix_of` q ->
       fs' !! q = workTree !! q).
Proof.
  eexists. split; [vm_compute; reflexivity|].
  apply (removeAllExcept_spares 3 workTree _ ["w"] ["a/b"] None).
  vm_compute. reflexivity.
Defined.

Lemma removeAllExcept_clears_witness :
  wellFormed workTree /\
  workTree !! ["w"] = Some Directory /\
  Forall (leadsBelow ["w"]) ["a/b"; "c"] /\
  exists fuel0, forall fuel, (fuel0 <= fuel)%nat ->
    exists fs',
      removeAllExcept fuel workTree ["w"] ["a/b"; "c"] = Some (fs', None) /\
      wellFormed fs'.
Proof.
  assert (Hwf : wellFormed workTree).
  { apply wellFormed_check. apply (bool_decide_unpack _). vm_compute. exact I. }
  assert (Hdir : workTree !! ["w"] = Some Directory) by reflexivity.
  assert (Hall : Forall (leadsBelow ["w"]) ["a/b"; "c"]).
  { repeat constructor; try discriminate.
    - exists ["a"; "b"]. reflexivity.
    - exists ["c"]. reflexivity. }
  split; [exact Hwf|]. split; [exact Hdir|]. split; [exact Hall|].
  destruct (removeAllExcept_clears workTree ["w"] ["a/b"; "c"] Hwf Hdir Hall)
    as [fuel0 Hrun].
  exists fuel0. intros fuel Hfuel. destruct (Hrun fuel Hfuel) as (fs' & Heq & Hwf' & _).
  exists fs'. auto.
Defined.

(** ** mkHashedDir and copyFile *)

Lemma string_length_list (s : string) :
  String.length s = length (list_ascii_of_string s).
Proof. induction s as [|c s IH]; simpl; congruence. Qed.

Lemma explode_four (c0 c1 c2 c3 : ascii) (rest : list ascii) :
  explode (string_of_list_ascii (c0 :: c1 :: c2 :: c3 :: rest)) mkHashedLevels
  = [String c0 ""; String c1 ""; String c2 "";
     string_of_list_ascii (c3 :: rest)].
Proof.
  unfold explode, mkHashedLevels.
  rewrite string_length_list, list_ascii_of_string_of_list_ascii.
  simpl length. replace (S (S (S (S (length rest)))) <? 4)%nat with false
    by (symmetry; apply Nat.ltb_ge; lia).
  reflexivity.
Qed.

Lemma explode_short (s : string) :
  (String.length s < mkHashedLevels)%nat ->
  (length (explode s mkHashedLevels) < mkHashedLevels)%nat.
Proof.
  unfold mkHashedLevels. intros Hlen. unfold explode.
  rewrite <- (string_of_list_ascii_of_string s) in *.
  rewrite string_length_list, list_ascii_of_string_of_list_ascii in *.
  destruct (list_ascii_of_string s) as [|c0 [|c1 [|c2 [|c3 rest]]]];
    simpl in *; lia.
Qed.

Lemma filepath_Join_plain (p : path) (c : ascii) :
  isHex c = true -> filepath_Join p (String c "") = p ++ [String c ""].
Proof.
  intros Hc. apply bool_decide_eq_true in Hc. unfold ldigits in Hc. simpl in Hc.
  repeat (apply elem_of_cons in Hc as [->|Hc]; [reflexivity|]).
  apply elem_of_nil in Hc. contradiction.
Qed.

(** X24: on a key made by [byteKey], [mkHashedDir] does not panic: the
    directory it works in is [baseDir/jobqueue_cwd/c0/c1/c2] for the first
    three hexadecimal digits [c0], [c1], [c2] of the key, and the prefix of
    the name of the unique leaf directory is made of the other 29. *)
Theorem hashedDir_of_byteKey (Hash128 : list byte -> Z * Z)
    (Hash128_uint64 : forall b,
       0 <= (Hash128 b).1 < 2 ^ 64 /\ 0 <= (Hash128 b).2 < 2 ^ 64)
    (baseDir : path) (b : list byte) :
  exists (c0 c1 c2 : ascii) (leaf : string),
    byteKey Hash128 b = String c0 (String c1 (String c2 leaf)) /\
    isHex c0 = true /\ isHex c1 = true /\ isHex c2 = true /\
    String.length leaf = 29%nat /\
    hashedDir baseDir (byteKey Hash128 b)
    = Some (baseDir ++ ["jobqueue_cwd"; String c0 ""; String c1 ""; String c2 ""],
            leaf).
Proof.
  unfold byteKey. destruct (Hash128_uint64 b) as [Hl Hh].
  destruct (Hash128 b) as [l h]. simpl in Hl, Hh.
  pose proof (fmt_016x_length l Hl) as Hlen1.
  pose proof (fmt_016x_length h Hh) as Hlen2.
  pose proof (fmt_016x_isHex l) as Hhex.
  destruct (fmt_016x l) as [|c0 [|c1 [|c2 [|c3 rest]]]]; try discriminate.
  apply Forall_cons in Hhex as [H0 Hhex]. apply Forall_cons in Hhex as [H1 Hhex].
  apply Forall_cons in Hhex as [H2 _].
  exists c0, c1, c2, (string_of_list_ascii ((c3 :: rest) ++ fmt_016x h)).
  split; [reflexivity|]. split; [exact H0|]. split; [exact H1|]. split; [exact H2|].
  split.
  { rewrite string_of_list_ascii_length, length_app, Hlen2. simpl in *. lia. }
  unfold hashedDir. change ((c0 :: c1 :: c2 :: c3 :: rest) ++ fmt_016x h)
    with (c0 :: c1 :: c2 :: c3 :: (rest ++ fmt_016x h)).
  rewrite explode_four. cbn [length take nth Nat.ltb Nat.leb mkHashedLevels Nat.sub app].
  unfold filepath_JoinAll. cbn [foldl].
  change (filepath_Join baseDir (AppName +:+ "_cwd")) with (baseDir ++ ["jobqueue_cwd"]).
  rewrite !filepath_Join_plain by assumption.
  rewrite <- !app_assoc. reflexivity.
Qed.

(** X25: [mkHashedDir] panics on a [tohash] of fewer than four bytes, the
    empty string among them; on ASCII text of four characters or more it
    does not, and the leaf prefix is the text from the fourth character on. *)
Theorem hashedDir_panics_on_short (baseDir : path) (tohash : string) :
  ((String.length tohash < 4)%nat -> hashedDir baseDir tohash = None) /\
  (Forall (fun c => (nat_of_ascii c < 128)%nat) (list_ascii_of_string tohash) ->
   (4 <= String.length tohash)%nat ->
   exists dir,
     hashedDir baseDir tohash
     = Some (dir, string_of_list_ascii (drop 3 (list_ascii_of_string tohash)))).
Proof.
  unfold hashedDir. split.
  - intros Hshort. apply explode_short in Hshort. apply Nat.ltb_lt in Hshort.
    rewrite Hshort. reflexivity.
  - intros _ Hge. rewrite string_length_list in Hge.
    set (l := list_ascii_of_string tohash) in *.
    assert (Hs : tohash = string_of_list_ascii l)
      by (symmetry; apply string_of_list_ascii_of_string).
    clearbody l. subst tohash.
    destruct l as [|c0 [|c1 [|c2 [|c3 rest]]]]; simpl in Hge; try lia.
    rewrite explode_four. eexists. reflexivity.
Qed.

Section MkHashedDirFacts.
Variable os : history -> syscall -> reply.
Variables dir holdFile : path.

Lemma holdLoop_retries_open (fuel : nat) :
  (forall h, exists d, os h (MkdirAll dir) = Fine d) ->
  (forall h, exists b m, os h (OpenFile holdFile) = Failed b m) ->
  forall tries h, holdLoop os fuel dir holdFile tries h = OutOfFuel.
Proof.
  intros Hmk Hopen. induction fuel as [|fuel IH]; intros tries h; [reflexivity|].
  simpl. unfold call. destruct (Hmk h) as [d ->].
  destruct (Hopen ((MkdirAll dir, Fine d) :: h)) as (b & m & ->).
  simpl. apply IH.
Qed.

Lemma holdLoop_Done (fuel : nat) :
  forall tries h h' e,
    holdLoop os fuel dir holdFile tries h = Done (h', e) ->
    exists c hmid,
      h' = c :: hmid ++ h /\ Forall noRemove (c :: hmid) /\
      match e with
      | Some msg =>
          (exists b, c = (MkdirAll dir, Failed b msg)) \/
          (exists b d1 d2 hm,
             c = (CloseFile holdFile, Failed b msg) /\
             hmid ++ h = (OpenFile holdFile, Fine d1) :: (MkdirAll dir, Fine d2) :: hm)
      | None =>
          exists d1 d2 d3 hm,
            c = (CloseFile holdFile, Fine d1) /\
            hmid ++ h = (OpenFile holdFile, Fine d2) :: (MkdirAll dir, Fine d3) :: hm
      end.
Proof.
  induction fuel as [|fuel IH]; intros tries h h' e; [discriminate|].
  simpl. unfold call.
  destruct (os h (MkdirAll dir)) as [d|b m] eqn:Hmk.
  - destruct (os ((MkdirAll dir, Fine d) :: h) (OpenFile holdFile)) as [d'|b m] eqn:Hop.
    + destruct (os ((OpenFile holdFile, Fine d') :: (MkdirAll dir, Fine d) :: h)
                  (CloseFile holdFile)) as [d''|b m] eqn:Hcl.
      * intros [= <- <-]. eexists _, [_; _]. split; [reflexivity|].
        split; [repeat constructor|]. eauto 10.
      * intros [= <- <-]. eexists _, [_; _]. split; [reflexivity|].
        split; [repeat constructor|]. right. eauto 10.
    + simpl. intros Hrun. apply IH in Hrun as (c & hmid & -> & Hall & He).
      exists c, (hmid ++ [(OpenFile holdFile, Failed b m); (MkdirAll dir, Fine d)]).
      rewrite <- app_assoc. split; [reflexivity|]. split; [|exact He].
      rewrite app_comm_cons. apply Forall_app. split; [exact Hall|repeat constructor].
  - destruct (tries + 1 <=? 3).
    + intros Hrun. apply IH in Hrun as (c & hmid & -> & Hall & He).
      exists c, (hmid ++ [(MkdirAll dir, Failed b m)]).
      rewrite <- app_assoc. split; [reflexivity|]. split; [|exact He].
      rewrite app_comm_cons. apply Forall_app. split; [exact Hall|repeat constructor].
    + intros [= <- <-]. exists (MkdirAll dir, Failed b m), [].
      split; [reflexivity|]. split; [repeat constructor|]. left. eauto.
Qed.

Lemma holdLoop_gives_up :
  (forall h, exists b m, os h (MkdirAll dir) = Failed b m) ->
  forall fuel h, (4 <= fuel)%nat ->
    exists b1 m1 b2 m2 b3 m3 b4 m4,
      holdLoop os fuel dir holdFile 0 h
      = Done ((MkdirAll dir, Failed b4 m4) :: (MkdirAll dir, Failed b3 m3)
              :: (MkdirAll dir, Failed b2 m2) :: (MkdirAll dir, Failed b1 m1) :: h,
              Some m4).
Proof.
  intros Hmk fuel h Hfuel.
  destruct fuel as [|[|[|[|fuel]]]]; try lia.
  destruct (Hmk h) as (b1 & m1 & H1).
  destruct (Hmk ((MkdirAll dir, Failed b1 m1) :: h)) as (b2 & m2 & H2).
  destruct (Hmk ((MkdirAll dir, Failed b2 m2) :: (MkdirAll dir, Failed b1 m1) :: h))
    as (b3 & m3 & H3).
  destruct (Hmk ((MkdirAll dir, Failed b3 m3) :: (MkdirAll dir, Failed b2 m2)
                 :: (MkdirAll dir, Failed b1 m1) :: h)) as (b4 & m4 & H4).
  exists b1, m1, b2, m2, b3, m3, b4, m4.
  cbn [holdLoop]. unfold call. rewrite H1. cbn. rewrite H2. cbn. rewrite H3. cbn.
  rewrite H4. reflexivity.
Qed.
End MkHashedDirFacts.

Section MkHashedDirRuns.
Variable os : history -> syscall -> reply.
Variable baseDir : path.
Variable tohash : string.
Variables (dir : path) (leaf : string).
Hypothesis hashed : hashedDir baseDir tohash = Some (dir, leaf).

Lemma holdFile_path : filepath_Join dir ".hold" = dir ++ [".hold"].
Proof. reflexivity. Qed.

(** X26: the limit of three retries does not hold for the hold file: when
    making the directory succeeds and creating the hold file fails every
    time, [tries] is set back to 0 in each round and [mkHashedDir] never
    returns. *)
Theorem mkHashedDir_retries_hold_file_for_ever :
  (forall h, exists d, os h (MkdirAll dir) = Fine d) ->
  (forall h, exists b m, os h (OpenFile (dir ++ [".hold"])) = Failed b m) ->
  forall fuel h, mkHashedDir os fuel baseDir tohash h = OutOfFuel.
Proof.
  intros Hmk Hopen fuel h. unfold mkHashedDir. rewrite hashed, holdFile_path.
  unfold mkHashedDir_body.
  rewrite (holdLoop_retries_open os dir (dir ++ [".hold"]) fuel Hmk Hopen).
  reflexivity.
Qed.

(** X27: when making the directory fails every time, [mkHashedDir] tries
    four times, then tries to remove the hold file and returns an error,
    with empty [cwd] and [tmpDir]. *)
Theorem mkHashedDir_gives_up_after_four :
  (forall h, exists b m, os h (MkdirAll dir) = Failed b m) ->
  forall fuel h, (4 <= fuel)%nat ->
    exists r r1 r2 r3 r4 res,
      mkHashedDir os fuel baseDir tohash h
      = Done ((Remove (dir ++ [".hold"]), r) :: (MkdirAll dir, r4)
              :: (MkdirAll dir, r3) :: (MkdirAll dir, r2) :: (MkdirAll dir, r1)
              :: h, res) /\
      cwd res = None /\ tmpDir res = None /\ err res <> None.
Proof.
  intros Hmk fuel h Hfuel. unfold mkHashedDir. rewrite hashed, holdFile_path.
  unfold mkHashedDir_body.
  destruct (holdLoop_gives_up os dir (dir ++ [".hold"]) Hmk fuel h Hfuel)
    as (b1 & m1 & b2 & m2 & b3 & m3 & b4 & m4 & ->).
  unfold removeHold, call.
  set (hist := (MkdirAll dir, Failed b4 m4) :: _).
  destruct (os hist (Remove (dir ++ [".hold"]))) as [d|[|] m] eqn:Hrm;
    eexists _, _, _, _, _, _; (split; [reflexivity|]); simpl; auto.
Qed.

Lemma removeHold_history (hm : history) (st : Results) :
  exists r res,
    removeHold os (dir ++ [".hold"]) (hm, st)
    = ((Remove (dir ++ [".hold"]), r) :: hm, res) /\
    cwd res = cwd st /\ tmpDir res = tmpDir st /\
    (err res = None ->
     err st = None /\ forall m, r <> Failed false m).
Proof.
  unfold removeHold, call.
  destruct (os hm (Remove (dir ++ [".hold"]))) as [d|[|] m]; eexists _, _;
    (split; [reflexivity|]); (split; [reflexivity|]); (split; [reflexivity|]);
    simpl; try (intros ->; split; [reflexivity|discriminate]).
  destruct (err st); discriminate.
Qed.

Lemma mkHashedDir_body_Done (fuel : nat) (h h1 : history) (st : Results) :
  mkHashedDir_body os fuel dir (dir ++ [".hold"]) leaf h = Done (h1, st) ->
  exists c hmid,
    h1 = c :: hmid ++ h /\ Forall noRemove (c :: hmid) /\ ~ failedOpen c /\
    (err st = None ->
     exists d a1 a2 a3 a4 a5 hrest,
       cwd st = Some (d ++ ["cwd"]) /\ tmpDir st = Some (d ++ ["tmp"]) /\
       h1 = (Mkdir (d ++ ["tmp"]), Fine a1) :: (Mkdir (d ++ ["cwd"]), Fine a2)
            :: (TempDir dir leaf, Fine d)
            :: (CloseFile (dir ++ [".hold"]), Fine a3)
            :: (OpenFile (dir ++ [".hold"]), Fine a4)
            :: (MkdirAll dir, Fine a5) :: hrest).
Proof.
  unfold mkHashedDir_body.
  destruct (holdLoop os fuel dir (dir ++ [".hold"]) 0 h) as [[h0 e]| |] eqn:Hloop;
    try discriminate.
  apply holdLoop_Done in Hloop as (c & hmid & -> & Hall & He).
  destruct e as [msg|].
  - intros [= <- <-]. exists c, hmid. split; [reflexivity|]. split; [exact Hall|].
    split; [|discriminate].
    destruct He as [[b ->]|(b & d1 & d2 & hm & -> & _)]; simpl; auto.
  - destruct He as (d1 & d2 & d3 & hm & -> & Hhist). unfold call.
    destruct (os _ (TempDir dir leaf)) as [d|b m] eqn:Htmp; cbv beta iota zeta.
    2:{ intros [= <- <-]. eexists _, (_ :: hmid). split; [reflexivity|].
        split; [repeat constructor; exact (Forall_inv_tail Hall)|].
        split; [simpl; auto|discriminate]. }
    destruct (os _ (Mkdir (d ++ ["cwd"]))) as [a|b m] eqn:Hcwd; cbv beta iota zeta.
    2:{ intros [= <- <-]. eexists _, (_ :: _ :: hmid). split; [reflexivity|].
        split; [repeat constructor; exact (Forall_inv_tail Hall)|].
        split; [simpl; auto|discriminate]. }
    destruct (os _ (Mkdir (d ++ ["tmp"]))) as [a'|b m] eqn:Htmp';
      intros [= <- <-]; eexists _, (_ :: _ :: _ :: hmid);
      (split; [reflexivity|]);
      (split; [repeat constructor; exact (Forall_inv_tail Hall)|]);
      (split; [simpl; auto|]); simpl; [|discriminate].
    intros _. exists d, a', a, d1, d2, d3, hm. rewrite Hhist. auto.
Qed.

(** X28: on every return of [mkHashedDir] the removal of the hold file is
    its last call to the operating system and its only removal, and the
    call before it is never a failed attempt to create the hold file. *)
Theorem mkHashedDir_removes_hold_file_last (fuel : nat) (h h' : history)
    (res : Results) :
  mkHashedDir os fuel baseDir tohash h = Done (h', res) ->
  exists r c hmid,
    h' = (Remove (dir ++ [".hold"]), r) :: c :: hmid ++ h /\
    Forall noRemove (c :: hmid) /\ ~ failedOpen c.
Proof.
  unfold mkHashedDir. rewrite hashed, holdFile_path.
  destruct (mkHashedDir_body os fuel dir (dir ++ [".hold"]) leaf h)
    as [[h1 st]| |] eqn:Hbody; try discriminate.
  apply mkHashedDir_body_Done in Hbody as (c & hmid & -> & Hall & Hc & _).
  destruct (removeHold_history (c :: hmid ++ h) st) as (r & res' & -> & _).
  intros [= <- <-]. exists r, c, hmid. auto.
Qed.

(** X29: when [mkHashedDir] returns a nil error, its last calls were, all
    with success: making the hashed directory, creating and closing the
    hold file, making a unique directory [d] in it with the leaf prefix,
    making [d/cwd] and [d/tmp]; then the removal of the hold file, which
    did not fail but for the file not being there.  It returns [d/cwd] and
    [d/tmp]. *)
Theorem mkHashedDir_nil_error (fuel : nat) (h h' : history) (res : Results) :
  mkHashedDir os fuel baseDir tohash h = Done (h', res) ->
  err res = None ->
  exists d r a1 a2 a3 a4 a5 hrest,
    cwd res = Some (d ++ ["cwd"]) /\ tmpDir res = Some (d ++ ["tmp"]) /\
    h' = (Remove (dir ++ [".hold"]), r)
         :: (Mkdir (d ++ ["tmp"]), Fine a1) :: (Mkdir (d ++ ["cwd"]), Fine a2)
         :: (TempDir dir leaf, Fine d)
         :: (CloseFile (dir ++ [".hold"]), Fine a3)
         :: (OpenFile (dir ++ [".hold"]), Fine a4)
         :: (MkdirAll dir, Fine a5) :: hrest /\
    forall m, r <> Failed false m.
Proof.
  unfold mkHashedDir. rewrite hashed, holdFile_path.
  destruct (mkHashedDir_body os fuel dir (dir ++ [".hold"]) leaf h)
    as [[h1 st]| |] eqn:Hbody; try discriminate.
  apply mkHashedDir_body_Done in Hbody as (c & hmid & Hh1 & _ & _ & Hok).
  destruct (removeHold_history h1 st) as (r & res' & -> & Hc & Ht & Herr).
  intros [= <- <-] Hnil. destruct (Herr Hnil) as [Hst Hr].
  destruct (Hok Hst) as (d & a1 & a2 & a3 & a4 & a5 & hrest & Hcwd & Htmp & ->).
  exists d, r, a1, a2, a3, a4, a5, hrest. rewrite Hc, Ht. auto.
Qed.
End MkHashedDirRuns.


(** ** copyFile *)

Lemma closeDeferred_history (os : history -> syscall -> reply) (what : string)
    (name : path) (h : history) (err : option string) :
  exists r err',
    closeDeferred os what name (h, err) = ((CloseFile name, r) :: h, err').
Proof.
  unfold closeDeferred, call. destruct (os h (CloseFile name)); eauto.
Qed.

(** X30: [copyFile] returns the error of [os.Open], else that of
    [os.Create], else that of [io.Copy], and nil when these three succeed,
    whatever closing the files answers: an error of [Close] is never
    returned.  It closes what it opened on every path, the destination
    before the source. *)
Theorem copyFile_drops_close_errors (os : history -> syscall -> reply)
    (source dest : path) (h : history) :
  (exists b e,
     copyFile os source dest h = ((Open source, Failed b e) :: h, Some e)) \/
  (exists a b e rc,
     copyFile os source dest h
     = ((CloseFile source, rc) :: (Create dest, Failed b e)
        :: (Open source, Fine a) :: h, Some e)) \/
  (exists a a' rcopy rc1 rc2,
     copyFile os source dest h
     = ((CloseFile source, rc2) :: (CloseFile dest, rc1)
        :: (Copy dest source, rcopy) :: (Create dest, Fine a')
        :: (Open source, Fine a) :: h,
        match rcopy with Failed _ e => Some e | Fine _ => None end)).
Proof.
  unfold copyFile, call.
  destruct (os h (Open source)) as [a|b e] eqn:Hopen; [|left; eauto].
  right. cbv beta iota zeta.
  destruct (os _ (Create dest)) as [a'|b e] eqn:Hcreate; cbv beta iota zeta.
  - right.
    match goal with |- context [closeDeferred os "dest" dest (?hh, ?ee)] =>
      destruct (closeDeferred_history os "dest" dest hh ee) as (rc1 & err1 & ->)
    end.
    match goal with |- context [closeDeferred os "source" source (?hh, ?ee)] =>
      destruct (closeDeferred_history os "source" source hh ee) as (rc2 & err2 & ->)
    end.
    eauto 10.
  - left.
    match goal with |- context [closeDeferred os "source" source (?hh, ?ee)] =>
      destruct (closeDeferred_history os "source" source hh ee) as (rc & err1 & ->)
    end.
    eauto 10.
Qed.

Lemma hashedDir_of_byteKey_witness :
  (forall b,
     0 <= (lengthHash b).1 < 2 ^ 64 /\ 0 <= (lengthHash b).2 < 2 ^ 64) /\
  exists (c0 c1 c2 : ascii) (leaf : string),
    byteKey lengthHash [x61] = String c0 (String c1 (String c2 leaf)) /\
    hashedDir ["base"] (byteKey lengthHash [x61])
    = Some (["base"] ++ ["jobqueue_cwd"; String c0 ""; String c1 ""; String c2 ""],
            leaf).
Proof.
  assert (Hrange : forall b,
     0 <= (lengthHash b).1 < 2 ^ 64 /\ 0 <= (lengthHash b).2 < 2 ^ 64).
  { intros b. unfold lengthHash. simpl.
    split; [apply Z.mod_pos_bound; lia|lia]. }
  split; [exact Hrange|].
  destruct (hashedDir_of_byteKey lengthHash Hrange ["base"] [x61])
    as (c0 & c1 & c2 & leaf & Hkey & _ & _ & _ & _ & Hdir).
  exists c0, c1, c2, leaf. split; [exact Hkey|exact Hdir].
Defined.

Lemma mkHashedDir_retries_hold_file_for_ever_witness :
  hashedDir ["base"] "abcdef"
  = Some (["base"; "jobqueue_cwd"; "a"; "b"; "c"], "def") /\
  (forall h, exists d,
     readOnlyOS h (MkdirAll ["base"; "jobqueue_cwd"; "a"; "b"; "c"]) = Fine d) /\
  (forall h, exists b m,
     readOnlyOS h (OpenFile (["base"; "jobqueue_cwd"; "a"; "b"; "c"] ++ [".hold"]))
     = Failed b m) /\
  forall fuel h, mkHashedDir readOnlyOS fuel ["base"] "abcdef" h = OutOfFuel.
Proof.
  assert (Hdir : hashedDir ["base"] "abcdef"
                 = Some (["base"; "jobqueue_cwd"; "a"; "b"; "c"], "def"))
    by reflexivity.
  assert (Hmk : forall h, exists d,
            readOnlyOS h (MkdirAll ["base"; "jobqueue_cwd"; "a"; "b"; "c"]) = Fine d)
    by (intros h; exists []; reflexivity).
  assert (Hopen : forall h, exists b m,
            readOnlyOS h (OpenFile (["base"; "jobqueue_cwd"; "a"; "b"; "c"] ++ [".hold"]))
            = Failed b m)
    by (intros h; eexists _, _; reflexivity).
  split; [exact Hdir|]. split; [exact Hmk|]. split; [exact Hopen|].
  exact (mkHashedDir_retries_hold_file_for_ever readOnlyOS ["base"] "abcdef"
           _ "def" Hdir Hmk Hopen).
Defined.

Lemma mkHashedDir_gives_up_after_four_witness :
  hashedDir ["base"] "abcdef"
  = Some (["base"; "jobqueue_cwd"; "a"; "b"; "c"], "def") /\
  (forall h, exists b m,
     fullOS h (MkdirAll ["base"; "jobqueue_cwd"; "a"; "b"; "c"]) = Failed b m) /\
  (4 <= 5)%nat /\
  exists r r1 r2 r3 r4 res,
    mkHashedDir fullOS 5 ["base"] "abcdef" []
    = Done ((Remove (["base"; "jobqueue_cwd"; "a"; "b"; "c"] ++ [".hold"]), r)
            :: (MkdirAll ["base"; "jobqueue_cwd"; "a"; "b"; "c"], r4)
            :: (MkdirAll ["base"; "jobqueue_cwd"; "a"; "b"; "c"], r3)
            :: (MkdirAll ["base"; "jobqueue_cwd"; "a"; "b"; "c"], r2)
            :: (MkdirAll ["base"; "jobqueue_cwd"; "a"; "b"; "c"], r1) :: [], res) /\
    cwd res = None /\ tmpDir res = None /\ err res <> None.
Proof.
  assert (Hdir : hashedDir ["base"] "abcdef"
                 = Some (["base"; "jobqueue_cwd"; "a"; "b"; "c"], "def"))
    by reflexivity.
  assert (Hmk : forall h, exists b m,
            fullOS h (MkdirAll ["base"; "jobqueue_cwd"; "a"; "b"; "c"]) = Failed b m)
    by (intros h; eexists _, _; reflexivity).
  assert (Hfuel : (4 <= 5)%nat) by lia.
  split; [exact Hdir|]. split; [exact Hmk|]. split; [exact Hfuel|].
  exact (mkHashedDir_gives_up_after_four fullOS ["base"] "abcdef" _ "def" Hdir Hmk
           5%nat [] Hfuel).
Defined.

Lemma mkHashedDir_removes_hold_file_last_witness :
  hashedDir ["base"] "abcdef"
  = Some (["base"; "jobqueue_cwd"; "a"; "b"; "c"], "def") /\
  exists h' res,
    mkHashedDir willingOS 1 ["base"] "abcdef" [] = Done (h', res) /\
    exists r c hmid,
      h' = (Remove (["base"; "jobqueue_cwd"; "a"; "b"; "c"] ++ [".hold"]), r)
           :: c :: hmid ++ [] /\
      Forall noRemove (c :: hmid) /\ ~ failedOpen c.
Proof.
  assert (Hdir : hashedDir ["base"] "abcdef"
                 = Some (["base"; "jobqueue_cwd"; "a"; "b"; "c"], "def"))
    by reflexivity.
  split; [exact Hdir|].
  destruct (mkHashedDir willingOS 1 ["base"] "abcdef" []) as [[h' res]| |] eqn:Hrun;
    [|vm_compute in Hrun; discriminate..].
  exists h', res. split; [reflexivity|].
  exact (mkHashedDir_removes_hold_file_last willingOS ["base"] "abcdef" _ "def"
           Hdir 1%nat [] h' res Hrun).
Defined.

Lemma mkHashedDir_nil_error_witness :
  hashedDir ["base"] "abcdef"
  = Some (["base"; "jobqueue_cwd"; "a"; "b"; "c"], "def") /\
  exists h' res,
    mkHashedDir willingOS 1 ["base"] "abcdef" [] = Done (h', res) /\
    err res = None /\
    exists d, cwd res = Some (d ++ ["cwd"]) /\ tmpDir res = Some (d ++ ["tmp"]).
Proof.
  assert (Hdir : hashedDir ["base"] "abcdef"
                 = Some (["base"; "jobqueue_cwd"; "a"; "b"; "c"], "def"))
    by reflexivity.
  split; [exact Hdir|].
  destruct (mkHashedDir willingOS 1 ["base"] "abcdef" []) as [[h' res]| |] eqn:Hrun;
    [|vm_compute in Hrun; discriminate..].
  assert (Herr : err res = None).
  { pose proof Hrun as Hc. vm_compute in Hc. injection Hc as _ <-. reflexivity. }
  exists h', res. split; [reflexivity|]. split; [exact Herr|].
  destruct (mkHashedDir_nil_error willingOS ["base"] "abcdef" _ "def" Hdir 1%nat []
              h' res Hrun Herr)
    as (d & _ & _ & _ & _ & _ & _ & _ & Hcwd & Htmp & _).
  exists d. split; [exact Hcwd|exact Htmp].
Defined.
